(** * Veggie Clash: a shallow embedding of the game's state logic

  The development follows the TypeScript sources under [src/game]:
  - [entities/Player.ts]  power-up stacking, weapon switching, shooting;
  - [entities/Enemy.ts]   the enemy AI state machine;
  - [state/GameState.ts]  the shared state object and its persistence;
  - [systems/Settings]    settings loading and key rebinding;
  - [systems/MissionManager.ts] mission progress loading;
  - [scenes/GameOverScene.ts]   high-score persistence, and the runner
    scene that shares the file.

  Conventions.  A JavaScript [number] is modelled by an exact number:
  [Q] for quantities the game scales or measures (multipliers, speeds,
  times, coordinates, the fields of the shared state, the score handed
  to the game-over scene), [Z] for counters and indices the game only
  ever moves in whole steps (weapon index, ammunition, weapon damage
  table, the kills and the score of [GameScene]).  Rounding and the
  infinities of IEEE doubles are outside the model, and so is NaN
  except as a value of type [any] in the inventory.  An object that the
  code changes in place and passes by reference lives in a heap.  An
  engine call that only draws, plays a sound or logs is left out; an
  emitted event is returned next to the new state. *)

From Stdlib Require Import ZArith QArith Qminmax Qround Qabs Lqa Lia Bool List Ascii String.
From Stdlib Require Qcanon.
From stdpp Require Import gmap strings.
Import ListNotations.

Open Scope Z_scope.

(** ** JavaScript arithmetic helpers *)

Module JS.

(** [a < b] on numbers. *)
Definition Qltb (a b : Q) : bool := negb (Qle_bool b a).

(** [Math.min] and [Math.max] on numbers. *)
Definition Math_min (a b : Q) : Q := Qmin a b.
Definition Math_max (a b : Q) : Q := Qmax a b.

(** [a % b] on integers: the remainder takes the sign of the dividend. *)
Definition rem (a b : Z) : Z := Z.rem a b.

(** A call either returns or throws (a TypeError); both carry the object
    state as the call left it. *)
Inductive outcome (A : Type) :=
| Return (a : A)
| Throw (a : A).
Arguments Return {A} a.
Arguments Throw {A} a.

Definition state_of {A} (o : outcome A) : A :=
  match o with Return a | Throw a => a end.

End JS.

(** ** entities/Player.ts *)

Module Player.

(** [enum PowerUpType] *)
Inductive PowerUpType :=
| DAMAGE_BOOST | SPEED_BOOST | FIRE_RATE_BOOST | INSTANT_HEAL.

Definition PowerUpType_eqb (a b : PowerUpType) : bool :=
  match a, b with
  | DAMAGE_BOOST, DAMAGE_BOOST | SPEED_BOOST, SPEED_BOOST
  | FIRE_RATE_BOOST, FIRE_RATE_BOOST | INSTANT_HEAL, INSTANT_HEAL => true
  | _, _ => false
  end.

(** [interface PowerUpEffect]; the optional [timerBar] is a HUD handle. *)
Record PowerUpEffect := mkEffect {
  multiplier : Q;
  duration : Q;
  remainingTime : Q
}.

(** [Map<PowerUpType, PowerUpEffect>]: a JavaScript [Map] keeps its
    entries in insertion order, so it is an association list; the
    functions below are [get], [set], [delete] of that [Map]. *)
Definition PowerUpMap := list (PowerUpType * PowerUpEffect).

Fixpoint Map_get (k : PowerUpType) (m : PowerUpMap) : option PowerUpEffect :=
  match m with
  | [] => None
  | (k', e) :: m' => if PowerUpType_eqb k k' then Some e else Map_get k m'
  end.

(** [set] replaces the value of a present key in place and appends an
    absent one. *)
Fixpoint Map_set (k : PowerUpType) (e : PowerUpEffect) (m : PowerUpMap) : PowerUpMap :=
  match m with
  | [] => [(k, e)]
  | (k', e') :: m' =>
      if PowerUpType_eqb k k' then (k', e) :: m' else (k', e') :: Map_set k e m'
  end.

Fixpoint Map_delete (k : PowerUpType) (m : PowerUpMap) : PowerUpMap :=
  match m with
  | [] => []
  | (k', e') :: m' =>
      if PowerUpType_eqb k k' then m' else (k', e') :: Map_delete k m'
  end.

(** Number of entries of the map under key [k]. *)
Definition Map_count (k : PowerUpType) (m : PowerUpMap) : nat :=
  List.length (List.filter (fun ke => PowerUpType_eqb k (fst ke)) m).

(** The weapon table [weapons]; [ammo = -1] means infinite. *)
Record Weapon := mkWeapon {
  name : string;
  damage : Z;
  fireRate : Z;
  ammo : Z
}.

Definition weapons : list Weapon :=
  [ mkWeapon "Pea Shooter" 10 150 (-1);
    mkWeapon "Corn Cannon" 25 400 30;
    mkWeapon "Beet Bazooka" 50 800 10 ].

(** [this.weapons[i]]: [undefined] outside the table. *)
Definition weaponAt (i : Z) : option Weapon :=
  if i <? 0 then None else nth_error weapons (Z.to_nat i).

(** [GAME_SETTINGS.PLAYER_SPEED] and [PLAYER_MAX_HEALTH] of config.ts. *)
Definition PLAYER_SPEED : Q := 200.
Definition PLAYER_MAX_HEALTH : Q := 100.

(** The fields of [class Player] that the stat logic reads or writes. *)
Record Player := mkPlayer {
  health : Q;
  maxHealth : Q;
  currentWeapon : Z;
  currentAmmo : Z;
  maxAmmo : Z;
  moveSpeed : Q;
  lastShotTime : Q;
  activePowerUps : PowerUpMap;
  baseMoveSpeed : Q;
  baseDamageMultiplier : Q;
  baseFireRateMultiplier : Q
}.

Definition set_weapon (p : Player) (w ca ma : Z) : Player :=
  mkPlayer (health p) (maxHealth p) w ca ma (moveSpeed p) (lastShotTime p)
           (activePowerUps p) (baseMoveSpeed p) (baseDamageMultiplier p)
           (baseFireRateMultiplier p).

Definition set_activePowerUps (p : Player) (m : PowerUpMap) : Player :=
  mkPlayer (health p) (maxHealth p) (currentWeapon p) (currentAmmo p) (maxAmmo p)
           (moveSpeed p) (lastShotTime p) m (baseMoveSpeed p)
           (baseDamageMultiplier p) (baseFireRateMultiplier p).

Definition set_moveSpeed (p : Player) (v : Q) : Player :=
  mkPlayer (health p) (maxHealth p) (currentWeapon p) (currentAmmo p) (maxAmmo p)
           v (lastShotTime p) (activePowerUps p) (baseMoveSpeed p)
           (baseDamageMultiplier p) (baseFireRateMultiplier p).

Definition set_shot (p : Player) (ca : Z) (t : Q) : Player :=
  mkPlayer (health p) (maxHealth p) (currentWeapon p) ca (maxAmmo p)
           (moveSpeed p) t (activePowerUps p) (baseMoveSpeed p)
           (baseDamageMultiplier p) (baseFireRateMultiplier p).

(** [updateWeaponStats]: reading [weapon.ammo] of [undefined] throws. *)
Definition updateWeaponStats (p : Player) : JS.outcome Player :=
  match weaponAt (currentWeapon p) with
  | Some weapon => JS.Return (set_weapon p (currentWeapon p) (ammo weapon) (ammo weapon))
  | None => JS.Throw p
  end.

(** The field initialisers followed by the constructor body. *)
Definition init : Player :=
  mkPlayer PLAYER_MAX_HEALTH PLAYER_MAX_HEALTH 0 (-1) (-1) PLAYER_SPEED 0 []
           PLAYER_SPEED 1 1.

Definition new : Player := JS.state_of (updateWeaponStats init).

(** The payload of the ['playerStatsChanged'] event. *)
Record StatsChanged := mkStats {
  ev_damageMultiplier : Q;
  ev_speedMultiplier : Q;
  ev_fireRateMultiplier : Q
}.

(** The loop of [recalculateStats] over the active power-ups, on the
    three local accumulators (damage, speed, fire rate). *)
Fixpoint stack (m : PowerUpMap) (acc : Q * Q * Q) : Q * Q * Q :=
  match m with
  | [] => acc
  | (powerUpType, effect) :: m' =>
      let '(damageMultiplier, speedMultiplier, fireRateMultiplier) := acc in
      stack m'
        match powerUpType with
        | DAMAGE_BOOST =>
            (damageMultiplier * multiplier effect, speedMultiplier, fireRateMultiplier)%Q
        | SPEED_BOOST =>
            (damageMultiplier, speedMultiplier * multiplier effect, fireRateMultiplier)%Q
        | FIRE_RATE_BOOST =>
            (damageMultiplier, speedMultiplier, fireRateMultiplier * multiplier effect)%Q
        | INSTANT_HEAL => acc
        end
  end.

(** The three locals of [recalculateStats] after the caps. *)
Definition cappedMultipliers (p : Player) : Q * Q * Q :=
  let '(damageMultiplier, speedMultiplier, fireRateMultiplier) :=
    stack (activePowerUps p)
          (baseDamageMultiplier p, 1%Q, baseFireRateMultiplier p) in
  (JS.Math_min damageMultiplier 2,
   JS.Math_min speedMultiplier (3 # 2),
   JS.Math_min fireRateMultiplier 2).

Definition recalculateStats (p : Player) : Player * StatsChanged :=
  let '(damageMultiplier, speedMultiplier, fireRateMultiplier) :=
    cappedMultipliers p in
  (set_moveSpeed p (baseMoveSpeed p * speedMultiplier)%Q,
   mkStats damageMultiplier (speedMultiplier - 1)%Q fireRateMultiplier).

(** The refresh branch of [applyPowerUp] mutates the stored effect object:
    the entry keeps its place in the map. *)
Fixpoint refresh (k : PowerUpType) (mult durationMs : Q) (m : PowerUpMap) : PowerUpMap :=
  match m with
  | [] => []
  | (k', e) :: m' =>
      if PowerUpType_eqb k k'
      then (k', mkEffect (JS.Math_max (multiplier e) mult) durationMs durationMs) :: m'
      else (k', e) :: refresh k mult durationMs m'
  end.

Definition applyPowerUp (powerUpType : PowerUpType) (mult durationMs : Q)
    (p : Player) : Player * StatsChanged :=
  match Map_get powerUpType (activePowerUps p) with
  | Some existingEffect =>
      recalculateStats
        (set_activePowerUps p (refresh powerUpType mult durationMs (activePowerUps p)))
  | None =>
      recalculateStats
        (set_activePowerUps p
           (Map_set powerUpType (mkEffect mult durationMs durationMs) (activePowerUps p)))
  end.

Definition removePowerUp (powerUpType : PowerUpType) (p : Player) : Player :=
  match Map_get powerUpType (activePowerUps p) with
  | Some effect => set_activePowerUps p (Map_delete powerUpType (activePowerUps p))
  | None => p
  end.

(** [effect.remainingTime -= delta] on the effect stored under [k]. *)
Fixpoint elapse (k : PowerUpType) (delta : Q) (m : PowerUpMap) : PowerUpMap :=
  match m with
  | [] => []
  | (k', e) :: m' =>
      if PowerUpType_eqb k k'
      then (k', mkEffect (multiplier e) (duration e) (remainingTime e - delta)%Q) :: m'
      else (k', e) :: elapse k delta m'
  end.

(** The loop of [updatePowerUps] over the entries it has still to visit.
    Deleting the entry being visited does not disturb the iteration of a
    [Map], which goes on with the entries after it.  The flag is the local
    [recalculateStats]. *)
Fixpoint visit (delta : Q) (entries : PowerUpMap) (p : Player) (recalculate : bool)
  : Player * bool :=
  match entries with
  | [] => (p, recalculate)
  | (powerUpType, effect) :: rest =>
      let p := set_activePowerUps p (elapse powerUpType delta (activePowerUps p)) in
      if Qle_bool (remainingTime effect - delta) 0
      then visit delta rest (removePowerUp powerUpType p) true
      else visit delta rest p recalculate
  end.

Definition updatePowerUps (delta : Q) (p : Player) : Player * option StatsChanged :=
  let '(p', recalculate) := visit delta (activePowerUps p) p false in
  if recalculate then let '(p'', ev) := recalculateStats p' in (p'', Some ev)
  else (p', None).

(** The interval [fireRate] computed at the head of [shoot]. *)
Definition shootInterval (weapon : Weapon) (p : Player) : Q :=
  (inject_Z (fireRate weapon) / baseFireRateMultiplier p)%Q.

(** The [damage] that [shoot] hands to [new Projectile]. *)
Definition shootDamage (weapon : Weapon) (p : Player) : Z :=
  Qfloor (inject_Z (damage weapon) * baseDamageMultiplier p).

(** [shoot] at time [now = Date.now()]: the result is the damage of the
    projectile fired, or [None] after one of the two early returns.
    Reading [weapon.fireRate] of an invalid weapon index throws. *)
Definition shoot (now : Q) (p : Player) : JS.outcome (Player * option Z) :=
  match weaponAt (currentWeapon p) with
  | None => JS.Throw (p, None)
  | Some weapon =>
      let fireRate := shootInterval weapon p in
      if JS.Qltb (now - lastShotTime p) fireRate then JS.Return (p, None)
      else if negb (ammo weapon =? -1) && (currentAmmo p <=? 0) then JS.Return (p, None)
      else
        let damage := shootDamage weapon p in
        let ca := if negb (ammo weapon =? -1) then currentAmmo p - 1 else currentAmmo p in
        JS.Return (set_shot p ca now, Some damage)
  end.

Definition switchWeapon (direction : Z) (p : Player) : JS.outcome Player :=
  let newWeapon :=
    JS.rem (currentWeapon p + direction + Z.of_nat (List.length weapons))
           (Z.of_nat (List.length weapons)) in
  updateWeaponStats (set_weapon p newWeapon (currentAmmo p) (maxAmmo p)).

(** The calls that touch the power-ups, the weapon or the shot clock, and
    the player after a sequence of them.  The other methods (movement, dash,
    damage, healing, regeneration) assign none of these fields. *)
Inductive Op :=
| ApplyPowerUp (powerUpType : PowerUpType) (mult durationMs : Q)
| UpdatePowerUps (delta : Q)
| Shoot (now : Q)
| SwitchWeapon (direction : Z).

Definition step (p : Player) (o : Op) : Player :=
  match o with
  | ApplyPowerUp t m d => fst (applyPowerUp t m d p)
  | UpdatePowerUps delta => fst (updatePowerUps delta p)
  | Shoot now => fst (JS.state_of (shoot now p))
  | SwitchWeapon d => JS.state_of (switchWeapon d p)
  end.

Definition run (ops : list Op) (p : Player) : Player := fold_left step ops p.

(** One effect per type: an invariant of every call. *)
Definition one_per_type (p : Player) : Prop :=
  forall k, (Map_count k (activePowerUps p) <= 1)%nat.

(** The base multipliers are never assigned: every call leaves them at
    their initial value 1. *)
Definition base_untouched (p : Player) : Prop :=
  baseDamageMultiplier p = 1%Q /\ baseFireRateMultiplier p = 1%Q.

End Player.

(** ** entities/Enemy.ts *)

Module Enemy.

(** [type EnemyType] *)
Inductive EnemyType := tomato | onion | pepper | broccoli | eggplant.

(** The declared values of the [state] field. *)
Inductive State := idle | seeking | attacking | stunned.

(** A reference to a game object of the scene (the player sprite). *)
Definition ObjRef := nat.

(** What one frame of the engine shows an enemy: [scene.player], the
    coordinates of the game objects, and [Date.now()]. *)
Record Scene := mkScene {
  scene_player : option ObjRef;
  coords : ObjRef -> Q * Q;
  now : Q
}.

Record Enemy := mkEnemy {
  enemyType : EnemyType;
  health : Q;
  maxHealth : Q;
  damage : Q;
  speed : Q;
  x : Q;
  y : Q;
  target : option ObjRef;
  lastAttackTime : Q;
  attackCooldown : Q;
  attackRange : Q;
  state : State;
  stateTimer : Q
}.

(** The stat table of [setupStats]: health, speed, damage, attack
    cooldown, attack range.  The [default] branch of the switch is not
    reachable from an [EnemyType]. *)
Definition setupStats (t : EnemyType) : Q * Q * Q * Q * Q :=
  match t with
  | tomato => (20, 80, 8, 2000, 200)
  | onion => (15, 120, 12, 1500, 50)
  | pepper => (12, 60, 15, 3000, 300)
  | broccoli => (40, 40, 20, 2500, 80)
  | eggplant => (200, 30, 25, 1000, 250)
  end%Q.

(** The constructor: field initialisers ([state = 'idle'], timers 0, no
    target), [setupStats], and the final [this.state = 'seeking']. *)
Definition new (px py : Q) (t : EnemyType) : Enemy :=
  let '(h, sp, dmg, cd, range) := setupStats t in
  mkEnemy t h h dmg sp px py None 0 cd range seeking 0.

Definition set_state (e : Enemy) (s : State) : Enemy :=
  mkEnemy (enemyType e) (health e) (maxHealth e) (damage e) (speed e) (x e) (y e)
          (target e) (lastAttackTime e) (attackCooldown e) (attackRange e)
          s (stateTimer e).

Definition set_stateTimer (e : Enemy) (t : Q) : Enemy :=
  mkEnemy (enemyType e) (health e) (maxHealth e) (damage e) (speed e) (x e) (y e)
          (target e) (lastAttackTime e) (attackCooldown e) (attackRange e)
          (state e) t.

Definition set_target (e : Enemy) (r : option ObjRef) : Enemy :=
  mkEnemy (enemyType e) (health e) (maxHealth e) (damage e) (speed e) (x e) (y e)
          r (lastAttackTime e) (attackCooldown e) (attackRange e)
          (state e) (stateTimer e).

Definition set_lastAttackTime (e : Enemy) (t : Q) : Enemy :=
  mkEnemy (enemyType e) (health e) (maxHealth e) (damage e) (speed e) (x e) (y e)
          (target e) t (attackCooldown e) (attackRange e)
          (state e) (stateTimer e).

Definition set_health (e : Enemy) (h : Q) : Enemy :=
  mkEnemy (enemyType e) h (maxHealth e) (damage e) (speed e) (x e) (y e)
          (target e) (lastAttackTime e) (attackCooldown e) (attackRange e)
          (state e) (stateTimer e).

Definition set_position (e : Enemy) (px py : Q) : Enemy :=
  mkEnemy (enemyType e) (health e) (maxHealth e) (damage e) (speed e) px py
          (target e) (lastAttackTime e) (attackCooldown e) (attackRange e)
          (state e) (stateTimer e).

Definition findTarget (sc : Scene) (e : Enemy) : Enemy :=
  match scene_player sc with
  | Some player => set_target e (Some player)
  | None => e
  end.

(** [isInRange]: [Phaser.Math.Distance.Between] is the Euclidean distance
    [sqrt (dx^2 + dy^2)]; it is at most [attackRange] exactly when the
    range is not negative and [dx^2 + dy^2 <= attackRange^2]. *)
Definition isInRange (sc : Scene) (e : Enemy) : bool :=
  match target e with
  | None => false
  | Some t =>
      let '(tx, ty) := coords sc t in
      let dx := (x e - tx)%Q in
      let dy := (y e - ty)%Q in
      Qle_bool 0 (attackRange e) &&
      Qle_bool (dx * dx + dy * dy) (attackRange e * attackRange e)
  end.

Definition hasTarget (e : Enemy) : bool :=
  match target e with Some _ => true | None => false end.

(** [attemptAttack]: the attack itself (a projectile, a tween, a drawn
    shape) belongs to the engine; the result says whether one was
    launched. *)
Definition attemptAttack (sc : Scene) (e : Enemy) : Enemy * bool :=
  if JS.Qltb (now sc - lastAttackTime e) (attackCooldown e) then (e, false)
  else (set_lastAttackTime e (now sc), true).

Definition updateState (delta : Q) (sc : Scene) (e : Enemy) : Enemy * bool :=
  let e := set_stateTimer e (stateTimer e - delta)%Q in
  match state e with
  | stunned =>
      if Qle_bool (stateTimer e) 0 then (set_state e seeking, false) else (e, false)
  | seeking =>
      let e := findTarget sc e in
      if hasTarget e && isInRange sc e then (set_state e attacking, false)
      else (e, false)
  | attacking =>
      if negb (hasTarget e) || negb (isInRange sc e) then (set_state e seeking, false)
      else attemptAttack sc e
  | idle => (e, false)
  end.

(** [update]: [updateAI] and [updateAnimation] only drive the physics body
    and the sprite. *)
Definition update (delta : Q) (sc : Scene) (e : Enemy) : Enemy :=
  fst (updateState delta sc e).

Definition takeDamage (amount : Q) (e : Enemy) : Enemy :=
  let e := set_health e (JS.Math_max 0 (health e - amount)) in
  let e := set_state e stunned in
  set_stateTimer e 200.

(** What happens to an enemy: a frame, a hit, or the engine moving it. *)
Inductive Op :=
| Update (delta : Q) (sc : Scene)
| TakeDamage (amount : Q)
| Moved (px py : Q).

Definition step (e : Enemy) (o : Op) : Enemy :=
  match o with
  | Update delta sc => update delta sc e
  | TakeDamage amount => takeDamage amount e
  | Moved px py => set_position e px py
  end.

Definition run (ops : list Op) (e : Enemy) : Enemy := fold_left step ops e.

(** The states the machine moves among. *)
Definition live (s : State) : Prop := s = seeking \/ s = attacking \/ s = stunned.

(** The attack range of a type: the last column of the stat table. *)
Definition rangeOf (t : EnemyType) : Q := snd (setupStats t).

(** The game object a seeking enemy aims at in a frame: the player of the
    scene, or the target it had when the scene has no player. *)
Definition aim (sc : Scene) (e : Enemy) : option ObjRef :=
  match scene_player sc with
  | Some player => Some player
  | None => target e
  end.

(** The game object [p] is no farther from the enemy than the attack
    range of type [t], both sides of the comparison squared. *)
Definition within (t : EnemyType) (sc : Scene) (e : Enemy) (p : ObjRef) : Prop :=
  ((x e - fst (coords sc p)) * (x e - fst (coords sc p))
   + (y e - snd (coords sc p)) * (y e - snd (coords sc p))
   <= rangeOf t * rangeOf t)%Q.

(** A scene whose player is the object 0, standing at [(px, py)]. *)
Definition player_at (px py : Q) : Scene :=
  mkScene (Some O) (fun _ => (px, py)) 0.

End Enemy.

(** ** JSON values, JavaScript objects and the host *)

Module JSON.

(** The values [JSON.parse] can return.  An object is the list of its
    properties in insertion order (JavaScript lists integer-like names
    first; no setting or action of the game has such a name). *)
#[warnings="-register-all"]
Inductive json :=
| JNull
| JBool (b : bool)
| JNum (q : Q)
| JStr (s : string)
| JArr (items : list json)
| JObj (fields : list (string * json)).

(** A JavaScript object whose property values are JSON values. *)
Definition obj := list (string * json).

(** [o[k]]; [None] is [undefined]. *)
Fixpoint obj_get (k : string) (o : obj) : option json :=
  match o with
  | [] => None
  | (k', v) :: o' => if String.eqb k k' then Some v else obj_get k o'
  end.

(** [o[k] = v]: a present property keeps its place, a new one goes last. *)
Fixpoint obj_set (k : string) (v : json) (o : obj) : obj :=
  match o with
  | [] => [(k, v)]
  | (k', v') :: o' =>
      if String.eqb k k' then (k', v) :: o' else (k', v') :: obj_set k v o'
  end.

(** [o[k] = v] on a plain object, for a value [v] that is not itself an
    object or [null]: an own property is updated and a new one is added,
    except under the name ['__proto__'].  An object that has no own
    property of that name inherits a setter for it, which the assignment
    calls in place of making a property, and which ignores such a value. *)
Definition obj_assign (k : string) (v : json) (o : obj) : obj :=
  match obj_get k o with
  | Some _ => obj_set k v o
  | None => if String.eqb k "__proto__" then o else obj_set k v o
  end.

(** [delete o[k]] *)
Fixpoint obj_delete (k : string) (o : obj) : obj :=
  match o with
  | [] => []
  | (k', v') :: o' =>
      if String.eqb k k' then obj_delete k o' else (k', v') :: obj_delete k o'
  end.

(** [Object.keys(o)] *)
Definition obj_keys (o : obj) : list string := map fst o.

(** [{ ...a, ...b }]: the properties of [b] are assigned over a copy of
    [a], one after the other. *)
Definition spread (a b : obj) : obj :=
  fold_left (fun acc kv => obj_set (fst kv) (snd kv) acc) b a.

(** Truthiness of a value, as [if (v)] and [!v] see it. *)
Definition truthy (v : json) : bool :=
  match v with
  | JNull => false
  | JBool b => b
  | JNum q => negb (Qeq_bool q 0)
  | JStr s => negb (String.eqb s "")
  | JArr _ | JObj _ => true
  end.

(** Truthiness of a string or [null], as in [if (saved)]. *)
Definition present (saved : option string) : option string :=
  match saved with
  | Some s => if String.eqb s "" then None else Some s
  | None => None
  end.

(** The built-ins the game calls and does not define: [JSON.parse]
    ([None] is the SyntaxError it throws), [JSON.stringify], and the
    number a string, array or object coerces to ([None] is NaN). *)
Class Host := {
  JSON_parse : string -> option json;
  JSON_stringify : json -> string;
  ToNumber_other : json -> option Q
}.

(** [ToNumber] on a value that may be [undefined]; [None] is NaN. *)
Definition ToNumber `{Host} (v : option json) : option Q :=
  match v with
  | None => None
  | Some JNull => Some 0%Q
  | Some (JBool b) => Some (if b then 1%Q else 0%Q)
  | Some (JNum q) => Some q
  | Some other => ToNumber_other other
  end.

End JSON.

(** ** Names every object inherits *)

Module ObjectPrototype.

(** The properties of [Object.prototype].  Under one of these names a
    plain object reads an inherited value and an assignment to
    ['__proto__'] makes no property; under every other name, reading,
    writing and deleting see the object's own properties only. *)
Definition names : list string :=
  [ "__proto__"; "constructor"; "hasOwnProperty"; "isPrototypeOf";
    "propertyIsEnumerable"; "toLocaleString"; "toString"; "valueOf";
    "__defineGetter__"; "__defineSetter__"; "__lookupGetter__"; "__lookupSetter__" ].

Definition own_name (k : string) : Prop := ~ In k names.

End ObjectPrototype.

(** ** [localStorage] *)

Module Storage.

(** The stored items, and whether the browser refuses writes ([setItem]
    throws: quota exceeded or storage disabled). *)
Record Storage := mkStorage {
  items : gmap string string;
  refuses_writes : bool
}.

(** A storage that holds the given items and accepts writes. *)
Definition holding (l : list (string * string)) : Storage :=
  mkStorage (list_to_map l) false.

Definition getItem (st : Storage) (key : string) : option string :=
  items st !! key.

(** [None] is the exception. *)
Definition setItem (st : Storage) (key value : string) : option Storage :=
  if refuses_writes st then None
  else Some (mkStorage (<[key := value]> (items st)) (refuses_writes st)).

End Storage.

(** ** Numbers and strings: [Number.prototype.toString], [parseInt] *)

Module NumStr.

Definition digit_char (d : Z) : ascii := ascii_of_nat (48 + Z.to_nat d).

(** The decimal digits of [n >= 0] in front of [acc]. *)
Fixpoint digits_fuel (fuel : nat) (n : Z) (acc : string) : string :=
  match fuel with
  | O => acc
  | S fuel' =>
      let acc' := String (digit_char (n mod 10)) acc in
      if n <? 10 then acc' else digits_fuel fuel' (n / 10) acc'
  end.

Definition digits (n : Z) : string :=
  digits_fuel (S (Z.to_nat (Z.log2 n))) n "".

(** [n.toString()] for an integer [n] that JavaScript holds exactly and
    prints in full (a magnitude of at most 2^53): an index, a count, a
    time stamp.  [Number_toString] below is the general case. *)
Definition toString (n : Z) : string :=
  if n <? 0 then String "-" (digits (- n)) else digits n.

(** *** [Number.prototype.toString] on any number

    A number [m / 10^f] with [f] as small as possible, from [a / b] in
    lowest terms: [None] when [a / b] has no finite decimal writing. *)
Fixpoint decimal_fuel (fuel : nat) (a b : Z) (f : nat) : option (Z * nat) :=
  match fuel with
  | O => None
  | S fuel' =>
      if b =? 1 then Some (a, f)
      else if b mod 10 =? 0 then decimal_fuel fuel' a (b / 10) (S f)
      else if b mod 2 =? 0 then decimal_fuel fuel' (a * 5) (b / 2) (S f)
      else if b mod 5 =? 0 then decimal_fuel fuel' (a * 2) (b / 5) (S f)
      else None
  end.

(** [m] without its trailing zeros. *)
Fixpoint strip_zeros_fuel (fuel : nat) (m : Z) : Z :=
  match fuel with
  | O => m
  | S fuel' =>
      if (m mod 10 =? 0) && negb (m =? 0) then strip_zeros_fuel fuel' (m / 10) else m
  end.

Definition strip_zeros (m : Z) : Z := strip_zeros_fuel (S (Z.to_nat (Z.log2 m))) m.

(** The [f] decimals of [r / 10^f], where [0 <= r < 10^f]. *)
Fixpoint fraction (f : nat) (r : Z) : string :=
  match f with
  | O => EmptyString
  | S f' => String (digit_char (r / 10 ^ Z.of_nat f' mod 10)) (fraction f' r)
  end.

(** Exponent notation: the significant digits [s], a point after the
    first one when there are more, and the exponent [n - 1] with its
    sign. *)
Definition exponent (s n : Z) : string :=
  match digits s with
  | String c rest =>
      String c (match rest with EmptyString => EmptyString | _ => String "." rest end)
      +:+ "e" +:+ (if n - 1 <? 0 then "-" else "+") +:+ digits (Z.abs (n - 1))
  | EmptyString => EmptyString
  end.

(** [x.toString()] for a number [x].  The number is written in full from
    a magnitude of 10^-6 to below 10^21 and in exponent notation outside.
    JavaScript prints the shortest decimal that reads back as the same
    double, which is the exact value of [q] when that has at most 15
    significant digits and a magnitude from 10^-307 to below 10^308, or
    is an integer of magnitude at most 2^53; for every other [q] the
    digits depend on the rounding of doubles and the result is [None],
    outside the model.  [n] is the place of the decimal point:
    [10^(n-1) <= |q| < 10^n]. *)
Definition Number_toString (q : Q) : option string :=
  let a := Z.abs (Qnum (Qred q)) in
  let b := Z.pos (Qden (Qred q)) in
  if a =? 0 then Some "0"
  else
    match decimal_fuel (S (Pos.size_nat (Qden (Qred q)))) a b 0 with
    | None => None
    | Some (m, f) =>
        let n := Z.of_nat (String.length (digits m)) - Z.of_nat f in
        if ((String.length (digits (strip_zeros m)) <=? 15)%nat
            && (-306 <=? n) && (n <=? 308))
           || ((b =? 1) && (a <=? 2 ^ 53))
        then
          Some ((if Qnum (Qred q) <? 0 then "-" else "") +:+
                (if (10 ^ 21 * b <=? a) || (a * 10 ^ 6 <? b)
                 then exponent (strip_zeros m) n
                 else
                   match f with
                   | O => digits (a / b)
                   | S _ => digits (a / b) +:+ "." +:+ fraction f (m mod 10 ^ Z.of_nat f)
                   end))
        else None
    end.

(** The integer part of a number: rounding towards zero. *)
Definition truncate (q : Q) : Z :=
  if Qle_bool 0 q then Qfloor q else - Qfloor (- q).

(** What [parseInt] stops at behind the integer part of a printed
    number: the end of the string or the decimal point. *)
Definition stops (rest : string) : Prop :=
  rest = EmptyString \/ exists r, rest = String "." r.


(** The value of a character as a digit: [0-9], [a-z], [A-Z]. *)
Definition digit_val (c : ascii) : option Z :=
  let n := Z.of_nat (nat_of_ascii c) in
  if (48 <=? n) && (n <=? 57) then Some (n - 48)
  else if (97 <=? n) && (n <=? 122) then Some (n - 87)
  else if (65 <=? n) && (n <=? 90) then Some (n - 55)
  else None.

(** White space that [parseInt] skips: tab, LF, VT, FF, CR, space and the
    no-break space. *)
Definition is_space (c : ascii) : bool :=
  let n := nat_of_ascii c in
  ((9 <=? n) && (n <=? 13) || (n =? 32) || (n =? 160))%nat.

Fixpoint skip_space (s : string) : string :=
  match s with
  | String c s' => if is_space c then skip_space s' else s
  | EmptyString => s
  end.

(** The longest prefix of digits below [radix], as a number; [None] when
    there is no digit. *)
Fixpoint scan (radix : Z) (acc : option Z) (s : string) : option Z :=
  match s with
  | String c s' =>
      match digit_val c with
      | Some d =>
          if d <? radix
          then scan radix (Some (match acc with Some v => v * radix + d | None => d end)) s'
          else acc
      | None => acc
      end
  | EmptyString => acc
  end.

(** The sign [parseInt] reads, and the rest of the string. *)
Definition strip_sign (s : string) : Z * string :=
  match s with
  | String "-" r => (-1, r)
  | String "+" r => (1, r)
  | _ => (1, s)
  end.

(** The radix: 16 after a [0x] or [0X] prefix, else 10. *)
Definition strip_radix (s : string) : Z * string :=
  match s with
  | String "0" (String "x" r) | String "0" (String "X" r) => (16, r)
  | _ => (10, s)
  end.

(** [parseInt(s)] without a radix; [None] is NaN. *)
Definition parseInt (s : string) : option Z :=
  let '(sign, s2) := strip_sign (skip_space s) in
  let '(radix, s3) := strip_radix s2 in
  match scan radix None s3 with
  | Some v => Some (sign * v)
  | None => None
  end.

(** A string of decimal digits. *)
Fixpoint all_digits (s : string) : Prop :=
  match s with
  | EmptyString => True
  | String c r => (exists d, 0 <= d < 10 /\ c = digit_char d) /\ all_digits r
  end.

(** Case analysis on a decimal digit [H : 0 <= d < 10]. *)
Ltac each_digit H :=
  let d := match type of H with _ <= ?d < _ => d end in
  assert (d = 0 \/ d = 1 \/ d = 2 \/ d = 3 \/ d = 4 \/ d = 5 \/ d = 6 \/ d = 7
          \/ d = 8 \/ d = 9) as each_digit_cases by lia;
  clear H;
  repeat (destruct each_digit_cases as [each_digit_cases | each_digit_cases];
          [subst | ]); [ .. | subst ].

End NumStr.

(** ** scenes/GameOverScene.ts *)

Module GameOverScene.
Import JSON Storage.

(** The modes of [GameScene]: ['campaign' | 'survival']. *)
Inductive Mode := campaign | survival.

Definition modeName (m : Mode) : string :=
  match m with campaign => "campaign" | survival => "survival" end.

(** The data a scene starts the game-over scene with.  [interface
    GameOverData] declares [score], [wave] and [enemiesKilled] as numbers
    and the mode as one of the two modes of [GameScene]; [scene.start]
    passes any object, and [RunnerGameScene] passes the distance run as
    the score, the mode ['endless'], and neither [wave] nor
    [enemiesKilled] ([None]: the property is [undefined]). *)
Record GameOverData := mkGameOverData {
  score : Q;
  wave : option Q;
  enemiesKilled : option Q;
  mode : string;
  victory : option bool
}.

Definition highScoreKey (mode : string) : string := "highScore_" +:+ mode.
Definition statsKey (mode : string) : string := "stats_" +:+ mode.

(** [parseInt(localStorage.getItem(highScoreKey) || '0')]; [None] is NaN. *)
Definition currentHighScore (st : Storage) (mode : string) : option Z :=
  NumStr.parseInt
    match present (getItem st (highScoreKey mode)) with
    | Some saved => saved
    | None => "0"
    end.

(** [score > currentHighScore]: false against NaN. *)
Definition beats (score : Q) (currentHighScore : option Z) : bool :=
  match currentHighScore with
  | Some high => JS.Qltb (inject_Z high) score
  | None => false
  end.

(** A property of an object literal, which [JSON.stringify] leaves out
    when its value is [undefined]. *)
Definition property (k : string) (v : option Q) : list (string * json) :=
  match v with
  | Some q => [(k, JNum q)]
  | None => []
  end.

(** [saveHighScore], with [date = new Date().toISOString()].  Nothing
    catches the exception of [setItem].  [None]: the score is a number
    whose printed form is outside the model. *)
Definition saveHighScore `{Host} (date : string) (gameData : GameOverData)
    (st : Storage) : option (JS.outcome Storage) :=
  if beats (score gameData) (currentHighScore st (mode gameData)) then
    match NumStr.Number_toString (score gameData) with
    | None => None
    | Some text =>
        match setItem st (highScoreKey (mode gameData)) text with
        | None => Some (JS.Throw st)
        | Some st1 =>
            let stats :=
              JObj ([("score", JNum (score gameData))]
                    ++ property "wave" (wave gameData)
                    ++ property "enemiesKilled" (enemiesKilled gameData)
                    ++ [("date", JStr date)]) in
            match setItem st1 (statsKey (mode gameData)) (JSON_stringify stats) with
            | None => Some (JS.Throw st1)
            | Some st2 => Some (JS.Return st2)
            end
        end
    end
  else Some (JS.Return st).

End GameOverScene.

(** ** scenes/RunnerGameScene (in GameOverScene.ts): the distance run *)

Module RunnerGameScene.

(** The counters of the scene that the distance depends on. *)
Record Scene := mkScene {
  distance : Q;
  autoRunSpeed : Q;
  gameTime : Q
}.

(** The field initialisers and [resetGameState]. *)
Definition init : Scene := mkScene 0 250 0.

(** [a % b] on numbers, for [b > 0]. *)
Definition fmod (a b : Q) : Q := (a - inject_Z (NumStr.truncate (a / b)) * b)%Q.

(** [updateDifficulty]: the speed goes up in the frames that fall in the
    first 100 ms of every 30 seconds. *)
Definition updateDifficulty (s : Scene) : Scene :=
  if JS.Qltb (fmod (gameTime s) 30000) 100
  then mkScene (distance s) (JS.Math_min (autoRunSpeed s + 5) 400) (gameTime s)
  else s.

Definition updateDistance (delta : Q) (s : Scene) : Scene :=
  mkScene (distance s + (autoRunSpeed s / 100) * (delta / 1000))%Q
          (autoRunSpeed s) (gameTime s).

(** [update]: the counters above change in [gameTime += delta],
    [updateDifficulty] and [updateDistance], in this order. *)
Definition update (delta : Q) (s : Scene) : Scene :=
  updateDistance delta
    (updateDifficulty (mkScene (distance s) (autoRunSpeed s) (gameTime s + delta)%Q)).

Definition run (deltas : list Q) : Scene := fold_left (fun s d => update d s) deltas init.

(** [gameOver]: the data the game-over scene is started with. *)
Definition gameOver (s : Scene) : GameOverScene.GameOverData :=
  GameOverScene.mkGameOverData (distance s) None None "endless" None.

End RunnerGameScene.

(** ** A small host

  A JSON printer and parser for the fragment without exponents and
  without escapes other than the quote and the backslash; the examples
  below run the game code on it. *)

Module RefHost.
Import JSON.

Definition quote : ascii := "034".
Definition backslash : ascii := "\".

Fixpoint escape (s : string) : string :=
  match s with
  | EmptyString => EmptyString
  | String c r =>
      if Ascii.eqb c quote || Ascii.eqb c backslash
      then String backslash (String c (escape r))
      else String c (escape r)
  end.

Definition print_string (s : string) : string :=
  String quote (escape s +:+ String quote EmptyString).

(** At most [fuel] decimals of [r / d], where [0 <= r < d]. *)
Fixpoint print_fraction (fuel : nat) (r d : Z) : string :=
  match fuel with
  | O => EmptyString
  | S fuel' =>
      let r10 := r * 10 in
      String (NumStr.digit_char (r10 / d))
             (if r10 mod d =? 0 then EmptyString else print_fraction fuel' (r10 mod d) d)
  end.

Definition print_number (q : Q) : string :=
  let n := Qnum (Qred q) in
  let d := Z.pos (Qden (Qred q)) in
  if d =? 1 then NumStr.toString n
  else
    (if n <? 0 then "-" else "") +:+ NumStr.digits (Z.abs n / d) +:+ "."
    +:+ print_fraction 20 (Z.abs n mod d) d.

Fixpoint print (v : json) : string :=
  match v with
  | JNull => "null"
  | JBool true => "true"
  | JBool false => "false"
  | JNum q => print_number q
  | JStr s => print_string s
  | JArr items =>
      "[" +:+
      (fix elems (l : list json) : string :=
         match l with
         | [] => EmptyString
         | [x] => print x
         | x :: r => print x +:+ "," +:+ elems r
         end) items +:+ "]"
  | JObj fields =>
      "{" +:+
      (fix members (l : list (string * json)) : string :=
         match l with
         | [] => EmptyString
         | [(k, x)] => print_string k +:+ ":" +:+ print x
         | (k, x) :: r => print_string k +:+ ":" +:+ print x +:+ "," +:+ members r
         end) fields +:+ "}"
  end.

(** [expect w s]: [s] without its prefix [w]. *)
Fixpoint expect (w s : string) : option string :=
  match w, s with
  | EmptyString, _ => Some s
  | String a w', String b s' => if Ascii.eqb a b then expect w' s' else None
  | String _ _, EmptyString => None
  end.

(** The characters of a string literal after the opening quote. *)
Fixpoint read_string (s : string) : option (string * string) :=
  match s with
  | EmptyString => None
  | String c r =>
      if Ascii.eqb c quote then Some (EmptyString, r)
      else if Ascii.eqb c backslash then
        match r with
        | String c' r' =>
            match read_string r' with
            | Some (body, rest) => Some (String c' body, rest)
            | None => None
            end
        | EmptyString => None
        end
      else
        match read_string r with
        | Some (body, rest) => Some (String c body, rest)
        | None => None
        end
  end.

(** A run of decimal digits: its value, its length, the rest. *)
Fixpoint read_digits (s : string) (acc : Z) (count : nat) : Z * nat * string :=
  match s with
  | String c r =>
      match NumStr.digit_val c with
      | Some d => if d <? 10 then read_digits r (acc * 10 + d) (S count)
                  else (acc, count, s)
      | None => (acc, count, s)
      end
  | EmptyString => (acc, count, s)
  end.

Definition read_number (s : string) : option (Q * string) :=
  let '(sign, s1) :=
    match s with String "-" r => (-1, r) | _ => (1, s) end in
  let '(whole, n, s2) := read_digits s1 0 O in
  match n with
  | O => None
  | S _ =>
      match s2 with
      | String "." r =>
          let '(part, k, s3) := read_digits r 0 O in
          match k with
          | O => None
          | S _ =>
              let scale := 10 ^ Z.of_nat k in
              Some (Qred (Qmake (sign * (whole * scale + part)) (Z.to_pos scale)), s3)
          end
      | _ => Some (inject_Z (sign * whole), s2)
      end
  end.

Definition skip := NumStr.skip_space.

Fixpoint read_value (fuel : nat) (s : string) : option (json * string) :=
  match fuel with
  | O => None
  | S fuel' =>
      match skip s with
      | String "n" _ =>
          match expect "null" (skip s) with Some r => Some (JNull, r) | None => None end
      | String "t" _ =>
          match expect "true" (skip s) with Some r => Some (JBool true, r) | None => None end
      | String "f" _ =>
          match expect "false" (skip s) with Some r => Some (JBool false, r) | None => None end
      | String "[" r =>
          match skip r with
          | String "]" r' => Some (JArr [], r')
          | _ =>
              match read_elements fuel' r with
              | Some (l, r') => Some (JArr l, r')
              | None => None
              end
          end
      | String "{" r =>
          match skip r with
          | String "}" r' => Some (JObj [], r')
          | _ =>
              match read_members fuel' r [] with
              | Some (l, r') => Some (JObj l, r')
              | None => None
              end
          end
      | String c r =>
          if Ascii.eqb c quote then
            match read_string r with
            | Some (body, r') => Some (JStr body, r')
            | None => None
            end
          else
            match read_number (skip s) with
            | Some (q, r') => Some (JNum q, r')
            | None => None
            end
      | EmptyString => None
      end
  end
with read_elements (fuel : nat) (s : string) : option (list json * string) :=
  match fuel with
  | O => None
  | S fuel' =>
      match read_value fuel' s with
      | Some (v, r) =>
          match skip r with
          | String "," r' =>
              match read_elements fuel' r' with
              | Some (l, r'') => Some (v :: l, r'')
              | None => None
              end
          | String "]" r' => Some ([v], r')
          | _ => None
          end
      | None => None
      end
  end
with read_members (fuel : nat) (s : string) (acc : obj) : option (obj * string) :=
  match fuel with
  | O => None
  | S fuel' =>
      match skip s with
      | String c r =>
          if Ascii.eqb c quote then
            match read_string r with
            | Some (k, r1) =>
                match skip r1 with
                | String ":" r2 =>
                    match read_value fuel' r2 with
                    | Some (v, r3) =>
                        match skip r3 with
                        | String "," r4 => read_members fuel' r4 (obj_set k v acc)
                        | String "}" r4 => Some (obj_set k v acc, r4)
                        | _ => None
                        end
                    | None => None
                    end
                | _ => None
                end
            | None => None
            end
          else None
      | EmptyString => None
      end
  end.

Definition parse (s : string) : option json :=
  match read_value (S (String.length s)) s with
  | Some (v, r) =>
      match skip r with
      | EmptyString => Some v
      | String _ _ => None
      end
  | None => None
  end.

(** The number a string denotes: 0 for white space only, a decimal
    number, else NaN. *)
Definition string_to_number (s : string) : option Q :=
  match skip s with
  | EmptyString => Some 0%Q
  | String _ _ =>
      match read_number (skip s) with
      | Some (q, r) =>
          match skip r with EmptyString => Some q | String _ _ => None end
      | None => None
      end
  end.

(** Arrays and objects coerce through their string form; an object
    gives NaN, an empty array 0. *)
Definition to_number (v : json) : option Q :=
  match v with
  | JStr s => string_to_number s
  | JArr [] => Some 0%Q
  | JArr [JNum q] => Some q
  | JArr [JStr s] => string_to_number s
  | _ => None
  end.

#[export] Instance host : Host := {|
  JSON_parse := parse;
  JSON_stringify := print;
  ToNumber_other := to_number
|}.

End RefHost.

(** ** state/GameState.ts *)

Module GameState.
Import JSON Storage.

(** [interface EnemyPosition] *)
Record EnemyPosition := mkEnemyPosition {
  ep_x : Q;
  ep_y : Q;
  ep_id : string
}.

(** [interface WeaponData] *)
Record WeaponData := mkWeaponData {
  wd_name : string;
  wd_ammo : Q;
  wd_hasInfiniteAmmo : bool
}.

(** *** Objects of type [Record<string, any>]

    A value of type [any], as far as the model follows it: [undefined],
    the number [NaN], or data that JSON carries. *)
Inductive any :=
| undefined
| NaN
| value (v : json).

(** The own properties of an object, in insertion order. *)
Definition record := list (string * any).

Fixpoint own (k : string) (o : record) : option any :=
  match o with
  | [] => None
  | (k', v) :: o' => if String.eqb k k' then Some v else own k o'
  end.

(** The property [k] becomes [v]: in its place when the object has it,
    at the end when not. *)
Fixpoint put (k : string) (v : any) (o : record) : record :=
  match o with
  | [] => [(k, v)]
  | (k', v') :: o' =>
      if String.eqb k k' then (k', v) :: o' else (k', v') :: put k v o'
  end.

(** [v] is a primitive value: not an object, an array or [null]. *)
Definition primitive (v : any) : bool :=
  match v with
  | undefined | NaN | value (JBool _) | value (JNum _) | value (JStr _) => true
  | value JNull | value (JArr _) | value (JObj _) => false
  end.

(** [o[k] = v].  Under the name ['__proto__'] an object without an own
    property of that name makes none: the assignment calls the setter it
    inherits, which ignores a primitive value.  (Given an object or
    [null] the setter replaces the prototype of [o]; the model holds own
    properties only and does not follow that call, see [step].) *)
Definition assign (k : string) (v : any) (o : record) : record :=
  match own k o with
  | Some _ => put k v o
  | None => if String.eqb k "__proto__" then o else put k v o
  end.

(** [delete o[k]] *)
Fixpoint remove (k : string) (o : record) : record :=
  match o with
  | [] => []
  | (k', v') :: o' =>
      if String.eqb k k' then remove k o' else (k', v') :: remove k o'
  end.

(** [o[k]]: the own property, else [undefined]; [None] under a name that
    every object inherits, where the value is a function or an object of
    the host. *)
Definition read (k : string) (o : record) : option any :=
  match own k o with
  | Some v => Some v
  | None =>
      if existsb (String.eqb k) ObjectPrototype.names then None else Some undefined
  end.

(** What [JSON.stringify] writes for an object: a property whose value
    is [undefined] is left out, and [NaN] is written as [null]. *)
Definition to_json (o : record) : obj :=
  flat_map (fun kv => match snd kv with
                      | value v => [(fst kv, v)]
                      | NaN => [(fst kv, JNull)]
                      | undefined => []
                      end) o.

(** An object that [JSON.parse] made. *)
Definition of_json (o : obj) : record := map (fun kv => (fst kv, value (snd kv))) o.

(** *** The heap

    [inventory] and [flags] are objects that the methods change in place
    and that [getData] and [setData] pass by reference, so that two
    properties can hold one object.  A reference is an index into the
    list of the objects made so far. *)
Definition Ref := nat.

Definition deref (h : list record) (r : nat) : record :=
  match h !! r with
  | Some o => o
  | None => []
  end.

(** [interface GameStateData].  [enemies] and [currentWeapon] are only
    ever replaced by the methods, never changed in place, and are held by
    value. *)
Record GameStateData := mkData {
  score : Q;
  level : Q;
  playerHP : Q;
  playerMaxHP : Q;
  inventory : Ref;
  flags : Ref;
  lastMode : string;
  playerX : Q;
  playerY : Q;
  enemies : list EnemyPosition;
  currentWeapon : option WeaponData
}.

(** The state of the program: [this.data], the objects, and
    [localStorage]. *)
Record World := mkWorld {
  data : GameStateData;
  heap : list record;
  storage : Storage
}.

Definition with_data (w : World) (d : GameStateData) : World :=
  mkWorld d (heap w) (storage w).

Definition with_heap (w : World) (h : list record) : World :=
  mkWorld (data w) h (storage w).

Definition inventoryOf (w : World) : record := deref (heap w) (inventory (data w)).
Definition flagsOf (w : World) : record := deref (heap w) (flags (data w)).

(** [Partial<GameStateData>]: every property may be missing. *)
Record Partial := mkPartial {
  p_score : option Q;
  p_level : option Q;
  p_playerHP : option Q;
  p_playerMaxHP : option Q;
  p_inventory : option Ref;
  p_flags : option Ref;
  p_lastMode : option string;
  p_playerX : option Q;
  p_playerY : option Q;
  p_enemies : option (list EnemyPosition);
  p_currentWeapon : option (option WeaponData)
}.

Definition nothing : Partial :=
  mkPartial None None None None None None None None None None None.

(** The value a spread leaves in a property: the overriding one if there
    is one. *)
Definition over {A} (new : option A) (old : A) : A :=
  match new with Some a => a | None => old end.

(** [reset] assigns a new record, with two new empty objects. *)
Definition reset (w : World) : World :=
  mkWorld (mkData 0 1 100 100 (length (heap w)) (S (length (heap w))) "campaign" 0 0 []
                  (Some (mkWeaponData "Pea Shooter" (-1) true)))
          (heap w ++ [[]; []])
          (storage w).

(** The constructor, which calls [reset], in a program whose
    [localStorage] is [st]. *)
Definition initial (st : Storage) : World :=
  mkWorld (mkData 0 1 100 100 0%nat 1%nat "campaign" 0 0 []
                  (Some (mkWeaponData "Pea Shooter" (-1) true)))
          [[]; []]
          st.

(** [getData]: a copy of the record, holding the same objects. *)
Definition getData (w : World) : GameStateData := data w.

(** [this.data = { ...this.data, ...data }] *)
Definition merge (p : Partial) (d : GameStateData) : GameStateData :=
  mkData (over (p_score p) (score d)) (over (p_level p) (level d))
         (over (p_playerHP p) (playerHP d))
         (over (p_playerMaxHP p) (playerMaxHP d))
         (over (p_inventory p) (inventory d)) (over (p_flags p) (flags d))
         (over (p_lastMode p) (lastMode d))
         (over (p_playerX p) (playerX d)) (over (p_playerY p) (playerY d))
         (over (p_enemies p) (enemies d))
         (over (p_currentWeapon p) (currentWeapon d)).

Definition setData (p : Partial) (w : World) : World := with_data w (merge p (data w)).

Definition set_score (s : Q) (d : GameStateData) : GameStateData :=
  mkData s (level d) (playerHP d) (playerMaxHP d) (inventory d) (flags d)
         (lastMode d) (playerX d) (playerY d) (enemies d) (currentWeapon d).

Definition set_playerHP (hp : Q) (d : GameStateData) : GameStateData :=
  mkData (score d) (level d) hp (playerMaxHP d) (inventory d) (flags d)
         (lastMode d) (playerX d) (playerY d) (enemies d) (currentWeapon d).

Definition setScore (s : Q) (w : World) : World := with_data w (set_score s (data w)).

Definition updateScore (points : Q) (w : World) : World :=
  with_data w (set_score (score (data w) + points)%Q (data w)).

Definition setLevel (l : Q) (w : World) : World :=
  let d := data w in
  with_data w
    (mkData (score d) l (playerHP d) (playerMaxHP d) (inventory d) (flags d)
            (lastMode d) (playerX d) (playerY d) (enemies d) (currentWeapon d)).

Definition setPlayerHP (hp : Q) (w : World) : World :=
  with_data w
    (set_playerHP (JS.Math_max 0 (JS.Math_min hp (playerMaxHP (data w)))) (data w)).

Definition setPlayerMaxHP (maxHP : Q) (w : World) : World :=
  let d := data w in
  with_data w
    (mkData (score d) (level d) (JS.Math_min (playerHP d) maxHP) maxHP
            (inventory d) (flags d)
            (lastMode d) (playerX d) (playerY d) (enemies d) (currentWeapon d)).

Definition setLastMode (mode : string) (w : World) : World :=
  let d := data w in
  with_data w
    (mkData (score d) (level d) (playerHP d) (playerMaxHP d) (inventory d) (flags d)
            mode (playerX d) (playerY d) (enemies d) (currentWeapon d)).

Definition setPlayerPosition (px py : Q) (w : World) : World :=
  let d := data w in
  with_data w
    (mkData (score d) (level d) (playerHP d) (playerMaxHP d) (inventory d) (flags d)
            (lastMode d) px py (enemies d) (currentWeapon d)).

Definition setEnemies (es : list EnemyPosition) (w : World) : World :=
  let d := data w in
  with_data w
    (mkData (score d) (level d) (playerHP d) (playerMaxHP d) (inventory d) (flags d)
            (lastMode d) (playerX d) (playerY d) es (currentWeapon d)).

Definition setCurrentWeapon (wp : option WeaponData) (w : World) : World :=
  let d := data w in
  with_data w
    (mkData (score d) (level d) (playerHP d) (playerMaxHP d) (inventory d) (flags d)
            (lastMode d) (playerX d) (playerY d) (enemies d) wp).

(** [this.data.inventory[key] = value]: the object is changed in place. *)
Definition addItem (key : string) (v : any) (w : World) : World :=
  with_heap w (alter (assign key v) (inventory (data w)) (heap w)).

Definition getItem (key : string) (w : World) : option any :=
  read key (inventoryOf w).

Definition removeItem (key : string) (w : World) : World :=
  with_heap w (alter (remove key) (inventory (data w)) (heap w)).

Definition setFlag (key : string) (b : bool) (w : World) : World :=
  with_heap w (alter (assign key (value (JBool b))) (flags (data w)) (heap w)).



(** An object the caller makes, to pass it to [setData]. *)
Definition newObject (o : record) (w : World) : World :=
  with_heap w (heap w ++ [o]).

(** *** Persistence *)

Definition storageKey : string := "vc_game_state_v1".

(** The record as the JSON value [JSON.stringify] is given. *)
Definition enemy_json (e : EnemyPosition) : json :=
  JObj [("x", JNum (ep_x e)); ("y", JNum (ep_y e)); ("id", JStr (ep_id e))].

Definition weapon_json (w : option WeaponData) : json :=
  match w with
  | Some w =>
      JObj [("name", JStr (wd_name w)); ("ammo", JNum (wd_ammo w));
            ("hasInfiniteAmmo", JBool (wd_hasInfiniteAmmo w))]
  | None => JNull
  end.

(** The names of the properties of [GameStateData]. *)
Definition names : list string :=
  [ "score"; "level"; "playerHP"; "playerMaxHP"; "inventory"; "flags"; "lastMode";
    "playerX"; "playerY"; "enemies"; "currentWeapon" ].

Definition data_json (w : World) : json :=
  let d := data w in
  JObj ([ ("score", JNum (score d));
          ("level", JNum (level d));
          ("playerHP", JNum (playerHP d));
          ("playerMaxHP", JNum (playerMaxHP d));
          ("inventory", JObj (to_json (inventoryOf w)));
          ("flags", JObj (to_json (flagsOf w)));
          ("lastMode", JStr (lastMode d));
          ("playerX", JNum (playerX d));
          ("playerY", JNum (playerY d));
          ("enemies", JArr (map enemy_json (enemies d)));
          ("currentWeapon", weapon_json (currentWeapon d)) ]).

(** A parsed value read at the types of [GameStateData]; [None] is a value
    of another type. *)
Definition as_number (v : json) : option Q :=
  match v with JNum q => Some q | _ => None end.

Definition as_string (v : json) : option string :=
  match v with JStr s => Some s | _ => None end.

Definition as_boolean (v : json) : option bool :=
  match v with JBool b => Some b | _ => None end.

Definition as_object (v : json) : option obj :=
  match v with JObj o => Some o | _ => None end.

(** A required property of an object. *)
Definition required {A} (read : json -> option A) (k : string) (o : obj) : option A :=
  match obj_get k o with
  | Some v => read v
  | None => None
  end.

(** The object has no property of another name. *)
Definition only (names : list string) (o : obj) : bool :=
  forallb (fun k => existsb (String.eqb k) names) (obj_keys o).

Definition as_enemy (v : json) : option EnemyPosition :=
  match v with
  | JObj o =>
      match required as_number "x" o, required as_number "y" o,
            required as_string "id" o with
      | Some px, Some py, Some id =>
          if only ["x"; "y"; "id"] o then Some (mkEnemyPosition px py id) else None
      | _, _, _ => None
      end
  | _ => None
  end.

Fixpoint as_list {A} (read : json -> option A) (l : list json) : option (list A) :=
  match l with
  | [] => Some []
  | v :: r =>
      match read v, as_list read r with
      | Some a, Some r' => Some (a :: r')
      | _, _ => None
      end
  end.

Definition as_enemies (v : json) : option (list EnemyPosition) :=
  match v with JArr l => as_list as_enemy l | _ => None end.

Definition as_weapon (v : json) : option (option WeaponData) :=
  match v with
  | JNull => Some None
  | JObj o =>
      match required as_string "name" o, required as_number "ammo" o,
            required as_boolean "hasInfiniteAmmo" o with
      | Some n, Some a, Some i =>
          if only ["name"; "ammo"; "hasInfiniteAmmo"] o
          then Some (Some (mkWeaponData n a i))
          else None
      | _, _, _ => None
      end
  | _ => None
  end.

(** An optional property: missing, or present at the right type. *)
Definition optional {A} (read : json -> option A) (k : string) (o : obj)
  : option (option A) :=
  match obj_get k o with
  | Some v => match read v with Some a => Some (Some a) | None => None end
  | None => Some None
  end.

(** The parsed blob as the properties a spread copies from it.  The
    objects under [inventory] and [flags] are new ones.  [null], a
    number, a boolean, the empty string and the empty array have no
    property to copy. *)
Record Blob := mkBlob {
  b_score : option Q;
  b_level : option Q;
  b_playerHP : option Q;
  b_playerMaxHP : option Q;
  b_inventory : option obj;
  b_flags : option obj;
  b_lastMode : option string;
  b_playerX : option Q;
  b_playerY : option Q;
  b_enemies : option (list EnemyPosition);
  b_currentWeapon : option (option WeaponData)
}.

(** [None]: the blob has a property of the record at another type, or a
    property of another name (also a string and an array that are not
    empty); spreading it would leave [this.data] outside
    [GameStateData]. *)
Definition as_blob (v : json) : option Blob :=
  match v with
  | JObj o =>
      match optional as_number "score" o, optional as_number "level" o,
            optional as_number "playerHP" o, optional as_number "playerMaxHP" o,
            optional as_object "inventory" o, optional as_object "flags" o,
            optional as_string "lastMode" o,
            optional as_number "playerX" o, optional as_number "playerY" o,
            optional as_enemies "enemies" o, optional as_weapon "currentWeapon" o with
      | Some a, Some b, Some c, Some e, Some f, Some g, Some h, Some i, Some j,
        Some k, Some l =>
          if only names o then Some (mkBlob a b c e f g h i j k l) else None
      | _, _, _, _, _, _, _, _, _, _, _ => None
      end
  | JNull | JBool _ | JNum _ | JStr EmptyString | JArr [] =>
      Some (mkBlob None None None None None None None None None None None)
  | JStr _ | JArr _ => None
  end.

(** The objects of a blob go to the heap, and the blob becomes a
    [Partial<GameStateData>]. *)
Definition allocate (o : option obj) (h : list record) : list record * option Ref :=
  match o with
  | Some o => (h ++ [of_json o], Some (length h))
  | None => (h, None)
  end.

Definition load (b : Blob) (w : World) : World :=
  let '(h1, inv) := allocate (b_inventory b) (heap w) in
  let '(h2, fl) := allocate (b_flags b) h1 in
  setData (mkPartial (b_score b) (b_level b) (b_playerHP b) (b_playerMaxHP b)
                     inv fl (b_lastMode b) (b_playerX b) (b_playerY b)
                     (b_enemies b) (b_currentWeapon b))
          (with_heap w h2).

(** [saveToStorage]; the flag is false when the [catch] branch logged the
    failed write. *)
Definition saveToStorage `{Host} (w : World) : World * bool :=
  match setItem (storage w) storageKey (JSON_stringify (data_json w)) with
  | Some st' => (mkWorld (data w) (heap w) st', true)
  | None => (w, false)
  end.

(** The blob [loadFromStorage] would merge: [None] when nothing is
    stored or the stored text does not parse. *)
Definition stored `{Host} (w : World) : option json :=
  match present (Storage.getItem (storage w) storageKey) with
  | Some saved => JSON_parse saved
  | None => None
  end.

(** [loadFromStorage]: the new state and the returned boolean; [None]
    when the stored blob is outside the model, see [as_blob]. *)
Definition loadFromStorage `{Host} (w : World) : option (World * bool) :=
  match stored w with
  | Some parsed =>
      match as_blob parsed with
      | Some b => Some (load b w, true)
      | None => None
      end
  | None => Some (w, false)
  end.

(** An assignment that replaces the prototype of the object. *)
Definition replaces_prototype (k : string) (v : any) (o : record) : bool :=
  String.eqb k "__proto__" && negb (primitive v)
  && match own k o with Some _ => false | None => true end.

(** The object a property is set to exists. *)
Definition exists_in (h : list record) (r : option Ref) : bool :=
  match r with
  | Some r => (r <? length h)%nat
  | None => true
  end.

(** The calls on the shared state, and the caller making an object. *)
Inductive Op :=
| Reset
| SetData (p : Partial)
| UpdateScore (points : Q)
| SetScore (s : Q)
| SetLevel (l : Q)
| SetPlayerHP (hp : Q)
| SetPlayerMaxHP (maxHP : Q)
| SetLastMode (mode : string)
| SetPlayerPosition (px py : Q)
| SetEnemies (es : list EnemyPosition)
| SetCurrentWeapon (wp : option WeaponData)
| AddItem (key : string) (v : any)
| RemoveItem (key : string)
| SetFlag (key : string) (b : bool)
| NewObject (o : record)
| SaveToStorage
| LoadFromStorage.

(** [None]: a call the model does not follow, which is a
    [loadFromStorage] of a blob outside [GameStateData], an [addItem]
    that replaces the prototype of the inventory, or a [setData] with a
    reference to no object (which no program can make). *)
Definition step `{Host} (w : World) (o : Op) : option World :=
  match o with
  | Reset => Some (reset w)
  | SetData p =>
      if exists_in (heap w) (p_inventory p) && exists_in (heap w) (p_flags p)
      then Some (setData p w)
      else None
  | UpdateScore points => Some (updateScore points w)
  | SetScore s => Some (setScore s w)
  | SetLevel l => Some (setLevel l w)
  | SetPlayerHP hp => Some (setPlayerHP hp w)
  | SetPlayerMaxHP maxHP => Some (setPlayerMaxHP maxHP w)
  | SetLastMode mode => Some (setLastMode mode w)
  | SetPlayerPosition px py => Some (setPlayerPosition px py w)
  | SetEnemies es => Some (setEnemies es w)
  | SetCurrentWeapon wp => Some (setCurrentWeapon wp w)
  | AddItem key v =>
      if replaces_prototype key v (inventoryOf w) then None
      else Some (addItem key v w)
  | RemoveItem key => Some (removeItem key w)
  | SetFlag key b => Some (setFlag key b w)
  | NewObject o => Some (newObject o w)
  | SaveToStorage => Some (fst (saveToStorage w))
  | LoadFromStorage =>
      match loadFromStorage w with
      | Some (w', _) => Some w'
      | None => None
      end
  end.

(** The state after a sequence of calls. *)
Fixpoint run `{Host} (ops : list Op) (w : World) : option World :=
  match ops with
  | [] => Some w
  | o :: ops' =>
      match step w o with
      | Some w' => run ops' w'
      | None => None
      end
  end.


(** *** The clamp on the hit points *)

Definition clamped (d : GameStateData) : Prop :=
  (0 <= playerHP d /\ playerHP d <= playerMaxHP d)%Q.

(** Hit points as a spread may supply them and keep the clamp: none of
    the two properties, or both with [0 <= playerHP <= playerMaxHP]. *)
Definition supplies_clamped (hp maxHP : option Q) : Prop :=
  match hp, maxHP with
  | None, None => True
  | Some h, Some m => (0 <= h /\ h <= m)%Q
  | _, _ => False
  end.

(** A call that cannot take the hit points out of their clamp: a
    [setData] or a [loadFromStorage] that supplies the hit points as
    above, a [setPlayerMaxHP] with a non-negative maximum, and every
    other call. *)
Definition respects_clamp `{Host} (w : World) (o : Op) : Prop :=
  match o with
  | SetData p => supplies_clamped (p_playerHP p) (p_playerMaxHP p)
  | SetPlayerMaxHP maxHP => (0 <= maxHP)%Q
  | LoadFromStorage =>
      match stored w with
      | Some parsed =>
          exists b, as_blob parsed = Some b /\
                    supplies_clamped (b_playerHP b) (b_playerMaxHP b)
      | None => True
      end
  | _ => True
  end.

(** Every call of the sequence respects the clamp, in the state it is
    made in. *)
Fixpoint respecting `{Host} (ops : list Op) (w : World) : Prop :=
  match ops with
  | [] => True
  | o :: ops' =>
      respects_clamp w o /\
      match step w o with
      | Some w' => respecting ops' w'
      | None => False
      end
  end.

(** *** The record by value *)

(** The record with the contents of its objects: what [JSON.stringify]
    is given and what a load is to restore. *)
Record Contents := mkContents {
  c_score : Q;
  c_level : Q;
  c_playerHP : Q;
  c_playerMaxHP : Q;
  c_inventory : record;
  c_flags : record;
  c_lastMode : string;
  c_playerX : Q;
  c_playerY : Q;
  c_enemies : list EnemyPosition;
  c_currentWeapon : option WeaponData
}.

Definition contents (w : World) : Contents :=
  let d := data w in
  mkContents (score d) (level d) (playerHP d) (playerMaxHP d)
             (inventoryOf w) (flagsOf w) (lastMode d) (playerX d) (playerY d)
             (enemies d) (currentWeapon d).

(** An object that JSON carries: every property holds data, none is
    [undefined] or [NaN]. *)
Definition carried (o : record) : Prop :=
  Forall (fun kv => exists j, snd kv = value j) o.

(** A state in the middle of a game. *)
Definition sample (st : Storage) : World :=
  mkWorld (mkData 1500 3 (145 # 2) 100 O 1%nat "survival" (1201 # 10) (-40)
                  [mkEnemyPosition 10 20 "enemy_1"; mkEnemyPosition (-5 # 2) 0 "boss"]
                  (Some (mkWeaponData "Corn Cannon" 30 false)))
          [[("seeds", value (JNum 4))]; [("tutorialShown", value (JBool true))]]
          st.

End GameState.

(** ** systems/Settings (in MissionManager.ts) *)

Module Settings.
Import JSON Storage.

Definition STORAGE_KEY : string := "veggie-clash-settings".

(** [getDefaultSettings] *)
Definition getDefaultSettings : obj :=
  [ ("masterVolume", JNum (7 # 10));
    ("sfxVolume", JNum (8 # 10));
    ("musicVolume", JNum (6 # 10));
    ("audioEnabled", JBool true);
    ("particleQuality", JStr "high");
    ("graphicsQuality", JStr "high");
    ("screenShake", JBool true);
    ("enableVignette", JBool true);
    ("enableAmbientFog", JBool true);
    ("enableBloom", JBool true);
    ("enableCRTOvrelay", JBool false);
    ("enableOutlines", JBool true);
    ("enableShadows", JBool true);
    ("highContrast", JBool false);
    ("colorBlindMode", JBool false);
    ("reduceMotion", JBool false);
    ("showSubtitles", JBool true);
    ("keyBindings",
      JObj [ ("moveUp", JStr "W");
             ("moveDown", JStr "S");
             ("moveLeft", JStr "A");
             ("moveRight", JStr "D");
             ("shoot", JStr "MOUSE_LEFT");
             ("altFire", JStr "MOUSE_RIGHT");
             ("dash", JStr "SPACE");
             ("reload", JStr "R");
             ("weaponPrev", JStr "Q");
             ("weaponNext", JStr "E");
             ("pause", JStr "ESC") ]);
    ("mouseSensitivity", JNum 1);
    ("joystickDeadzone", JNum (1 # 10));
    ("autoAim", JBool true) ].

(** The indexed properties ["0"], ["1"], ... of an array or a string. *)
Fixpoint indexed (i : nat) (l : list json) : obj :=
  match l with
  | [] => []
  | v :: r => (NumStr.toString (Z.of_nat i), v) :: indexed (S i) r
  end.

Fixpoint characters (s : string) : list json :=
  match s with
  | EmptyString => []
  | String c r => JStr (String c EmptyString) :: characters r
  end.

(** The own enumerable properties a spread copies out of a parsed value;
    [null], a number and a boolean have none. *)
Definition ownProperties (v : json) : obj :=
  match v with
  | JObj o => o
  | JArr l => indexed 0 l
  | JStr s => indexed 0 (characters s)
  | JNull | JBool _ | JNum _ => []
  end.

(** [loadSettings]; [applyAccessibilitySettings] after it only toggles
    classes of [document.body]. *)
Definition loadSettings `{Host} (settings : obj) (st : Storage) : obj :=
  match present (getItem st STORAGE_KEY) with
  | Some saved =>
      match JSON_parse saved with
      | Some parsedSettings => spread getDefaultSettings (ownProperties parsedSettings)
      | None => getDefaultSettings
      end
  | None => settings
  end.

(** The private constructor. *)
Definition new `{Host} (st : Storage) : obj := loadSettings getDefaultSettings st.

(** The value the parsed blob stores under a name (the last one, should
    the name repeat); [None] when the blob has no such field. *)
Definition storedField (k : string) (parsedSettings : json) : option json :=
  obj_get k (rev (ownProperties parsedSettings)).

(** [saveSettings]: a failed write is logged and dropped. *)
Definition saveSettings `{Host} (settings : obj) (st : Storage) : Storage :=
  match setItem st STORAGE_KEY (JSON_stringify (JObj settings)) with
  | Some st' => st'
  | None => st
  end.

(** [applyGraphicsQuality]; [isMobile] is the test of the user agent. *)
Definition applyGraphicsQuality `{Host} (isMobile : bool) (quality : json)
    (settings : obj) (st : Storage) : obj * Storage :=
  let toggles (vignette fog bloom crt outlines shadows : bool) (particles : string) :=
    obj_set "particleQuality" (JStr particles)
      (obj_set "enableShadows" (JBool shadows)
        (obj_set "enableOutlines" (JBool outlines)
          (obj_set "enableCRTOvrelay" (JBool crt)
            (obj_set "enableBloom" (JBool bloom)
              (obj_set "enableAmbientFog" (JBool fog)
                (obj_set "enableVignette" (JBool vignette) settings)))))) in
  let settings' :=
    match quality with
    | JStr "low" => toggles false false false false false false "low"
    | JStr "medium" => toggles true true false false true true "medium"
    | JStr "high" => toggles true true true (negb isMobile) true true "high"
    | _ => settings
    end in
  (settings', saveSettings settings' st).

(** [set(key, value)] *)
Definition set `{Host} (isMobile : bool) (key : string) (value : json)
    (settings : obj) (st : Storage) : obj * Storage :=
  let settings := obj_set key value settings in
  let st := saveSettings settings st in
  if String.eqb key "graphicsQuality"
  then applyGraphicsQuality isMobile value settings st
  else (settings, st).

(** [bindings[act] === newKey] *)
Definition is_key (newKey : string) (v : option json) : bool :=
  match v with
  | Some (JStr s) => String.eqb s newKey
  | _ => false
  end.

(** [rebindKey]: the new settings, the storage and the returned boolean.
    The model covers [keyBindings] being an object, as its type says;
    [Object.keys] of a missing [keyBindings] throws. *)
Definition rebindKey `{Host} (action newKey : string) (settings : obj) (st : Storage)
  : JS.outcome (obj * Storage * bool) :=
  match obj_get "keyBindings" settings with
  | Some (JObj keyBindings) =>
      let existingAction :=
        List.find (fun act => is_key newKey (obj_get act keyBindings))
                  (obj_keys keyBindings) in
      let taken :=
        match existingAction with
        | Some existing => negb (String.eqb existing "") && negb (String.eqb existing action)
        | None => false
        end in
      if taken then JS.Return (settings, st, false)
      else
        let settings' :=
          obj_set "keyBindings" (JObj (obj_assign action (JStr newKey) keyBindings))
                  settings in
        JS.Return (settings', saveSettings settings' st, true)
  | _ => JS.Throw (settings, st, false)
  end.

(** The object under [keyBindings]. *)
Definition keyBindings (settings : obj) : obj :=
  match obj_get "keyBindings" settings with
  | Some (JObj bindings) => bindings
  | _ => []
  end.

(** [newKey] is bound to an action other than [action]. *)
Definition bound_elsewhere (action newKey : string) (bindings : obj) : Prop :=
  exists other, other <> action /\ obj_get other bindings = Some (JStr newKey).

End Settings.

(** ** systems/MissionManager.ts *)

Module MissionManager.
Import JSON Storage.

(** The two fields [loadProgress] assigns.  [lastReset] holds whatever the
    stored progress had under that name: [None] is [undefined]. *)
Record Manager := mkManager {
  missions : list json;
  lastReset : option json
}.

(** The field initialisers. *)
Definition init : Manager := mkManager [] (Some (JNum 0)).

Definition STORAGE_KEY : string := "veggieClash_missions".

(** [7 * 24 * 60 * 60 * 1000] *)
Definition WEEK : Q := 7 * 24 * 60 * 60 * 1000.

(** [v.k]: reading a property of [null] throws ([None]); a value other
    than an object has no property of the names read here. *)
Definition property (k : string) (v : json) : option (option json) :=
  match v with
  | JNull => None
  | JObj o => Some (obj_get k o)
  | _ => Some None
  end.

(** [Date.now() - this.lastReset < 7 * 24 * 60 * 60 * 1000] *)
Definition recent `{Host} (now : Q) (lastReset : option json) : bool :=
  match ToNumber lastReset with
  | Some t => JS.Qltb (now - t) WEEK
  | None => false
  end.

(** The callback of [filter]; [None] is the TypeError of a [null]
    mission. *)
Definition keeps `{Host} (now : Q) (lastReset : option json) (mission : json)
  : option bool :=
  match property "isClaimed" mission with
  | Some isClaimed =>
      Some (negb (match isClaimed with Some c => truthy c | None => false end)
            || recent now lastReset)
  | None => None
  end.

Fixpoint filter `{Host} (now : Q) (lastReset : option json) (l : list json)
  : option (list json) :=
  match l with
  | [] => Some []
  | mission :: r =>
      match keeps now lastReset mission, filter now lastReset r with
      | Some true, Some r' => Some (mission :: r')
      | Some false, Some r' => Some r'
      | _, _ => None
      end
  end.

(** What the [catch] branch leaves. *)
Definition fallback : Manager := mkManager [] (Some (JNum 0)).

(** [loadProgress] at time [now = Date.now()]. *)
Definition loadProgress `{Host} (now : Q) (m : Manager) (st : Storage) : Manager :=
  match present (getItem st STORAGE_KEY) with
  | Some saved =>
      match JSON_parse saved with
      | Some progress =>
          match property "missions" progress, property "lastReset" progress with
          | Some (Some (JArr stored)), Some reset =>
              match filter now reset stored with
              | Some kept => mkManager kept reset
              | None => fallback
              end
          | _, _ => fallback
          end
      | None => fallback
      end
  | None => mkManager (missions m) (Some (JNum 0))
  end.

End MissionManager.

(** ** entities/Player.ts: health, timers and dash *)

Module Vitals.

(** [GAME_SETTINGS.PLAYER_REGEN_RATE], [PLAYER_REGEN_DELAY],
    [PLAYER_DASH_DURATION] and [PLAYER_DASH_COOLDOWN] of config.ts. *)
Definition PLAYER_REGEN_RATE : Q := 1.
Definition PLAYER_REGEN_DELAY : Q := 5000.
Definition PLAYER_DASH_DURATION : Q := 150.
Definition PLAYER_DASH_COOLDOWN : Q := 1000.

(** The fields of [class Player] beside those of [Player.Player]. *)
Record Vitals := mkVitals {
  player : Player.Player;
  isDashing : bool;
  dashCooldown : Q;
  invulnerabilityTime : Q;
  regenTimer : Q;
  lastCombatTime : Q
}.

(** The field initialisers and the constructor. *)
Definition new : Vitals := mkVitals Player.new false 0 0 0 0.

Definition health (v : Vitals) : Q := Player.health (player v).
Definition maxHealth (v : Vitals) : Q := Player.maxHealth (player v).

Definition set_health (p : Player.Player) (h : Q) : Player.Player :=
  Player.mkPlayer h (Player.maxHealth p) (Player.currentWeapon p) (Player.currentAmmo p)
                  (Player.maxAmmo p) (Player.moveSpeed p) (Player.lastShotTime p)
                  (Player.activePowerUps p) (Player.baseMoveSpeed p)
                  (Player.baseDamageMultiplier p) (Player.baseFireRateMultiplier p).

Definition isInvulnerable (v : Vitals) : bool :=
  JS.Qltb 0 (invulnerabilityTime v).

(** [updateTimers]: each timer above 0 loses [delta]. *)
Definition updateTimers (delta : Q) (v : Vitals) : Vitals :=
  mkVitals (player v) (isDashing v)
           (if JS.Qltb 0 (dashCooldown v) then dashCooldown v - delta else dashCooldown v)%Q
           (if JS.Qltb 0 (invulnerabilityTime v)
            then invulnerabilityTime v - delta else invulnerabilityTime v)%Q
           (if JS.Qltb 0 (regenTimer v) then regenTimer v - delta else regenTimer v)%Q
           (lastCombatTime v).

(** [handleRegeneration] at time [now = Date.now()]; the second component
    is the health of the ['playerHealthChanged'] event it emits. *)
Definition handleRegeneration (now delta : Q) (v : Vitals) : Vitals * option Q :=
  if JS.Qltb PLAYER_REGEN_DELAY (now - lastCombatTime v)
     && JS.Qltb (health v) (maxHealth v)
  then
    let regenTimer' := (regenTimer v + delta)%Q in
    if Qle_bool 1000 regenTimer'
    then
      let h := JS.Math_min (maxHealth v) (health v + PLAYER_REGEN_RATE) in
      (mkVitals (set_health (player v) h) (isDashing v) (dashCooldown v)
                (invulnerabilityTime v) 0 (lastCombatTime v), Some h)
    else
      (mkVitals (player v) (isDashing v) (dashCooldown v)
                (invulnerabilityTime v) regenTimer' (lastCombatTime v), None)
  else (v, None).

(** [update]: [handleMovement] and [updateAnimation] only drive the
    physics body and the sprite. *)
Definition update (now delta : Q) (v : Vitals) : Vitals * option Q :=
  let v := updateTimers delta v in
  let '(v, regenerated) := handleRegeneration now delta v in
  (mkVitals (fst (Player.updatePowerUps delta (player v))) (isDashing v)
            (dashCooldown v) (invulnerabilityTime v) (regenTimer v)
            (lastCombatTime v),
   regenerated).

(** [takeDamage] at time [now = Date.now()]. *)
Definition takeDamage (now amount : Q) (v : Vitals) : Vitals :=
  if isInvulnerable v then v
  else
    mkVitals (set_health (player v) (JS.Math_max 0 (health v - amount)))
             (isDashing v) (dashCooldown v) 500 0 now.

(** [applyHeal]; the second component is the health of the event emitted
    when the health went up. *)
Definition applyHeal (amount : Q) (v : Vitals) : Vitals * option Q :=
  let oldHealth := health v in
  let h := JS.Math_min (maxHealth v) (health v + amount) in
  (mkVitals (set_health (player v) h) (isDashing v) (dashCooldown v)
            (invulnerabilityTime v) (regenTimer v) (lastCombatTime v),
   if JS.Qltb oldHealth h then Some h else None).

(** [dash]: the flag says whether the dash started; the tween that moves
    the sprite belongs to the engine. *)
Definition dash (v : Vitals) : Vitals * bool :=
  if isDashing v || JS.Qltb 0 (dashCooldown v) then (v, false)
  else
    (mkVitals (player v) true (dashCooldown v) PLAYER_DASH_DURATION
              (regenTimer v) (lastCombatTime v), true).

(** The [onComplete] callback of the dash tween. *)
Definition dashComplete (v : Vitals) : Vitals :=
  mkVitals (player v) false PLAYER_DASH_COOLDOWN (invulnerabilityTime v)
           (regenTimer v) (lastCombatTime v).

(** [handlePlayerEnemyCollision] of GameScene.ts: contact damage of 10. *)
Definition handlePlayerEnemyCollision (now : Q) (v : Vitals) : Vitals :=
  if negb (isInvulnerable v) then takeDamage now 10 v else v.

(** What happens to the player between two moments of a game. *)
Inductive Op :=
| Update (now delta : Q)
| TakeDamage (now amount : Q)
| ApplyHeal (amount : Q)
| Dash
| DashComplete
| Collide (now : Q)
| Call (o : Player.Op).

Definition step (v : Vitals) (o : Op) : Vitals :=
  match o with
  | Update now delta => fst (update now delta v)
  | TakeDamage now amount => takeDamage now amount v
  | ApplyHeal amount => fst (applyHeal amount v)
  | Dash => fst (dash v)
  | DashComplete => dashComplete v
  | Collide now => handlePlayerEnemyCollision now v
  | Call o =>
      mkVitals (Player.step (player v) o) (isDashing v) (dashCooldown v)
               (invulnerabilityTime v) (regenTimer v) (lastCombatTime v)
  end.

Definition run (ops : list Op) (v : Vitals) : Vitals := fold_left step ops v.

(** Damage and healing by amounts that are not negative. *)
Definition sane (o : Op) : Prop :=
  match o with
  | TakeDamage _ amount => (0 <= amount)%Q
  | ApplyHeal amount => (0 <= amount)%Q
  | _ => True
  end.

(** A frame shorter than a second. *)
Definition short_frame (o : Op) : Prop :=
  match o with
  | Update _ delta => (0 <= delta < 1000)%Q
  | _ => True
  end.

(** Hits and frames only, the frames not running backwards; and the time
    the frames take. *)
Definition hit_or_frame (o : Op) : Prop :=
  match o with
  | Update _ delta => (0 <= delta)%Q
  | TakeDamage _ _ | Collide _ => True
  | _ => False
  end.

Definition elapsed (ops : list Op) : Q :=
  fold_right (fun o t => match o with Update _ delta => delta + t | _ => t end)%Q 0%Q ops.

(** The health within its bounds, and the maximum where the constructor
    put it. *)
Definition healthy (v : Vitals) : Prop :=
  (0 <= health v /\ health v <= maxHealth v)%Q /\ maxHealth v = Player.PLAYER_MAX_HEALTH.

End Vitals.

(** ** entities/Player.ts: runs of the stat calls *)

Module PlayerRuns.
Import Player.

(** What one pass of the loop of [updatePowerUps] does to an entry, and the
    test it removes the entry on. *)
Definition tick (delta : Q) (ke : PowerUpType * PowerUpEffect) : PowerUpType * PowerUpEffect :=
  (fst ke, mkEffect (multiplier (snd ke)) (duration (snd ke)) (remainingTime (snd ke) - delta)%Q).

Definition expired (ke : PowerUpType * PowerUpEffect) : bool :=
  Qle_bool (remainingTime (snd ke)) 0.

Definition survivors (delta : Q) (m : PowerUpMap) : PowerUpMap :=
  List.filter (fun ke => negb (expired ke)) (List.map (tick delta) m).

(** The second of the three locals of [recalculateStats]. *)
Definition speedMultiplier (p : Player) : Q := snd (fst (cappedMultipliers p)).

(** Calls of [switchWeapon] whose direction keeps the sum under [%] from
    being negative: the callers pass 1 and -1. *)
Definition in_range (o : Op) : Prop :=
  match o with
  | SwitchWeapon direction => -3 <= direction
  | _ => True
  end.

(** Frames and weapon calls: no power-up is collected. *)
Definition frame (o : Op) : Prop :=
  match o with
  | ApplyPowerUp _ _ _ => False
  | UpdatePowerUps delta => (0 <= delta)%Q
  | _ => True
  end.

(** The time the frames of a run add up to. *)
Fixpoint elapsed (ops : list Op) : Q :=
  match ops with
  | [] => 0
  | UpdatePowerUps delta :: ops' => delta + elapsed ops'
  | _ :: ops' => elapsed ops'
  end.

(** The weapon in hand is one of the table, with its clip. *)
Definition loaded (p : Player) : Prop :=
  exists weapon,
    weaponAt (currentWeapon p) = Some weapon /\
    maxAmmo p = ammo weapon /\
    (ammo weapon = -1 -> currentAmmo p = -1) /\
    (ammo weapon <> -1 -> 0 <= currentAmmo p <= ammo weapon).

(** The speed agrees with the active power-ups. *)
Definition in_step (p : Player) : Prop :=
  moveSpeed p = (baseMoveSpeed p * speedMultiplier p)%Q /\ baseMoveSpeed p = PLAYER_SPEED.

End PlayerRuns.

(** ** entities/Enemy.ts: runs of an enemy *)

Module EnemyRuns.
Import Enemy.

(** Whether the call launches an attack ([attemptAttack] getting past its
    cooldown test). *)
Definition attacked (o : Op) (e : Enemy) : bool :=
  match o with
  | Update delta sc => snd (updateState delta sc e)
  | _ => false
  end.

(** The attacks launched in the course of a run. *)
Fixpoint attacks (ops : list Op) (e : Enemy) : nat :=
  match ops with
  | [] => 0
  | o :: ops' => ((if attacked o e then 1 else 0) + attacks ops' (step e o))%nat
  end.

(** The attack cooldown of [setupStats]. *)
Definition cooldownOf (t : EnemyType) : Q := snd (fst (setupStats t)).

(** Damage that is not negative. *)
Definition sane (o : Op) : Prop :=
  match o with
  | TakeDamage amount => (0 <= amount)%Q
  | _ => True
  end.

(** Frames that do not run backwards, and moves: no hit. *)
Definition calm (o : Op) : Prop :=
  match o with
  | Update delta _ => (0 <= delta)%Q
  | TakeDamage _ => False
  | Moved _ _ => True
  end.

Fixpoint elapsed (ops : list Op) : Q :=
  match ops with
  | [] => 0
  | Update delta _ :: ops' => delta + elapsed ops'
  | _ :: ops' => elapsed ops'
  end.

(** The health within its bounds, and the maximum that of the type. *)
Definition healthy (t : EnemyType) (e : Enemy) : Prop :=
  (0 <= health e /\ health e <= maxHealth e)%Q /\
  maxHealth e = fst (fst (fst (fst (setupStats t)))).

End EnemyRuns.

(** ** entities/EnemyHealthBar.ts *)

Module EnemyHealthBar.

(** What [updateHealthDisplay] sets on the fill sprite and the container. *)
Record Display := mkDisplay {
  fillWidth : Q;
  tint : Z;
  visible : bool
}.

Definition healthBarWidth : Q := 40.

Definition LimeGreen : Z := 0x32CD32.
Definition Gold : Z := 0xFFD700.
Definition Crimson : Z := 0xDC143C.

(** [updateHealthDisplay] on the bar of enemy [e]; [tracked] stands for
    [this.enemy && this.enemy.active], without which the method returns at
    once. *)
Definition updateHealthDisplay (tracked : bool) (e : Enemy.Enemy) (d : Display) : Display :=
  if negb tracked then d
  else
    let healthPercent := (Enemy.health e / Enemy.maxHealth e)%Q in
    let fillWidth := JS.Math_max 0 (healthPercent * healthBarWidth) in
    mkDisplay fillWidth
              (if JS.Qltb (6 # 10) healthPercent then LimeGreen
               else if JS.Qltb (3 # 10) healthPercent then Gold
               else Crimson)
              (negb (Qle_bool (Enemy.health e) 0)).

End EnemyHealthBar.

(** ** systems/MissionManager.ts, class Settings: the other methods *)

Module SettingsRuns.
Import JSON Storage Settings.

(** [get(key)] *)
Definition get (key : string) (settings : obj) : option json := obj_get key settings.

(** [reset] *)
Definition reset `{Host} (settings : obj) (st : Storage) : obj * Storage :=
  (getDefaultSettings, saveSettings getDefaultSettings st).

(** The loop of [importSettings] over [Object.keys(defaults)]: the
    properties of the imported value under the names of the defaults.
    [importedSettings[key]] reads the last property of that name; no name
    of the defaults is a property that objects or arrays inherit. *)
Definition validSettings (importedSettings : json) : obj :=
  flat_map (fun key =>
              match storedField key importedSettings with
              | Some v => [(key, v)]
              | None => []
              end)
           (obj_keys getDefaultSettings).

(** [importSettings]: [key in importedSettings] throws a TypeError on
    [null], a number, a string and a boolean, and like the SyntaxError of
    [JSON.parse] it lands in the [catch] that returns false. *)
Definition importSettings `{Host} (settingsJson : string) (settings : obj) (st : Storage)
  : obj * Storage * bool :=
  match JSON_parse settingsJson with
  | Some (JObj _ as importedSettings) | Some (JArr _ as importedSettings) =>
      let settings' := spread getDefaultSettings (validSettings importedSettings) in
      (settings', saveSettings settings' st, true)
  | Some _ | None => (settings, st, false)
  end.

(** The calls that change the settings or the storage. *)
Inductive Op :=
| SetKey (key : string) (value : json)
| Reset
| RebindKey (action newKey : string)
| ImportSettings (settingsJson : string)
| LoadSettings.

Definition step `{Host} (isMobile : bool) (s : obj * Storage) (o : Op) : obj * Storage :=
  match o with
  | SetKey key value => set isMobile key value (fst s) (snd s)
  | Reset => reset (fst s) (snd s)
  | RebindKey action newKey => fst (JS.state_of (rebindKey action newKey (fst s) (snd s)))
  | ImportSettings settingsJson => fst (importSettings settingsJson (fst s) (snd s))
  | LoadSettings => (loadSettings (fst s) (snd s), snd s)
  end.

(** Calls as the types of the methods allow them: [set] takes a
    [keyof GameSettings]; the action of [rebindKey] is a name that objects
    do not inherit. *)
Definition typed (o : Op) : Prop :=
  match o with
  | SetKey key _ => In key (obj_keys getDefaultSettings)
  | RebindKey action _ => ObjectPrototype.own_name action
  | _ => True
  end.

(** The settings and the storage after a run of calls on the [Settings]
    constructed over the storage [st]. *)
Definition run `{Host} (isMobile : bool) (ops : list Op) (st : Storage) : obj * Storage :=
  fold_left (step isMobile) ops (new st, st).

(** The names of the defaults first, other names after them, none twice. *)
Definition shaped (settings : obj) : Prop :=
  (exists extras, obj_keys settings = obj_keys getDefaultSettings ++ extras) /\
  List.NoDup (obj_keys settings).

End SettingsRuns.

(** ** systems/MissionManager.ts: the missions in memory *)

Module Missions.

Inductive MissionType := daily | weekly | campaign.

Inductive Category :=
| gold | distance | enemies | powerups | collectibles | survival_timer | elimination.

Inductive RewardType := coins | gems | skin | weapon.

Definition Category_eqb (a b : Category) : bool :=
  match a, b with
  | gold, gold | distance, distance | enemies, enemies | powerups, powerups
  | collectibles, collectibles | survival_timer, survival_timer
  | elimination, elimination => true
  | _, _ => false
  end.

(** [interface Mission], with the fields the manager reads or writes; of
    the campaign fields, [unlock] is [rewards?.unlock] ([None]: no
    [rewards], or no [unlock], or [null]). *)
Record Mission := mkMission {
  id : string;
  title : string;
  description : string;
  type : MissionType;
  category : Category;
  target : Q;
  current : Q;
  rewardType : RewardType;
  rewardAmount : Q;
  isCompleted : bool;
  isClaimed : bool;
  unlock : option string
}.

Definition set_progress (m : Mission) (c : Q) (done : bool) : Mission :=
  mkMission (id m) (title m) (description m) (type m) (category m) (target m) c
            (rewardType m) (rewardAmount m) done (isClaimed m) (unlock m).

Definition set_flags (m : Mission) (done claimed : bool) : Mission :=
  mkMission (id m) (title m) (description m) (type m) (category m) (target m) (current m)
            (rewardType m) (rewardAmount m) done claimed (unlock m).

(** The events the manager emits on [scene.events]; an event that carries
    a mission carries it as it is at that moment. *)
Inductive Event :=
| mission_completed (m : Mission)
| add_coins (amount : Q)
| add_gems (amount : Q)
| unlock_skin (amount : Q)
| unlock_weapon (amount : Q)
| mission_reward_claimed (m : Mission)
| campaign_mission_completed (m : Mission).

(** The callback of the [forEach] of [updateProgress]. *)
Definition progress (c : Category) (amount : Q) (mission : Mission)
  : Mission * list Event :=
  if Category_eqb (category mission) c && negb (isCompleted mission) then
    let mission := set_progress mission (current mission + amount)%Q (isCompleted mission) in
    if Qle_bool (target mission) (current mission) && negb (isCompleted mission) then
      let mission := set_progress mission (current mission) true in
      (mission, [mission_completed mission])
    else (mission, [])
  else (mission, []).

(** [updateProgress]; [saveProgress] after the loop writes the storage,
    which these calls do not read. *)
Fixpoint updateProgress (c : Category) (amount : Q) (missions : list Mission)
  : list Mission * list Event :=
  match missions with
  | [] => ([], [])
  | mission :: rest =>
      let '(mission', ev) := progress c amount mission in
      let '(rest', evs) := updateProgress c amount rest in
      (mission' :: rest', ev ++ evs)
  end.

Definition getAllMissions (missions : list Mission) : list Mission :=
  List.filter (fun mission => negb (isClaimed mission)) missions.

Definition getDailyMissions (missions : list Mission) : list Mission :=
  List.filter (fun mission =>
                 match type mission with daily => negb (isClaimed mission) | _ => false end)
              missions.

Definition getWeeklyMissions (missions : list Mission) : list Mission :=
  List.filter (fun mission =>
                 match type mission with weekly => negb (isClaimed mission) | _ => false end)
              missions.

Definition getCompletedMissions (missions : list Mission) : list Mission :=
  List.filter (fun mission => isCompleted mission && negb (isClaimed mission)) missions.

Definition giveReward (t : RewardType) (amount : Q) : list Event :=
  match t with
  | coins => [add_coins amount]
  | gems => [add_gems amount]
  | skin => [unlock_skin amount]
  | weapon => [unlock_weapon amount]
  end.

(** The mission that [find] returned is changed where it is in the
    array: the first one the test accepts. *)
Fixpoint change_first (test : Mission -> bool) (f : Mission -> Mission)
    (missions : list Mission) : list Mission :=
  match missions with
  | [] => []
  | m :: rest => if test m then f m :: rest else m :: change_first test f rest
  end.

(** [claimReward] *)
Definition claimReward (missionId : string) (missions : list Mission)
  : list Mission * list Event * bool :=
  match List.find (fun m => String.eqb (id m) missionId) missions with
  | None => (missions, [], false)
  | Some mission =>
      if negb (isCompleted mission) || isClaimed mission then (missions, [], false)
      else
        let claimed := set_flags mission (isCompleted mission) true in
        (change_first (fun m => String.eqb (id m) missionId)
                      (fun m => set_flags m (isCompleted m) true) missions,
         giveReward (rewardType mission) (rewardAmount mission)
           ++ [mission_reward_claimed claimed],
         true)
  end.

(** [getStatistics] *)
Record Statistics := mkStatistics {
  totalMissions : nat;
  completedMissions : nat;
  claimedRewards : nat;
  totalCoinsEarned : Q;
  totalGemsEarned : Q
}.

Definition earned (t : RewardType) (missions : list Mission) : Q :=
  fold_left (fun sum m => (sum + rewardAmount m)%Q)
            (List.filter (fun m => isClaimed m &&
                                   match rewardType m, t with
                                   | coins, coins | gems, gems => true
                                   | _, _ => false
                                   end) missions)
            0%Q.

Definition getStatistics (missions : list Mission) : Statistics :=
  mkStatistics (List.length missions)
               (List.length (List.filter isCompleted missions))
               (List.length (List.filter isClaimed missions))
               (earned coins missions)
               (earned gems missions).

(** The calls of a game on the daily and weekly missions. *)
Inductive Op :=
| UpdateProgress (c : Category) (amount : Q)
| ClaimReward (missionId : string).

Definition step (s : list Mission * list Event) (o : Op) : list Mission * list Event :=
  match o with
  | UpdateProgress c amount =>
      let '(missions, evs) := updateProgress c amount (fst s) in (missions, snd s ++ evs)
  | ClaimReward missionId =>
      let '(missions, evs, _) := claimReward missionId (fst s) in (missions, snd s ++ evs)
  end.

(** The missions after a run of calls, and the events emitted on the way. *)
Definition run (ops : list Op) (missions : list Mission) : list Mission * list Event :=
  fold_left step ops (missions, []).

(** What a call may change of a mission: nothing of what it is; progress
    only until it is completed; and no flag ever goes back. *)
Definition evolves (m m' : Mission) : Prop :=
  id m' = id m /\ type m' = type m /\ category m' = category m /\
  target m' = target m /\ rewardType m' = rewardType m /\
  rewardAmount m' = rewardAmount m /\
  (isCompleted m = true -> isCompleted m' = true /\ current m' = current m) /\
  (isClaimed m = true -> isClaimed m' = true).

(** The events of a kind in a trace. *)
Definition completions (evs : list Event) : nat :=
  List.length (List.filter (fun e => match e with mission_completed _ => true | _ => false end) evs).

Definition claims (evs : list Event) : nat :=
  List.length (List.filter (fun e => match e with mission_reward_claimed _ => true | _ => false end) evs).

(** The coins and the gems paid out by a trace. *)
Definition paid (t : RewardType) (evs : list Event) : Q :=
  fold_left (fun sum e =>
               match e, t with
               | add_coins amount, coins | add_gems amount, gems => (sum + amount)%Q
               | _, _ => sum
               end) evs 0%Q.

(** No reward claimed before the mission is completed. *)
Definition honest (m : Mission) : Prop := isClaimed m = true -> isCompleted m = true.

(** What the statistics count. *)
Definition completed (ms : list Mission) : nat := List.length (List.filter isCompleted ms).
Definition claimed (ms : list Mission) : nat := List.length (List.filter isClaimed ms).

(** The test of the two sums of [getStatistics]. *)
Definition counts (t : RewardType) (m : Mission) : bool :=
  isClaimed m && match rewardType m, t with
                 | coins, coins | gems, gems => true
                 | _, _ => false
                 end.

(** Calls seen from outside: what they did to the missions [ms] agrees
    with the events [evs] they emitted. *)
Record sound (ms ms' : list Mission) (evs : list Event) : Prop := mkSound {
  sound_evolves : Forall2 evolves ms ms';
  sound_completions : (completions evs + completed ms = completed ms')%nat;
  sound_claims : (claims evs + claimed ms = claimed ms')%nat;
  sound_earned : forall t, (earned t ms' == earned t ms + paid t evs)%Q;
  sound_honest : Forall honest ms -> Forall honest ms'
}.

End Missions.
(** ** systems/MissionManager.ts: generating the missions *)

Module MissionGen.
Import Missions.

(** An entry of [dailyMissionTemplates] or [weeklyMissionTemplates]. *)
Record Template := mkTemplate {
  t_title : string;
  t_description : string;
  t_category : Category;
  t_target : Z;
  t_rewardType : RewardType;
  t_rewardAmount : Z
}.

Definition dailyMissionTemplates : list Template :=
  [ mkTemplate "Coin Collector" "Collect {target} coins in one run" gold 100 coins 25;
    mkTemplate "Biohazard Expert" "Defeat {target} enemies today" enemies 50 coins 30;
    mkTemplate "Distance Runner" "Run {target} meters in one session" distance 2000 gems 5;
    mkTemplate "Power Collector" "Collect {target} power-ups today" powerups 10 coins 20;
    mkTemplate "Survival Master" "Survive for {target} seconds in one run" distance 300
               coins 35 ].

Definition weeklyMissionTemplates : list Template :=
  [ mkTemplate "Weekly Warrior" "Defeat {target} enemies this week" enemies 500 gems 25;
    mkTemplate "Distance Champion" "Run {target} meters total this week" distance 15000
               skin 1;
    mkTemplate "Coin Millionaire" "Collect {target} coins this week" gold 2000 gems 15;
    mkTemplate "Power Master" "Collect {target} power-ups this week" powerups 50 coins 100 ].

(** [s.trim()] *)
Fixpoint rev_onto (s acc : string) : string :=
  match s with
  | EmptyString => acc
  | String c r => rev_onto r (String c acc)
  end.

Definition trim (s : string) : string :=
  rev_onto (NumStr.skip_space (rev_onto (NumStr.skip_space s) "")) "".

(** [s] without its prefix [pattern]. *)
Fixpoint strip_prefix (pattern s : string) : option string :=
  match pattern, s with
  | EmptyString, _ => Some s
  | String a pattern', String b s' =>
      if Ascii.eqb a b then strip_prefix pattern' s' else None
  | String _ _, EmptyString => None
  end.

(** [s.replace(pattern, replacement)] with a string pattern: the first
    occurrence is replaced.  The replacements here are numbers in decimal
    digits, with none of the [$] patterns. *)
Fixpoint replace (pattern replacement s : string) : string :=
  match strip_prefix pattern s with
  | Some rest => replacement +:+ rest
  | None =>
      match s with
      | EmptyString => EmptyString
      | String c r => String c (replace pattern replacement r)
      end
  end.

(** [[a[i], a[j]] = [a[j], a[i]]] with both indices inside the array. *)
Definition swap {A} (i j : nat) (a : list A) : list A :=
  match a !! i, a !! j with
  | Some x, Some y => <[j := x]> (<[i := y]> a)
  | _, _ => a
  end.

(** [Math.floor(r * (i + 1))] for the value [r] of [Math.random()]. *)
Definition draw (r : Q) (i : nat) : nat :=
  Z.to_nat (Qfloor (r * inject_Z (Z.of_nat i + 1))).

(** The loop of [shuffleArray] from index [i] down to 1; [random k] is the
    value of the [k]-th call of [Math.random], which is in [0, 1), so that
    each index drawn is inside the array. *)
Fixpoint shuffle_loop {A} (random : nat -> Q) (k i : nat) (shuffled : list A) : list A :=
  match i with
  | O => shuffled
  | S i' => shuffle_loop random (S k) i' (swap i (draw (random k) i) shuffled)
  end.

Definition shuffleArray {A} (random : nat -> Q) (k : nat) (array : list A) : list A :=
  shuffle_loop random k (List.length array - 1) array.

(** The mission object built in the two loops of [generateNewMissions];
    [stamp] is the value of [Date.now()] in its id. *)
Definition mission (kind : string) (type : MissionType) (stamp : Z) (i : nat)
    (template : Template) : Mission :=
  mkMission (kind +:+ "_" +:+ NumStr.toString stamp +:+ "_" +:+ NumStr.toString (Z.of_nat i))
            (replace "{target}" (NumStr.toString (t_target template)) (trim (t_title template)))
            (replace "{target}" (NumStr.toString (t_target template))
                     (trim (t_description template)))
            type (t_category template) (inject_Z (t_target template)) 0
            (t_rewardType template) (inject_Z (t_rewardAmount template))
            false false None.

(** [generateNewMissions]: the new missions and the new [lastReset].
    [random k] and [clock k] are the values of the [k]-th calls of
    [Math.random] and [Date.now]; [saveProgress] at the end writes the
    storage. *)
Definition generateNewMissions (random : nat -> Q) (clock : nat -> Z)
  : list Mission * Z :=
  let now := clock 0%nat in
  let dailyCount := if JS.Qltb (random 0%nat) (3 # 10) then 3%nat else 4%nat in
  let shuffledDaily := shuffleArray random 1 dailyMissionTemplates in
  let dailies :=
    imap (fun i template => mission "daily" daily (clock (1 + i)%nat) i template)
         (take dailyCount shuffledDaily) in
  let weeklyCount := 1%nat in
  let shuffledWeekly :=
    shuffleArray random (1 + (List.length dailyMissionTemplates - 1)) weeklyMissionTemplates in
  let weeklies :=
    imap (fun i template =>
            mission "weekly" weekly (clock (1 + List.length dailies + i)%nat) i template)
         (take weeklyCount shuffledWeekly) in
  (dailies ++ weeklies, now).

(** A mission as the generator leaves it. *)
Definition fresh (m : Mission) : Prop :=
  current m = 0%Q /\ isCompleted m = false /\ isClaimed m = false.

(** The title [generateNewMissions] gives the mission of a template. *)
Definition title_of (template : Template) : string :=
  replace "{target}" (NumStr.toString (t_target template)) (trim (t_title template)).

(** A string without the separator of the ids. *)
Fixpoint no_underscore (s : string) : Prop :=
  match s with
  | EmptyString => True
  | String c r => c <> "_"%char /\ no_underscore r
  end.

End MissionGen.
(** ** systems/MissionManager.ts: the campaign *)

Module Campaign.
Import JSON Storage Missions.

Section Campaign.
Context {H : Host}.

(** The text [JSON.stringify] makes of the progress record that
    [saveProgress] assembles from the missions and the storage. *)
Variable progressText : list Mission -> Storage -> string.

Definition UNLOCKED : string := "veggieClash_campaign_unlocked".
Definition COMPLETED : string := "veggieClash_campaign_completed".

(** The body shared by [getUnlockedCampaignMissions] and
    [getCompletedCampaignMissions]: the parsed item, or the default when
    there is no item or it does not parse. *)
Definition stored (key : string) (default : json) (st : Storage) : json :=
  match present (getItem st key) with
  | Some saved =>
      match JSON_parse saved with
      | Some v => v
      | None => default
      end
  | None => default
  end.

Definition getUnlockedCampaignMissions (st : Storage) : json :=
  stored UNLOCKED (JArr [JStr "mission_1"]) st.

Definition getCompletedCampaignMissions (st : Storage) : json :=
  stored COMPLETED (JArr []) st.

(** [hay.includes(needle)] on strings. *)
Fixpoint is_prefix (needle hay : string) : bool :=
  match needle, hay with
  | EmptyString, _ => true
  | String a needle', String b hay' => Ascii.eqb a b && is_prefix needle' hay'
  | String _ _, EmptyString => false
  end.

Fixpoint String_includes (needle hay : string) : bool :=
  is_prefix needle hay ||
  match hay with
  | EmptyString => false
  | String _ hay' => String_includes needle hay'
  end.

(** [list.includes(entry)] for a string [entry]: on an array, on a
    string, and the TypeError ([None]) on every other value. *)
Definition includes (list : json) (entry : string) : option bool :=
  match list with
  | JArr l =>
      Some (existsb (fun v => match v with JStr s => String.eqb s entry | _ => false end) l)
  | JStr s => Some (String_includes entry s)
  | _ => None
  end.

(** [isCampaignMissionUnlocked] *)
Definition isCampaignMissionUnlocked (missionId : string) (st : Storage) : JS.outcome bool :=
  match includes (getUnlockedCampaignMissions st) missionId with
  | Some b => JS.Return b
  | None => JS.Throw false
  end.

(** [if (!list.includes(entry)) { list.push(entry); localStorage.setItem(key,
    JSON.stringify(list)) }]; [None] is a TypeError ([includes] or [push]
    missing) or the exception of [setItem]. *)
Definition record (key : string) (list : json) (entry : string) (st : Storage)
  : option Storage :=
  match includes list entry with
  | Some true => Some st
  | Some false =>
      match list with
      | JArr l => setItem st key (JSON_stringify (JArr (l ++ [JStr entry])))
      | _ => None
      end
  | None => None
  end.

(** [saveProgress] *)
Definition saveProgress (missions : list Mission) (st : Storage) : Storage :=
  match setItem st MissionManager.STORAGE_KEY (progressText missions st) with
  | Some st' => st'
  | None => st
  end.

(** [completeCampaignMission]: the missions, the storage, the events and
    the returned boolean. *)
Definition completeCampaignMission (missionId : string) (missions : list Mission)
    (st : Storage) : JS.outcome (list Mission * Storage * list Event * bool) :=
  let test := fun m => String.eqb (id m) missionId
                       && match type m with campaign => true | _ => false end in
  match List.find test missions with
  | None => JS.Return (missions, st, [], false)
  | Some mission =>
      if isCompleted mission then JS.Return (missions, st, [], false)
      else
        let missions := change_first test (fun m => set_flags m true true) missions in
        let mission := set_flags mission true true in
        match record COMPLETED (getCompletedCampaignMissions st) missionId st with
        | None => JS.Throw (missions, st, [], false)
        | Some st =>
            let unlocked := getUnlockedCampaignMissions st in
            let st' :=
              match unlock mission with
              | Some next =>
                  if negb (String.eqb next "") then record UNLOCKED unlocked next st
                  else Some st
              | None => Some st
              end in
            match st' with
            | None => JS.Throw (missions, st, [], false)
            | Some st =>
                JS.Return (missions, saveProgress missions st,
                           [campaign_mission_completed mission], true)
            end
        end
  end.

End Campaign.

End Campaign.

(** ** scenes/GameOverScene.ts: what the scene shows, and its menu *)

Module GameOverMenu.
Import JSON Storage GameOverScene.

(** What [displayHighScore] adds to the scene: the banner of a new high
    score, or the line with the best score ([None]: it reads NaN). *)
Inductive Banner :=
| NewHighScore
| BestScore (currentHighScore : option Z).

Definition displayHighScore (gameData : GameOverData) (st : Storage) : Banner :=
  if beats (score gameData) (currentHighScore st (mode gameData)) then NewHighScore
  else BestScore (currentHighScore st (mode gameData)).

(** The actions of the menu items. *)
Inductive Action := restartGame | nextLevel | returnToMenu.

(** The array [menuItems] that [createMenu] builds, as the actions of its
    items: 'Next Level' is spliced in at index 1. *)
Definition createMenu (gameData : GameOverData) : list Action :=
  if String.eqb (mode gameData) "campaign"
     && match victory gameData with Some true => true | _ => false end
  then [restartGame; nextLevel; returnToMenu]
  else [restartGame; returnToMenu].

(** The fields of the scene that the input handlers use. *)
Record Scene := mkScene {
  gameData : GameOverData;
  selectedIndex : Z;
  menuItems : list Action
}.

(** [init] followed by the [createMenu] of [create]. *)
Definition create (data : GameOverData) : Scene := mkScene data 0 (createMenu data).

Definition length_of (s : Scene) : Z := Z.of_nat (List.length (menuItems s)).

(** The handlers of ['keydown-UP'] and ['keydown-DOWN'], and the
    ['pointerover'] of the button at [index]. *)
Definition keydown_UP (s : Scene) : Scene :=
  mkScene (gameData s) (JS.rem (selectedIndex s - 1 + length_of s) (length_of s))
          (menuItems s).

Definition keydown_DOWN (s : Scene) : Scene :=
  mkScene (gameData s) (JS.rem (selectedIndex s + 1) (length_of s)) (menuItems s).

Definition selectMenuItem (index : Z) (s : Scene) : Scene :=
  mkScene (gameData s) index (menuItems s).

(** [activateMenuItem]: the action called; [None] is the TypeError of an
    index outside the menu. *)
Definition activateMenuItem (s : Scene) : option Action :=
  if selectedIndex s <? 0 then None
  else nth_error (menuItems s) (Z.to_nat (selectedIndex s)).

Inductive Input := UP | DOWN | Over (index : Z).

Definition step (s : Scene) (i : Input) : Scene :=
  match i with
  | UP => keydown_UP s
  | DOWN => keydown_DOWN s
  | Over index => selectMenuItem index s
  end.

Definition run (inputs : list Input) (s : Scene) : Scene := fold_left step inputs s.

(** A pointer can only be over a button that exists. *)
Definition on_a_button (data : GameOverData) (i : Input) : Prop :=
  match i with
  | Over index => 0 <= index < Z.of_nat (List.length (createMenu data))
  | _ => True
  end.

(** The scene has the menu of [createMenu] and a selection inside it. *)
Definition in_menu (data : GameOverData) (s : Scene) : Prop :=
  menuItems s = createMenu data /\ 0 <= selectedIndex s < length_of s.

End GameOverMenu.
(** ** scenes/GameScene.ts: score, kills and the end of a game *)

Module GameScene.
Import GameOverScene.

(** [interface GameData]; [level] is optional. *)
Record GameData := mkGameData {
  gd_mode : Mode;
  gd_level : option Q
}.

(** The counters of the scene. *)
Record Scene := mkScene {
  gameData : GameData;
  score : Z;
  wave : Z;
  enemiesKilled : Z;
  gameTime : Q
}.

(** [init]: [data || { mode: 'campaign', level: 1 }]. *)
Definition init (data : option GameData) : Scene :=
  mkScene (match data with Some d => d | None => mkGameData campaign (Some 1%Q) end)
          0 1 0 0.

(** [handleProjectileEnemyHit]: the scene, the enemy after
    [enemy.takeDamage(damage)], and whether the enemy was destroyed. *)
Definition handleProjectileEnemyHit (damage : Q) (enemy : Enemy.Enemy) (s : Scene)
  : Scene * Enemy.Enemy * bool :=
  let enemy := Enemy.takeDamage damage enemy in
  if Qle_bool (Enemy.health enemy) 0
  then (mkScene (gameData s) (score s + 100) (wave s) (enemiesKilled s + 1) (gameTime s),
        enemy, true)
  else (s, enemy, false).

(** The scene that [scene.start] is called with. *)
Inductive Transition :=
| GameOver (data : GameOverData)
| NextLevel (data : GameData).

(** The data of a game over: the counters of the scene and its mode. *)
Definition gameOverData (s : Scene) (victory : option bool) : GameOverData :=
  mkGameOverData (inject_Z (score s)) (Some (inject_Z (wave s)))
                 (Some (inject_Z (enemiesKilled s)))
                 (modeName (gd_mode (gameData s))) victory.

Definition gameOver (s : Scene) : Transition :=
  GameOver (gameOverData s None).

(** [levelComplete]; a level is truthy when it is a number other than 0. *)
Definition levelComplete (s : Scene) : Transition :=
  match gd_mode (gameData s), gd_level (gameData s) with
  | campaign, Some level =>
      if negb (Qeq_bool level 0) && JS.Qltb level 2
      then NextLevel (mkGameData campaign (Some (level + 1)%Q))
      else GameOver (gameOverData s (Some true))
  | _, _ => GameOver (gameOverData s (Some true))
  end.

(** [checkGameState]; [playerHealth] is [None] while there is no player. *)
Definition checkGameState (playerHealth : option Q) (s : Scene)
  : Scene * option Transition :=
  let dead := match playerHealth with Some h => Qle_bool h 0 | None => false end in
  if dead then (s, Some (gameOver s))
  else
    match gd_mode (gameData s) with
    | campaign =>
        if 20 <=? enemiesKilled s then (s, Some (levelComplete s)) else (s, None)
    | survival =>
        let newWave := Qfloor (gameTime s / 60000) + 1 in
        if wave s <? newWave
        then (mkScene (gameData s) (score s) newWave (enemiesKilled s) (gameTime s), None)
        else (s, None)
    end.

(** [update]: the counters it touches are [gameTime], and those of
    [checkGameState] at its end. *)
Definition update (delta : Q) (playerHealth : option Q) (s : Scene)
  : Scene * option Transition :=
  checkGameState playerHealth
    (mkScene (gameData s) (score s) (wave s) (enemiesKilled s) (gameTime s + delta)%Q).

Inductive Op :=
| Hit (damage : Q) (enemy : Enemy.Enemy)
| Frame (delta : Q) (playerHealth : option Q).

Definition step (s : Scene) (o : Op) : Scene :=
  match o with
  | Hit damage enemy => fst (fst (handleProjectileEnemyHit damage enemy s))
  | Frame delta playerHealth => fst (update delta playerHealth s)
  end.

Definition run (ops : list Op) (s : Scene) : Scene := fold_left step ops s.

(** The books of a scene are in order. *)
Definition balanced (s : Scene) : Prop :=
  score s = 100 * enemiesKilled s /\ 0 <= enemiesKilled s /\ 1 <= wave s.

End GameScene.
(** ** systems/PerformanceMonitor.ts *)

Module PerformanceMonitor.

Definition historySize : nat := 10.
Definition ADJUSTMENT_COOLDOWN : Q := 3000.
Definition PERFECT_FPS : Q := 60.
Definition GOOD_FPS : Q := 50.
Definition POOR_FPS : Q := 45.
Definition BAD_FPS : Q := 30.

(** The payload of ['PERFORMANCE/QUALITY_UPDATE']. *)
Record Quality := mkQuality {
  maxParticles : Q;
  maxEnemies : Q;
  enableBackgroundEffects : bool;
  parallaxUpdateRate : Q
}.

Record Monitor := mkMonitor {
  fpsHistory : list Z;
  lastAdjustment : Q;
  quality : Quality
}.

(** The field initialisers; the constructor emits these settings. *)
Definition defaults : Quality := mkQuality 50 25 true 1.
Definition new : Monitor := mkMonitor [] 0 defaults.

(** [Math.round] *)
Definition Math_round (x : Q) : Z := Qfloor (x + (1 # 2)).

(** [trackFPS], with [actualFps = this.scene.game.loop.actualFps]. *)
Definition trackFPS (actualFps : Q) (m : Monitor) : Monitor :=
  let fpsHistory := fpsHistory m ++ [Math_round actualFps] in
  mkMonitor (if (historySize <? List.length fpsHistory)%nat then List.tl fpsHistory
             else fpsHistory)
            (lastAdjustment m) (quality m).

Definition getAverageFPS (m : Monitor) : Q :=
  match fpsHistory m with
  | [] => PERFECT_FPS
  | _ =>
      (inject_Z (fold_left Z.add (fpsHistory m) 0%Z)
       / inject_Z (Z.of_nat (List.length (fpsHistory m))))%Q
  end.

(** [checkPerformance] at [now = this.scene.time.now]; the second
    component is the event emitted when the quality was degraded. *)
Definition checkPerformance (now : Q) (m : Monitor) : Monitor * option Quality :=
  let avgFPS := getAverageFPS m in
  if (List.length (fpsHistory m) <? historySize)%nat
     || JS.Qltb (now - lastAdjustment m) ADJUSTMENT_COOLDOWN
  then (m, None)
  else
    let q := quality m in
    if Qle_bool avgFPS BAD_FPS then
      let q' := mkQuality (JS.Math_max 10 (maxParticles q - 5))
                          (JS.Math_max 12 (maxEnemies q - 3))
                          false
                          (JS.Math_max (2 # 10) (parallaxUpdateRate q - (2 # 10))) in
      (mkMonitor (fpsHistory m) now q', Some q')
    else if Qle_bool avgFPS POOR_FPS then
      let q' := mkQuality (JS.Math_max 20 (maxParticles q - 3))
                          (JS.Math_max 18 (maxEnemies q - 2))
                          (enableBackgroundEffects q)
                          (JS.Math_max (5 # 10) (parallaxUpdateRate q - (2 # 10))) in
      (mkMonitor (fpsHistory m) now q', Some q')
    else if Qle_bool GOOD_FPS avgFPS then
      let q' :=
        if Qle_bool PERFECT_FPS avgFPS then
          mkQuality (JS.Math_min 100 (maxParticles q + 1))
                    (JS.Math_min 40 (maxEnemies q + 1))
                    true
                    (JS.Math_min 1 (parallaxUpdateRate q + (1 # 10)))
        else q in
      (mkMonitor (fpsHistory m) now q', None)
    else (m, None).

(** The handler of the scene's ['update'] event. *)
Definition onUpdate (actualFps now : Q) (m : Monitor) : Monitor * option Quality :=
  checkPerformance now (trackFPS actualFps m).

(** The argument of [setQualitySettings]: every property may be missing. *)
Record Settings := mkSettings {
  s_maxParticles : option Q;
  s_maxEnemies : option Q;
  s_enableBackgroundEffects : option bool;
  s_parallaxUpdateRate : option Q
}.

Definition setQualitySettings (settings : Settings) (m : Monitor) : Monitor * Quality :=
  let q := quality m in
  let q' :=
    mkQuality
      (match s_maxParticles settings with
       | Some v => JS.Math_max 5 (JS.Math_min 200 v)
       | None => maxParticles q
       end)
      (match s_maxEnemies settings with
       | Some v => JS.Math_max 5 (JS.Math_min 60 v)
       | None => maxEnemies q
       end)
      (match s_enableBackgroundEffects settings with
       | Some v => v
       | None => enableBackgroundEffects q
       end)
      (match s_parallaxUpdateRate settings with
       | Some v => JS.Math_max (1 # 10) (JS.Math_min 1 v)
       | None => parallaxUpdateRate q
       end) in
  (mkMonitor (fpsHistory m) (lastAdjustment m) q', q').

Definition forcePerformanceCheck (now : Q) (m : Monitor) : Monitor * option Quality :=
  checkPerformance now (mkMonitor (fpsHistory m) 0 (quality m)).

Definition getPerformanceRating (m : Monitor) : string :=
  let avgFPS := getAverageFPS m in
  if Qle_bool PERFECT_FPS avgFPS then "Perfect"
  else if Qle_bool GOOD_FPS avgFPS then "Good"
  else if Qle_bool POOR_FPS avgFPS then "Poor"
  else if Qle_bool BAD_FPS avgFPS then "Bad"
  else "Critical".

Definition resetToDefaults (m : Monitor) : Monitor * Quality :=
  (mkMonitor (fpsHistory m) (lastAdjustment m) defaults, defaults).

Inductive Op :=
| Update (actualFps now : Q)
| SetQualitySettings (settings : Settings)
| ForcePerformanceCheck (now : Q)
| ResetToDefaults.

Definition step (m : Monitor) (o : Op) : Monitor :=
  match o with
  | Update actualFps now => fst (onUpdate actualFps now m)
  | SetQualitySettings settings => fst (setQualitySettings settings m)
  | ForcePerformanceCheck now => fst (forcePerformanceCheck now m)
  | ResetToDefaults => fst (resetToDefaults m)
  end.

Definition run (ops : list Op) (m : Monitor) : Monitor := fold_left step ops m.

(** The ranges of [setQualitySettings], and the narrower ones that the
    monitor stays in by itself. *)
Definition within (q : Quality) : Prop :=
  (5 <= maxParticles q /\ maxParticles q <= 200)%Q /\
  (5 <= maxEnemies q /\ maxEnemies q <= 60)%Q /\
  ((1 # 10) <= parallaxUpdateRate q /\ parallaxUpdateRate q <= 1)%Q.

Definition well_within (q : Quality) : Prop :=
  (10 <= maxParticles q /\ maxParticles q <= 100)%Q /\
  (12 <= maxEnemies q /\ maxEnemies q <= 40)%Q /\
  ((2 # 10) <= parallaxUpdateRate q /\ parallaxUpdateRate q <= 1)%Q.

Definition automatic (o : Op) : Prop :=
  match o with SetQualitySettings _ => False | _ => True end.

(** A frame on the clock before [limit]. *)
Definition before (limit : Q) (o : Op) : Prop :=
  match o with
  | Update _ now => (now < limit)%Q
  | _ => False
  end.

(** At most ten samples, and the settings in the ranges of
    [setQualitySettings]. *)
Definition tidy (m : Monitor) : Prop :=
  (List.length (fpsHistory m) <= historySize)%nat /\ within (quality m).

(** Bounds of expressions in [Math.max] and [Math.min]: each of them is
    named, with the case of the side it takes. *)
Ltac name_extremum :=
  match goal with
  | |- context [Qmax ?a ?b] =>
      let H := fresh in let x := fresh "x" in
      pose proof (Q.max_spec a b) as H; set (x := Qmax a b) in *; clearbody x;
      destruct H as [[? ?] | [? ?]]
  | |- context [Qmin ?a ?b] =>
      let H := fresh in let x := fresh "x" in
      pose proof (Q.min_spec a b) as H; set (x := Qmin a b) in *; clearbody x;
      destruct H as [[? ?] | [? ?]]
  | _ : context [Qmax ?a ?b] |- _ =>
      let H := fresh in let x := fresh "x" in
      pose proof (Q.max_spec a b) as H; set (x := Qmax a b) in *; clearbody x;
      destruct H as [[? ?] | [? ?]]
  | _ : context [Qmin ?a ?b] |- _ =>
      let H := fresh in let x := fresh "x" in
      pose proof (Q.min_spec a b) as H; set (x := Qmin a b) in *; clearbody x;
      destruct H as [[? ?] | [? ?]]
  end.

Ltac bounds :=
  unfold JS.Math_max, JS.Math_min; repeat name_extremum; repeat split; lra.

End PerformanceMonitor.

(** ** The asset validation script: levenshteinDistance *)

Module ValidateAssets.

(** The matrix of [levenshteinDistance] is an array of rows, each cell
    [null] ([None]) until it is assigned. *)

(** [matrix[j][i]] where a number is expected: [null] counts as 0.  The
    loops only use indices inside the matrix. *)
Definition read (matrix : list (list (option Z))) (j i : nat) : Z :=
  match matrix !! j with
  | Some row => match row !! i with Some (Some n) => n | _ => 0 end
  | None => 0
  end.

(** [matrix[j][i] = v] *)
Definition write (matrix : list (list (option Z))) (j i : nat) (v : Z) : list (list (option Z)) :=
  match matrix !! j with
  | Some row => <[j := <[i := Some v]> row]> matrix
  | None => matrix
  end.

(** [a[i - 1] === b[j - 1] ? 0 : 1] *)
Definition indicator (x y : option ascii) : Z :=
  match x, y with
  | Some c, Some d => if Ascii.eqb c d then 0 else 1
  | None, None => 0
  | _, _ => 1
  end.

Definition levenshteinDistance (a b : string) : Z :=
  let a := list_ascii_of_string a in
  let b := list_ascii_of_string b in
  let matrix : list (list (option Z)) :=
    replicate (List.length b + 1) (replicate (List.length a + 1) None) in
  let matrix :=
    fold_left (fun matrix i => write matrix 0 i (Z.of_nat i))
              (seq 0 (List.length a + 1)) matrix in
  let matrix :=
    fold_left (fun matrix j => write matrix j 0 (Z.of_nat j))
              (seq 0 (List.length b + 1)) matrix in
  let matrix :=
    fold_left
      (fun matrix j =>
         fold_left
           (fun matrix i =>
              let indicator := indicator (a !! (i - 1)%nat) (b !! (j - 1)%nat) in
              write matrix j i
                    (Z.min (read matrix j (i - 1) + 1)
                           (Z.min (read matrix (j - 1) i + 1)
                                  (read matrix (j - 1) (i - 1) + indicator))))
           (seq 1 (List.length a)) matrix)
      (seq 1 (List.length b)) matrix in
  read matrix (List.length b) (List.length a).

(** The edit distance by its recursion: the least number of deletions,
    insertions and substitutions of single characters. *)
Fixpoint edit_distance (a : list ascii) : list ascii -> Z :=
  match a with
  | [] => fun b => Z.of_nat (List.length b)
  | x :: a' =>
      fix from (b : list ascii) : Z :=
        match b with
        | [] => Z.of_nat (List.length (x :: a'))
        | y :: b' =>
            Z.min (edit_distance a' (y :: b') + 1)
                  (Z.min (from b' + 1)
                         (edit_distance a' b' + (if Ascii.eqb x y then 0 else 1)))
        end
  end.

(** The distance the matrix holds at row [j], column [i]: that of the
    first [i] characters of [a] and the first [j] of [b]. *)
Definition cell (a b : list ascii) (j i : nat) : Z :=
  edit_distance (rev (take i a)) (rev (take j b)).

(** The dimensions of the matrix. *)
Definition shape (a b : list ascii) (matrix : list (list (option Z))) : Prop :=
  List.length matrix = S (List.length b) /\
  forall j row, matrix !! j = Some row -> List.length row = S (List.length a).

(** The cells filled so far, when the loops are at row [J], column [I]. *)
Definition known (J I j i : nat) : Prop :=
  (j < J \/ (j = J /\ i < I) \/ i = 0 \/ j = 0)%nat.

Definition filled (a b : list ascii) (J I : nat) (matrix : list (list (option Z))) : Prop :=
  shape a b matrix /\
  forall j i, (j <= List.length b)%nat -> (i <= List.length a)%nat ->
              known J I j i -> read matrix j i = cell a b j i.

End ValidateAssets.

(** * Properties *)

(** ** Player: the power-up map *)

Module PlayerFacts.
Import Player.

Lemma PowerUpType_eqb_eq a b : PowerUpType_eqb a b = true <-> a = b.
Proof. destruct a, b; simpl; split; congruence. Qed.

Lemma PowerUpType_eqb_refl a : PowerUpType_eqb a a = true.
Proof. now destruct a. Qed.

Lemma Map_count_cons k k' e m :
  Map_count k ((k', e) :: m) =
  ((if PowerUpType_eqb k k' then 1 else 0) + Map_count k m)%nat.
Proof. unfold Map_count; simpl. now destruct (PowerUpType_eqb k k'). Qed.

Lemma Map_get_None_count k m : Map_get k m = None -> Map_count k m = 0%nat.
Proof.
  induction m as [|[k' e] m IH]; [reflexivity|].
  rewrite Map_count_cons; simpl.
  destruct (PowerUpType_eqb k k'); [discriminate | exact IH].
Qed.

Lemma Map_get_Some_count k m e : Map_get k m = Some e -> (1 <= Map_count k m)%nat.
Proof.
  induction m as [|[k' e'] m IH]; [discriminate|].
  rewrite Map_count_cons; simpl.
  destruct (PowerUpType_eqb k k'); [lia | intros H; specialize (IH H); lia].
Qed.

Lemma Map_count_set_absent k k' e m :
  Map_get k m = None ->
  Map_count k' (Map_set k e m) =
  (Map_count k' m + (if PowerUpType_eqb k' k then 1 else 0))%nat.
Proof.
  induction m as [|[k0 e0] m IH]; simpl.
  - intros _. rewrite Map_count_cons. unfold Map_count; simpl. lia.
  - destruct (PowerUpType_eqb k k0) eqn:E; [discriminate|].
    intros H. rewrite !Map_count_cons, (IH H). lia.
Qed.

Lemma Map_count_refresh k k' mu d m :
  Map_count k' (refresh k mu d m) = Map_count k' m.
Proof.
  induction m as [|[k0 e0] m IH]; [reflexivity|]. simpl.
  destruct (PowerUpType_eqb k k0); rewrite !Map_count_cons; [reflexivity|].
  now rewrite IH.
Qed.

Lemma length_refresh k mu d m : List.length (refresh k mu d m) = List.length m.
Proof.
  induction m as [|[k0 e0] m IH]; [reflexivity|]. simpl.
  destruct (PowerUpType_eqb k k0); simpl; [reflexivity | now rewrite IH].
Qed.

Lemma Map_get_refresh k mu d m e :
  Map_get k m = Some e ->
  Map_get k (refresh k mu d m) = Some (mkEffect (JS.Math_max (multiplier e) mu) d d).
Proof.
  induction m as [|[k0 e0] m IH]; [discriminate|]. simpl.
  destruct (PowerUpType_eqb k k0) eqn:E; simpl; rewrite E.
  - now intros [= ->].
  - exact IH.
Qed.

Lemma Map_get_refresh_other k k' mu d m :
  k' <> k -> Map_get k' (refresh k mu d m) = Map_get k' m.
Proof.
  intros Hne. induction m as [|[k0 e0] m IH]; [reflexivity|]. simpl.
  destruct (PowerUpType_eqb k k0) eqn:E; simpl.
  - apply PowerUpType_eqb_eq in E; subst k0.
    destruct (PowerUpType_eqb k' k) eqn:E'; [|reflexivity].
    apply PowerUpType_eqb_eq in E'. contradiction.
  - now rewrite IH.
Qed.

Lemma Map_count_elapse k k' delta m :
  Map_count k' (elapse k delta m) = Map_count k' m.
Proof.
  induction m as [|[k0 e0] m IH]; [reflexivity|]. simpl.
  destruct (PowerUpType_eqb k k0); rewrite !Map_count_cons; [reflexivity|].
  now rewrite IH.
Qed.

Lemma Map_count_delete k k' m :
  (Map_count k' (Map_delete k m) <= Map_count k' m)%nat.
Proof.
  induction m as [|[k0 e0] m IH]; [reflexivity|]. simpl.
  destruct (PowerUpType_eqb k k0); rewrite !Map_count_cons; lia.
Qed.

Lemma Map_count_removePowerUp k k' p :
  (Map_count k' (activePowerUps (removePowerUp k p)) <= Map_count k' (activePowerUps p))%nat.
Proof.
  unfold removePowerUp. destruct (Map_get k (activePowerUps p)); [|reflexivity].
  apply Map_count_delete.
Qed.

Lemma Map_count_visit k delta entries : forall p recalculate,
  (Map_count k (activePowerUps (fst (visit delta entries p recalculate)))
   <= Map_count k (activePowerUps p))%nat.
Proof.
  induction entries as [|[k0 e0] rest IH]; intros p recalculate; [reflexivity|].
  cbn [visit]. destruct (Qle_bool _ 0).
  - etransitivity; [apply IH|]. etransitivity; [apply Map_count_removePowerUp|].
    simpl. now rewrite Map_count_elapse.
  - etransitivity; [apply IH|]. simpl. now rewrite Map_count_elapse.
Qed.

Lemma activePowerUps_recalculateStats p :
  activePowerUps (fst (recalculateStats p)) = activePowerUps p.
Proof.
  unfold recalculateStats. destruct (cappedMultipliers p) as [[? ?] ?]. reflexivity.
Qed.

Lemma activePowerUps_applyPowerUp t mu d p :
  activePowerUps (fst (applyPowerUp t mu d p)) =
  match Map_get t (activePowerUps p) with
  | Some _ => refresh t mu d (activePowerUps p)
  | None => Map_set t (mkEffect mu d d) (activePowerUps p)
  end.
Proof.
  unfold applyPowerUp.
  destruct (Map_get t (activePowerUps p)); now rewrite activePowerUps_recalculateStats.
Qed.

Lemma activePowerUps_updatePowerUps delta p :
  activePowerUps (fst (updatePowerUps delta p)) =
  activePowerUps (fst (visit delta (activePowerUps p) p false)).
Proof.
  unfold updatePowerUps. destruct (visit delta (activePowerUps p) p false) as [p' [|]]; simpl.
  - pose proof (activePowerUps_recalculateStats p') as H.
    destruct (recalculateStats _) as [p'' ev]. exact H.
  - reflexivity.
Qed.

Lemma activePowerUps_shoot now p :
  activePowerUps (fst (JS.state_of (shoot now p))) = activePowerUps p.
Proof.
  unfold shoot. destruct (weaponAt _); [|reflexivity].
  destruct (JS.Qltb _ _); [reflexivity|].
  destruct (_ && _); reflexivity.
Qed.

Lemma activePowerUps_switchWeapon d p :
  activePowerUps (JS.state_of (switchWeapon d p)) = activePowerUps p.
Proof.
  unfold switchWeapon, updateWeaponStats. destruct (weaponAt _); reflexivity.
Qed.

Lemma one_per_type_step p o : one_per_type p -> one_per_type (step p o).
Proof.
  intros Hp k. specialize (Hp k). destruct o as [t mu d|delta|now|d]; simpl.
  - rewrite activePowerUps_applyPowerUp.
    destruct (Map_get t (activePowerUps p)) eqn:G.
    + now rewrite Map_count_refresh.
    + rewrite (Map_count_set_absent _ _ _ _ G).
      destruct (PowerUpType_eqb k t) eqn:E; [|lia].
      apply PowerUpType_eqb_eq in E; subst k.
      rewrite (Map_get_None_count _ _ G). lia.
  - rewrite activePowerUps_updatePowerUps.
    pose proof (Map_count_visit k delta (activePowerUps p) p false). lia.
  - now rewrite activePowerUps_shoot.
  - now rewrite activePowerUps_switchWeapon.
Qed.

Lemma one_per_type_run ops p : one_per_type p -> one_per_type (run ops p).
Proof.
  revert p. induction ops as [|o ops IH]; intros p Hp; [exact Hp|].
  simpl. apply IH, one_per_type_step, Hp.
Qed.

Lemma one_per_type_new : one_per_type new.
Proof. intros k. vm_compute. lia. Qed.

(** C4: applying a power-up whose type is already active adds no second
    effect: the entry of that type takes the larger of the two multipliers
    and the new duration as its remaining time, the map keeps its size,
    and after any sequence of calls on a new player every type has at most
    one active effect. *)
Theorem applyPowerUp_refreshes_active_type :
  forall (ops : list Op) (t : PowerUpType) (mu d : Q),
    let p := run ops new in
    let p' := fst (applyPowerUp t mu d p) in
    (forall k, (Map_count k (activePowerUps p) <= 1)%nat) /\
    (forall k, (Map_count k (activePowerUps p') <= 1)%nat) /\
    (forall e, Map_get t (activePowerUps p) = Some e ->
       Map_get t (activePowerUps p') =
         Some (mkEffect (JS.Math_max (multiplier e) mu) d d) /\
       List.length (activePowerUps p') = List.length (activePowerUps p) /\
       Map_count t (activePowerUps p') = 1%nat /\
       (forall k, k <> t ->
          Map_get k (activePowerUps p') = Map_get k (activePowerUps p))).
Proof.
  intros ops t mu d p p'.
  assert (Hp : one_per_type p) by (apply one_per_type_run, one_per_type_new).
  assert (Hp' : one_per_type p') by (apply (one_per_type_step p (ApplyPowerUp t mu d)), Hp).
  split; [exact Hp|]. split; [exact Hp'|].
  intros e G. subst p'. rewrite activePowerUps_applyPowerUp, G.
  split; [now apply Map_get_refresh|].
  split; [apply length_refresh|].
  split.
  - rewrite Map_count_refresh. pose proof (Map_get_Some_count _ _ _ G).
    specialize (Hp t). lia.
  - intros k Hk. now apply Map_get_refresh_other.
Qed.

Lemma applyPowerUp_refreshes_active_type_witness :
  let p := run [ApplyPowerUp DAMAGE_BOOST (3 # 2) 10000; UpdatePowerUps 4000] new in
  let p' := fst (applyPowerUp DAMAGE_BOOST (5 # 4) 8000 p) in
  Map_get DAMAGE_BOOST (activePowerUps p) = Some (mkEffect (3 # 2) 10000 (10000 - 4000)) /\
  Map_get DAMAGE_BOOST (activePowerUps p') = Some (mkEffect (3 # 2) 8000 8000) /\
  List.length (activePowerUps p') = 1%nat.
Proof.
  intros p p'.
  assert (G : Map_get DAMAGE_BOOST (activePowerUps p) =
              Some (mkEffect (3 # 2) 10000 (10000 - 4000))) by reflexivity.
  destruct (applyPowerUp_refreshes_active_type
              [ApplyPowerUp DAMAGE_BOOST (3 # 2) 10000; UpdatePowerUps 4000]
              DAMAGE_BOOST (5 # 4) 8000) as (_ & _ & H).
  destruct (H _ G) as (H1 & H2 & _).
  split; [exact G|]. split; [exact H1 | exact H2].
Defined.

(** *** Weapon switching *)

(** C9: from a valid weapon index and a direction of -1 or +1,
    [switchWeapon] returns normally with the index [(old + direction) mod 3],
    a valid index of the three-weapon table, and with [currentAmmo] and
    [maxAmmo] at the new weapon's capacity; switching back lands on the old
    weapon with its full capacity. *)
Theorem switchWeapon_cycles_and_refills :
  forall (p : Player) (direction : Z),
    0 <= currentWeapon p < 3 ->
    direction = -1 \/ direction = 1 ->
    exists p' w,
      switchWeapon direction p = JS.Return p' /\
      currentWeapon p' = (currentWeapon p + direction) mod 3 /\
      0 <= currentWeapon p' < Z.of_nat (List.length weapons) /\
      weaponAt (currentWeapon p') = Some w /\
      currentAmmo p' = ammo w /\ maxAmmo p' = ammo w /\
      exists p'' w0,
        switchWeapon (- direction) p' = JS.Return p'' /\
        currentWeapon p'' = currentWeapon p /\
        weaponAt (currentWeapon p) = Some w0 /\
        currentAmmo p'' = ammo w0 /\ maxAmmo p'' = ammo w0.
Proof.
  intros [h mh cw ca ma ms ls ap bs bd bf] direction Hcw Hd; simpl in *.
  assert (Hc : cw = 0 \/ cw = 1 \/ cw = 2) by lia.
  destruct Hc as [-> | [-> | ->]], Hd as [-> | ->];
    (eexists; eexists; split; [reflexivity|]; simpl;
     repeat (split; [first [reflexivity | now vm_compute]|]);
     eexists; eexists; split; [reflexivity|]; simpl;
     repeat split; reflexivity).
Qed.

Lemma switchWeapon_cycles_and_refills_witness :
  exists p',
    switchWeapon (-1) new = JS.Return p' /\
    currentWeapon p' = 2 /\ currentAmmo p' = 10 /\ maxAmmo p' = 10.
Proof.
  destruct (switchWeapon_cycles_and_refills new (-1))
    as (p' & w & H1 & H2 & H3 & H4 & H5 & H6 & _).
  - simpl. lia.
  - left. reflexivity.
  - exists p'. split; [exact H1|]. split; [exact H2|].
    rewrite H2 in H4. injection H4 as <-. split; [exact H5 | exact H6].
Defined.

(** *** Stat recalculation *)

Lemma cappedMultipliers_bounds p :
  let '(damageMultiplier, speedMultiplier, fireRateMultiplier) := cappedMultipliers p in
  (damageMultiplier <= 2 /\ speedMultiplier <= 3 # 2 /\ fireRateMultiplier <= 2)%Q.
Proof.
  unfold cappedMultipliers.
  destruct (stack _ _) as [[dm sm] fm].
  repeat split; apply Q.le_min_r.
Qed.

(** For every set of active power-ups [recalculateStats] caps the stacked
    multipliers: damage at 2.0, speed at 1.5, fire rate at 2.0.  The capped
    speed multiplier is the one [moveSpeed] uses (so [moveSpeed] is at most
    1.5 times a non-negative [baseMoveSpeed]), and the event carries the
    capped damage and fire-rate multipliers. *)
Theorem recalculateStats_caps_multipliers :
  forall p : Player,
    let '(damageMultiplier, speedMultiplier, fireRateMultiplier) := cappedMultipliers p in
    let '(p', ev) := recalculateStats p in
    (damageMultiplier <= 2 /\ speedMultiplier <= 3 # 2 /\ fireRateMultiplier <= 2)%Q /\
    moveSpeed p' = (baseMoveSpeed p * speedMultiplier)%Q /\
    ev_damageMultiplier ev = damageMultiplier /\
    ev_speedMultiplier ev = (speedMultiplier - 1)%Q /\
    ev_fireRateMultiplier ev = fireRateMultiplier /\
    ((0 <= baseMoveSpeed p)%Q -> (moveSpeed p' <= (3 # 2) * baseMoveSpeed p)%Q).
Proof.
  intros p. pose proof (cappedMultipliers_bounds p) as B.
  unfold recalculateStats.
  destruct (cappedMultipliers p) as [[dm sm] fm]; simpl.
  split; [exact B|]. do 4 (split; [reflexivity|]).
  intros Hb. destruct B as (_ & Hs & _). nra.
Qed.

Lemma base_untouched_visit delta entries : forall p recalculate,
  base_untouched p -> base_untouched (fst (visit delta entries p recalculate)).
Proof.
  induction entries as [|[k0 e0] rest IH]; intros p recalculate Hp; [exact Hp|].
  cbn [visit]. destruct (Qle_bool _ 0); apply IH; [|exact Hp].
  unfold removePowerUp. simpl. now destruct (Map_get k0 _).
Qed.

Lemma base_untouched_step p o : base_untouched p -> base_untouched (step p o).
Proof.
  intros Hp. destruct o as [t mu d|delta|now|d]; simpl.
  - unfold applyPowerUp, recalculateStats.
    destruct (Map_get t _); destruct (cappedMultipliers _) as [[? ?] ?]; exact Hp.
  - unfold updatePowerUps, recalculateStats.
    pose proof (base_untouched_visit delta (activePowerUps p) p false Hp) as Hv.
    destruct (visit _ _ _ _) as [p' [|]];
      [destruct (cappedMultipliers _) as [[? ?] ?]|]; exact Hv.
  - unfold shoot. destruct (weaponAt _); [|exact Hp].
    destruct (JS.Qltb _ _); [exact Hp|]. destruct (_ && _); exact Hp.
  - unfold switchWeapon, updateWeaponStats. destruct (weaponAt _); exact Hp.
Qed.

Lemma base_untouched_run ops p : base_untouched p -> base_untouched (run ops p).
Proof.
  revert p. induction ops as [|o ops IH]; intros p Hp; [exact Hp|].
  simpl. apply IH, base_untouched_step, Hp.
Qed.

(** Whatever power-ups are active after any sequence of calls on a new
    player, a shot carries the plain table damage of the current weapon and
    the plain table interval: the base multipliers that [shoot] reads are
    still 1. *)
Theorem shoot_unboosted :
  forall (ops : list Op) (weapon : Weapon),
    weaponAt (currentWeapon (run ops new)) = Some weapon ->
    baseDamageMultiplier (run ops new) = 1%Q /\
    baseFireRateMultiplier (run ops new) = 1%Q /\
    shootDamage weapon (run ops new) = damage weapon /\
    (shootInterval weapon (run ops new) == inject_Z (fireRate weapon))%Q.
Proof.
  intros ops weapon _.
  destruct (base_untouched_run ops new) as [Hd Hf]; [split; reflexivity|].
  split; [exact Hd|]. split; [exact Hf|].
  unfold shootDamage, shootInterval. rewrite Hd, Hf. split.
  - rewrite Qmult_1_r. apply Qfloor_Z.
  - field.
Qed.

Lemma shoot_unboosted_witness :
  let ops := [ApplyPowerUp DAMAGE_BOOST (3 # 2) 10000; SwitchWeapon 1] in
  shootDamage (mkWeapon "Corn Cannon" 25 400 30) (run ops new) = 25.
Proof.
  intros ops.
  destruct (shoot_unboosted ops (mkWeapon "Corn Cannon" 25 400 30)) as (_ & _ & H & _).
  - reflexivity.
  - exact H.
Defined.

(** C2 at a concrete input.  After a 1.5x damage boost and a 1.4x
    fire-rate boost on a new player the HUD event reports the multipliers
    1.5 and 1.4, but the shot fired at time 1000 carries damage 10 (the
    table value of the Pea Shooter, not 15) and the next shot 120 ms later
    is refused by the unboosted interval of 150 ms (the boosted one would
    be 150 / 1.4, about 107 ms). *)
Theorem shoot_ignores_damage_and_fire_rate_boost :
  let '(p1, ev1) := applyPowerUp DAMAGE_BOOST (3 # 2) 10000 new in
  let '(p2, ev2) := applyPowerUp FIRE_RATE_BOOST (7 # 5) 10000 p1 in
  ev_damageMultiplier ev2 = (3 # 2)%Q /\
  ev_fireRateMultiplier ev2 = (7 # 5)%Q /\
  weaponAt (currentWeapon p2) = Some (mkWeapon "Pea Shooter" 10 150 (-1)) /\
  exists p3,
    shoot 1000 p2 = JS.Return (p3, Some 10) /\
    shoot 1120 p3 = JS.Return (p3, None) /\
    JS.Qltb (1120 - 1000) (150 / (7 # 5)) = false.
Proof.
  vm_compute. repeat split. eexists. repeat split.
Qed.

End PlayerFacts.

(** ** Enemy: the AI state machine *)

Module EnemyFacts.
Import Enemy.

Lemma new_state px py t : state (new px py t) = seeking.
Proof. now destruct t. Qed.

Lemma new_attackRange px py t :
  attackRange (new px py t) = snd (setupStats t).
Proof. now destruct t. Qed.

Lemma state_attemptAttack sc e : state (fst (attemptAttack sc e)) = state e.
Proof. unfold attemptAttack. now destruct (JS.Qltb _ _). Qed.

Lemma state_findTarget sc e : state (findTarget sc e) = state e.
Proof. unfold findTarget. now destruct (scene_player sc). Qed.

(** The transition function of the state machine, read off [updateState]. *)
Lemma state_updateState delta sc e :
  state (fst (updateState delta sc e)) =
  match state e with
  | stunned => if Qle_bool (stateTimer e - delta) 0 then seeking else stunned
  | seeking =>
      let e' := findTarget sc (set_stateTimer e (stateTimer e - delta)) in
      if hasTarget e' && isInRange sc e' then attacking else seeking
  | attacking =>
      if hasTarget e && isInRange sc e then attacking else seeking
  | idle => idle
  end.
Proof.
  unfold updateState. simpl.
  destruct (state e) eqn:S0.
  - exact S0.
  - destruct (_ && _); simpl; [reflexivity|]. now rewrite state_findTarget.
  - change (isInRange sc (set_stateTimer e (stateTimer e - delta)))
      with (isInRange sc e).
    change (hasTarget (set_stateTimer e (stateTimer e - delta))) with (hasTarget e).
    destruct (hasTarget e), (isInRange sc e); simpl; try reflexivity.
    now rewrite state_attemptAttack.
  - destruct (Qle_bool _ 0); simpl; [reflexivity | exact S0].
Qed.

Lemma attackRange_step e o : attackRange (step e o) = attackRange e.
Proof.
  destruct o as [delta sc|amount|px py]; simpl; try reflexivity.
  unfold update, updateState; simpl.
  destruct (state e); simpl; try reflexivity.
  - unfold findTarget. destruct (scene_player sc); simpl;
      match goal with |- context [if ?b then _ else _] => destruct b end; reflexivity.
  - match goal with |- context [if ?b then _ else _] => destruct b end;
      [reflexivity|]. unfold attemptAttack; simpl.
    match goal with |- context [if ?b then _ else _] => destruct b end; reflexivity.
  - match goal with |- context [if ?b then _ else _] => destruct b end; reflexivity.
Qed.

Lemma attackRange_run ops e : attackRange (run ops e) = attackRange e.
Proof.
  revert e. induction ops as [|o ops IH]; intros e; [reflexivity|].
  simpl. now rewrite IH, attackRange_step.
Qed.

Lemma live_step e o : live (state e) -> live (state (step e o)).
Proof.
  unfold live. intros He. destruct o as [delta sc|amount|px py]; simpl.
  - unfold update. rewrite state_updateState.
    destruct (state e); [destruct He as [?|[?|?]]; discriminate| | |].
    + cbv zeta. destruct (_ && _); auto.
    + destruct (_ && _); auto.
    + destruct (Qle_bool _ 0); auto.
  - auto.
  - exact He.
Qed.

Lemma live_run ops e : live (state e) -> live (state (run ops e)).
Proof.
  revert e. induction ops as [|o ops IH]; intros e He; [exact He|].
  simpl. apply IH, live_step, He.
Qed.

(** *** The tests of a frame, in terms of the scene *)

Lemma rangeOf_nonneg t : (0 <= rangeOf t)%Q.
Proof. destruct t; discriminate. Qed.

(** [isInRange] compares the distance to the target with the attack
    range. *)
Lemma isInRange_within t sc e :
  attackRange e = rangeOf t ->
  hasTarget e && isInRange sc e = true <->
  exists p, target e = Some p /\ within t sc e p.
Proof.
  intros Hr. unfold hasTarget, isInRange, within. rewrite Hr.
  destruct (target e) as [p|]; cbn [andb].
  - destruct (coords sc p) as [tx ty] eqn:C; cbn [fst snd].
    assert (H0 : Qle_bool 0 (rangeOf t) = true) by (apply Qle_bool_iff, rangeOf_nonneg).
    rewrite H0. cbn [andb]. rewrite Qle_bool_iff. split.
    + intros H. exists p. rewrite C. now split.
    + intros (q & [= <-] & H). rewrite C in H. exact H.
  - split; [discriminate|]. now intros (q & Hq & _).
Qed.

Lemma target_findTarget sc e : target (findTarget sc e) = aim sc e.
Proof. unfold findTarget, aim. now destruct (scene_player sc). Qed.

Lemma within_same t sc e e' p :
  x e' = x e -> y e' = y e -> within t sc e' p <-> within t sc e p.
Proof. unfold within. now intros -> ->. Qed.

Lemma position_findTarget sc e :
  x (findTarget sc e) = x e /\ y (findTarget sc e) = y e /\
  attackRange (findTarget sc e) = attackRange e.
Proof. unfold findTarget. now destruct (scene_player sc). Qed.

(** The three cases of a frame. *)
Lemma frame_stunned delta sc e :
  state e = stunned ->
  (state (update delta sc e) = seeking <-> (stateTimer e - delta <= 0)%Q) /\
  (state (update delta sc e) = stunned <-> (0 < stateTimer e - delta)%Q).
Proof.
  intros S0. unfold update. rewrite state_updateState, S0.
  destruct (Qle_bool (stateTimer e - delta) 0) eqn:E.
  - apply Qle_bool_iff in E. split; split; try easy. intros H. lra.
  - assert (Hn : ~ (stateTimer e - delta <= 0)%Q)
      by (intros H; apply Qle_bool_iff in H; congruence).
    split; split; try easy. intros _. lra.
Qed.

Lemma frame_seeking t delta sc e :
  attackRange e = rangeOf t -> state e = seeking ->
  (state (update delta sc e) = attacking <->
     exists p, aim sc e = Some p /\ within t sc e p) /\
  (state (update delta sc e) = seeking <->
     ~ exists p, aim sc e = Some p /\ within t sc e p).
Proof.
  intros Hr S0. unfold update. rewrite state_updateState, S0. cbv zeta.
  set (e1 := findTarget sc (set_stateTimer e (stateTimer e - delta))).
  assert (Hiff : hasTarget e1 && isInRange sc e1 = true <->
                 exists p, aim sc e = Some p /\ within t sc e p).
  { rewrite (isInRange_within t).
    - unfold e1. rewrite target_findTarget.
      destruct (position_findTarget sc (set_stateTimer e (stateTimer e - delta)))
        as (Hx & Hy & _).
      split; intros (p & Hp & Hw); exists p; (split; [exact Hp|]);
        [apply (within_same t sc e e1 p) | apply (within_same t sc e e1 p)];
        try exact Hw; first [exact Hx | exact Hy].
    - unfold e1.
      destruct (position_findTarget sc (set_stateTimer e (stateTimer e - delta)))
        as (_ & _ & ->). exact Hr. }
  destruct (hasTarget e1 && isInRange sc e1).
  - assert (H : exists p, aim sc e = Some p /\ within t sc e p) by now apply Hiff.
    split; split; first [easy | intros; tauto].
  - assert (H : ~ exists p, aim sc e = Some p /\ within t sc e p).
    { intros H. apply Hiff in H. discriminate. }
    split; split; first [easy | intros; tauto].
Qed.

Lemma frame_attacking t delta sc e :
  attackRange e = rangeOf t -> state e = attacking ->
  (state (update delta sc e) = seeking <->
     ~ exists p, target e = Some p /\ within t sc e p) /\
  (state (update delta sc e) = attacking <->
     exists p, target e = Some p /\ within t sc e p).
Proof.
  intros Hr S0. unfold update. rewrite state_updateState, S0.
  pose proof (isInRange_within t sc e Hr) as Hiff.
  destruct (hasTarget e && isInRange sc e).
  - assert (H : exists p, target e = Some p /\ within t sc e p) by now apply Hiff.
    split; split; first [easy | intros; tauto].
  - assert (H : ~ exists p, target e = Some p /\ within t sc e p).
    { intros H. apply Hiff in H. discriminate. }
    split; split; first [easy | intros; tauto].
Qed.

(** C3: an enemy starts in [seeking] and, whatever happens to it, is only
    ever in [seeking], [attacking] or [stunned]; [takeDamage] stuns it with
    a 200 ms timer.  A frame moves a stunned enemy to [seeking] exactly
    when its timer has run down to 0, and else leaves it stunned; it moves
    a seeking enemy to [attacking] exactly when the game object it aims at
    (the player of the scene) is no farther away than the attack range of
    the enemy's type in the stat table, and else leaves it seeking; it
    moves an attacking enemy back to [seeking] exactly when it has no
    target within that range, and else leaves it attacking. *)
Theorem enemy_state_machine :
  forall (px py : Q) (t : EnemyType) (ops : list Op),
    let e := run ops (new px py t) in
    state (new px py t) = seeking /\
    (state e = seeking \/ state e = attacking \/ state e = stunned) /\
    (forall amount,
        state (takeDamage amount e) = stunned /\
        stateTimer (takeDamage amount e) = 200%Q) /\
    (forall delta sc,
        (state e = stunned ->
           (state (update delta sc e) = seeking <-> (stateTimer e - delta <= 0)%Q) /\
           (state (update delta sc e) = stunned <-> (0 < stateTimer e - delta)%Q)) /\
        (state e = seeking ->
           (state (update delta sc e) = attacking <->
              exists p, aim sc e = Some p /\ within t sc e p) /\
           (state (update delta sc e) = seeking <->
              ~ exists p, aim sc e = Some p /\ within t sc e p)) /\
        (state e = attacking ->
           (state (update delta sc e) = seeking <->
              ~ exists p, target e = Some p /\ within t sc e p) /\
           (state (update delta sc e) = attacking <->
              exists p, target e = Some p /\ within t sc e p))).
Proof.
  intros px py t ops e.
  assert (Hr : attackRange e = rangeOf t)
    by (unfold e, rangeOf; now rewrite attackRange_run, new_attackRange).
  split; [apply new_state|].
  split; [apply live_run; left; apply new_state|].
  split; [intros amount; split; reflexivity|].
  intros delta sc. split; [|split].
  - apply frame_stunned.
  - now apply frame_seeking.
  - now apply frame_attacking.
Qed.

(** A tomato (range 200) at the origin starts to attack a player 200
    away and not one 201 away; once attacking it goes back to seeking when
    the player is 201 away; a hit stuns it, and it seeks again after
    200 ms. *)
Lemma enemy_state_machine_witness :
  let e0 := new 0 0 tomato in
  let e1 := run [Update 16 (player_at 200 0)] e0 in
  let e2 := run [Update 16 (player_at 200 0); TakeDamage 5; Update 150 (player_at 0 0)] e0 in
  state (update 16 (player_at 200 0) e0) = attacking /\
  state (update 16 (player_at 201 0) e0) = seeking /\
  state e1 = attacking /\
  state (update 16 (player_at 0 201) e1) = seeking /\
  state (update 16 (player_at 120 160) e1) = attacking /\
  state e2 = stunned /\
  state (update 49 (player_at 0 0) e2) = stunned /\
  state (update 50 (player_at 0 0) e2) = seeking.
Proof.
  intros e0 e1 e2.
  destruct (enemy_state_machine 0 0 tomato []) as (_ & _ & _ & F0).
  destruct (enemy_state_machine 0 0 tomato [Update 16 (player_at 200 0)])
    as (_ & _ & _ & F1).
  destruct (enemy_state_machine 0 0 tomato
              [Update 16 (player_at 200 0); TakeDamage 5; Update 150 (player_at 0 0)])
    as (_ & _ & _ & F2).
  cbv zeta in F0, F1, F2. fold e0 in F0. fold e0 e1 in F1. fold e0 e2 in F2.
  assert (S1 : state e1 = attacking).
  { destruct (F0 16%Q (player_at 200 0)) as (_ & [[_ H] _] & _); [reflexivity|].
    apply H. exists O. split; [reflexivity|]. vm_compute. discriminate. }
  assert (S2 : state e2 = stunned) by reflexivity.
  refine (conj _ (conj _ (conj S1 (conj _ (conj _ (conj S2 (conj _ _))))))).
  - destruct (F0 16%Q (player_at 200 0)) as (_ & [[_ H] _] & _); [reflexivity|].
    apply H. exists O. split; [reflexivity|]. vm_compute. discriminate.
  - destruct (F0 16%Q (player_at 201 0)) as (_ & [_ [_ H]] & _); [reflexivity|].
    apply H. intros (p & _ & Hw). vm_compute in Hw. now apply Hw.
  - destruct (F1 16%Q (player_at 0 201)) as (_ & _ & [[_ H] _]); [exact S1|].
    apply H. intros (p & _ & Hw). vm_compute in Hw. now apply Hw.
  - destruct (F1 16%Q (player_at 120 160)) as (_ & _ & [_ [_ H]]); [exact S1|].
    apply H. exists O. split; [reflexivity|]. vm_compute. discriminate.
  - destruct (F2 49%Q (player_at 0 0)) as ([_ [_ H]] & _); [exact S2|].
    apply H. vm_compute. reflexivity.
  - destruct (F2 50%Q (player_at 0 0)) as ([[_ H] _] & _); [exact S2|].
    apply H. vm_compute. discriminate.
Defined.

End EnemyFacts.

(** ** Numbers and strings: printing an integer and reading it back *)

Module NumStrFacts.
Import NumStr.

Lemma digit_val_digit_char d : 0 <= d < 10 -> digit_val (digit_char d) = Some d.
Proof. intros H. each_digit H; reflexivity. Qed.

Lemma is_space_digit_char d : 0 <= d < 10 -> is_space (digit_char d) = false.
Proof. intros H. each_digit H; reflexivity. Qed.

Lemma all_digits_fuel fuel : forall n acc,
  0 <= n -> all_digits acc -> all_digits (digits_fuel fuel n acc).
Proof.
  induction fuel as [|fuel IH]; intros n acc Hn Hacc; [exact Hacc|].
  assert (Hd : all_digits (String (digit_char (n mod 10)) acc)).
  { split; [|exact Hacc]. exists (n mod 10). split; [|reflexivity].
    apply Z.mod_pos_bound. lia. }
  simpl. destruct (n <? 10); [exact Hd|].
  apply IH; [apply Z.div_pos; lia | exact Hd].
Qed.

Lemma digits_fuel_nonempty fuel n acc :
  exists c r, digits_fuel (S fuel) n acc = String c r.
Proof.
  revert n acc. induction fuel as [|fuel IH]; intros n acc; simpl.
  - destruct (n <? 10); eauto.
  - destruct (n <? 10); [eauto|]. apply IH.
Qed.

Lemma digits_fuel_S fuel n acc :
  digits_fuel (S fuel) n acc =
  if n <? 10 then String (digit_char (n mod 10)) acc
  else digits_fuel fuel (n / 10) (String (digit_char (n mod 10)) acc).
Proof. reflexivity. Qed.

Lemma scan_digits_fuel fuel : forall n acc,
  0 <= n < 2 ^ (Z.of_nat fuel + 1) ->
  scan 10 None (digits_fuel (S fuel) n acc) = scan 10 (Some n) acc.
Proof.
  induction fuel as [|fuel IH]; intros n acc Hn.
  - assert (Hn' : n = 0 \/ n = 1) by (change (2 ^ (Z.of_nat 0 + 1)) with 2 in Hn; lia).
    destruct Hn' as [-> | ->]; reflexivity.
  - rewrite digits_fuel_S. destruct (n <? 10) eqn:E.
    + pose proof E as E'. apply Z.ltb_lt in E'. rewrite Z.mod_small by lia.
      cbn [scan]. rewrite digit_val_digit_char by lia.
      rewrite E. reflexivity.
    + apply Z.ltb_ge in E.
      rewrite IH.
      * cbn [scan]. rewrite digit_val_digit_char by (apply Z.mod_pos_bound; lia).
        assert (((n mod 10) <? 10) = true) as ->
          by (apply Z.ltb_lt, Z.mod_pos_bound; lia).
        f_equal. f_equal. pose proof (Z.div_mod n 10). lia.
      * split; [apply Z.div_pos; lia|].
        replace (Z.of_nat (S fuel) + 1) with (Z.succ (Z.of_nat fuel + 1)) in Hn by lia.
        rewrite Z.pow_succ_r in Hn by lia.
        apply Z.div_lt_upper_bound; lia.
Qed.

Lemma scan_digits n : 0 <= n -> scan 10 None (digits n) = Some n.
Proof.
  intros Hn. unfold digits. rewrite scan_digits_fuel; [reflexivity|].
  split; [exact Hn|].
  destruct (Z.eq_dec n 0) as [-> | Hne]; [reflexivity|].
  rewrite Z2Nat.id by apply Z.log2_nonneg.
  replace (Z.log2 n + 1) with (Z.succ (Z.log2 n)) by lia.
  apply Z.log2_spec. lia.
Qed.

(** A decimal string does not start with white space, a sign or [0x]. *)
Lemma parseInt_all_digits s :
  all_digits s -> s <> EmptyString ->
  skip_space s = s /\ strip_sign s = (1, s) /\ strip_radix s = (10, s).
Proof.
  destruct s as [|c r]; [congruence|]. intros [(d & Hd & ->) Hr] _.
  split; [cbn [skip_space]; now rewrite is_space_digit_char|].
  split; [each_digit Hd; reflexivity|].
  destruct r as [|c2 r2]; [each_digit Hd; reflexivity|].
  destruct Hr as [(d2 & Hd2 & ->) _].
  each_digit Hd; try reflexivity. each_digit Hd2; reflexivity.
Qed.

Lemma all_digits_digits n : 0 <= n -> all_digits (digits n) /\ digits n <> EmptyString.
Proof.
  intros Hn. split.
  - apply all_digits_fuel; [exact Hn | exact I].
  - unfold digits. destruct (digits_fuel_nonempty (Z.to_nat (Z.log2 n)) n "")
      as (c & r & ->). discriminate.
Qed.

Lemma parseInt_digits n : 0 <= n -> parseInt (digits n) = Some n.
Proof.
  intros Hn. destruct (all_digits_digits n Hn) as [Ha Hne].
  destruct (parseInt_all_digits _ Ha Hne) as (H1 & H2 & H3).
  unfold parseInt. rewrite H1, H2, H3, scan_digits by exact Hn.
  f_equal. lia.
Qed.

(** [parseInt(n.toString())] is [n]. *)
Lemma parseInt_toString n : parseInt (toString n) = Some n.
Proof.
  unfold toString. destruct (n <? 0) eqn:E.
  - apply Z.ltb_lt in E.
    destruct (all_digits_digits (- n)) as [Ha Hne]; [lia|].
    destruct (parseInt_all_digits _ Ha Hne) as (_ & _ & H3).
    unfold parseInt. cbn [skip_space]. change (is_space "-") with false.
    cbn [strip_sign]. rewrite H3, scan_digits by lia. f_equal. lia.
  - apply Z.ltb_ge in E. now apply parseInt_digits.
Qed.

Lemma toString_nonempty n : toString n <> EmptyString.
Proof.
  unfold toString. destruct (n <? 0) eqn:E; [discriminate|].
  apply Z.ltb_ge in E. now apply all_digits_digits.
Qed.

(** *** Numbers with a fraction *)

Lemma append_String c s r : String c s +:+ r = String c (s +:+ r).
Proof. reflexivity. Qed.

Lemma append_Empty r : "" +:+ r = r.
Proof. reflexivity. Qed.

Lemma append_empty s : s +:+ "" = s.
Proof. induction s as [|c s IH]; [reflexivity|]. now rewrite append_String, IH. Qed.

Lemma digits_fuel_append fuel : forall n acc rest,
  digits_fuel fuel n acc +:+ rest = digits_fuel fuel n (acc +:+ rest).
Proof.
  induction fuel as [|fuel IH]; intros n acc rest; [reflexivity|].
  cbn [digits_fuel]. destruct (n <? 10); [reflexivity|]. now rewrite IH.
Qed.

Lemma scan_stops acc rest : stops rest -> scan 10 acc rest = acc.
Proof. now intros [-> | (r & ->)]. Qed.

(** A printed number starts with a digit, does not start with [0x], and
    [parseInt] reads its integer part. *)
Lemma parseInt_digits_then n rest :
  0 <= n -> stops rest ->
  let s := digits n +:+ rest in
  skip_space s = s /\ strip_sign s = (1, s) /\ strip_radix s = (10, s) /\
  scan 10 None s = Some n.
Proof.
  intros Hn Hrest s.
  assert (Hscan : scan 10 None s = Some n).
  { unfold s, digits. rewrite digits_fuel_append, append_Empty.
    rewrite scan_digits_fuel; [now apply scan_stops|].
    split; [exact Hn|].
    destruct (Z.eq_dec n 0) as [-> | Hne]; [reflexivity|].
    rewrite Z2Nat.id by apply Z.log2_nonneg.
    replace (Z.log2 n + 1) with (Z.succ (Z.log2 n)) by lia.
    apply Z.log2_spec. lia. }
  destruct (all_digits_digits n Hn) as [Ha Hne].
  unfold s in *. clear s. destruct (digits n) as [|c t]; [congruence|]. clear Hne.
  destruct Ha as [(d & Hd & ->) Ht]. rewrite append_String in *.
  split; [cbn [skip_space]; now rewrite is_space_digit_char|].
  split; [each_digit Hd; reflexivity|].
  split; [|exact Hscan].
  destruct t as [|c2 t2].
  - rewrite append_Empty. destruct Hrest as [-> | (r & ->)]; each_digit Hd; reflexivity.
  - destruct Ht as [(d2 & Hd2 & ->) _]. rewrite append_String.
    each_digit Hd; try reflexivity. each_digit Hd2; reflexivity.
Qed.

Lemma parseInt_signed (neg : bool) n rest :
  0 <= n -> stops rest ->
  parseInt ((if neg then "-" else "") +:+ (digits n +:+ rest))
  = Some (if neg then - n else n).
Proof.
  intros Hn Hrest.
  destruct (parseInt_digits_then n rest Hn Hrest) as (H1 & H2 & H3 & H4).
  destruct neg; rewrite ?append_String, ?append_Empty.
  - unfold parseInt. cbn [skip_space]. change (is_space "-") with false.
    cbn [strip_sign]. rewrite H3, H4. f_equal; lia.
  - unfold parseInt. rewrite H1, H2, H3, H4. f_equal; lia.
Qed.

Lemma truncate_comp q q' : (q == q')%Q -> truncate q = truncate q'.
Proof.
  intros E. unfold truncate.
  assert (Hb : Qle_bool 0 q = Qle_bool 0 q').
  { apply eq_true_iff_eq. rewrite !Qle_bool_iff. now rewrite E. }
  rewrite Hb. destruct (Qle_bool 0 q').
  - now apply Qfloor_comp.
  - f_equal. apply Qfloor_comp. now rewrite E.
Qed.

Lemma truncate_inject_Z n : truncate (inject_Z n) = n.
Proof.
  unfold truncate, Qle_bool. cbn [Qnum Qden inject_Z Qopp Qfloor].
  destruct (Z.leb_spec (0 * 1) (n * 1)); rewrite ?Z.div_1_r; lia.
Qed.

(** The integer part of a number in lowest terms. *)
Lemma truncate_Qred q :
  truncate q =
  if Qnum (Qred q) <? 0
  then - (Z.abs (Qnum (Qred q)) / Z.pos (Qden (Qred q)))
  else Z.abs (Qnum (Qred q)) / Z.pos (Qden (Qred q)).
Proof.
  rewrite (truncate_comp q (Qred q)) by (symmetry; apply Qred_correct).
  destruct (Qred q) as [nr dr]. unfold truncate, Qle_bool. cbn [Qnum Qden].
  destruct (Z.ltb_spec nr 0) as [L|L].
  - destruct (Z.leb_spec (0 * Z.pos dr) (nr * 1)) as [L'|_]; [lia|].
    cbn [Qopp Qfloor Qnum Qden]. f_equal. f_equal. lia.
  - destruct (Z.leb_spec (0 * Z.pos dr) (nr * 1)) as [_|L']; [|lia].
    cbn [Qfloor]. f_equal. lia.
Qed.

(** The magnitude of a number, from its lowest terms. *)
Lemma Qabs_Qred q :
  (Qabs q == Z.abs (Qnum (Qred q)) # Qden (Qred q))%Q.
Proof.
  rewrite <- (Qred_correct q) at 1. now destruct (Qred q).
Qed.

Lemma Qred_inject_Z n : Qred (inject_Z n) = inject_Z n.
Proof.
  apply Qcanon.Qred_identity. cbn [Qnum Qden inject_Z]. apply Z.gcd_1_r.
Qed.

Lemma Number_toString_comp q q' :
  (q == q')%Q -> Number_toString q = Number_toString q'.
Proof. intros E. unfold Number_toString. now rewrite (Qred_complete q q' E). Qed.

(** An integer of magnitude at most 2^53 is printed as its digits. *)
Lemma Number_toString_integer n :
  Z.abs n <= 2 ^ 53 -> Number_toString (inject_Z n) = Some (toString n).
Proof.
  intros Hn. unfold Number_toString. rewrite Qred_inject_Z.
  cbn [Qnum Qden inject_Z].
  destruct (Z.eqb_spec (Z.abs n) 0) as [Z0|NZ].
  - assert (n = 0) as -> by lia. reflexivity.
  - cbn [Pos.size_nat decimal_fuel]. change (1 =? 1) with true. cbv iota.
    assert ((Z.abs n <=? 2 ^ 53) = true) as -> by now apply Z.leb_le.
    cbn [andb]. rewrite orb_true_r.
    assert ((10 ^ 21 * 1 <=? Z.abs n) = false) as ->.
    { apply Z.leb_gt. change (2 ^ 53) with 9007199254740992 in Hn.
      change (10 ^ 21 * 1) with 1000000000000000000000. lia. }
    assert ((Z.abs n * 10 ^ 6 <? 1) = false) as -> by (apply Z.ltb_ge; lia).
    cbn [orb]. rewrite Z.div_1_r. unfold toString.
    destruct (Z.ltb_spec n 0); rewrite ?append_String, ?append_Empty.
    + do 3 f_equal. lia.
    + do 2 f_equal. lia.
Qed.

(** The printed form of a number written in full is not empty, and
    [parseInt] reads its integer part. *)
Lemma parseInt_printed q text :
  Number_toString q = Some text ->
  (Qabs q < inject_Z (10 ^ 21))%Q ->
  (q == 0 \/ 1 # 10 ^ 6 <= Qabs q)%Q ->
  text <> EmptyString /\ parseInt text = Some (truncate q).
Proof.
  intros Ht Hhi Hlo.
  pose proof (truncate_Qred q) as Htr. pose proof (Qabs_Qred q) as Habs.
  unfold Number_toString in Ht.
  set (nr := Qnum (Qred q)) in *. set (dr := Qden (Qred q)) in *.
  destruct (Z.eqb_spec (Z.abs nr) 0) as [Z0|NZ].
  - injection Ht as <-. split; [discriminate|].
    rewrite Htr. rewrite Z0. cbn. now destruct (nr <? 0).
  - destruct (decimal_fuel _ _ _ _) as [[m f]|]; [|discriminate].
    destruct (_ || _); [|discriminate].
    assert (Hrange : (10 ^ 21 * Z.pos dr <=? Z.abs nr) || (Z.abs nr * 10 ^ 6 <? Z.pos dr)
                     = false).
    { apply orb_false_iff. split.
      - apply Z.leb_gt. rewrite Habs in Hhi. unfold Qlt in Hhi.
        cbn [Qnum Qden inject_Z] in Hhi. lia.
      - apply Z.ltb_ge. destruct Hlo as [Hz | Hlo].
        + exfalso. apply NZ. rewrite <- (Qred_correct q) in Hz.
          unfold Qeq in Hz. cbn [Qnum Qden] in Hz. fold nr in Hz. lia.
        + rewrite Habs in Hlo. unfold Qle in Hlo. cbn [Qnum Qden] in Hlo.
          change (Z.pos (10 ^ 6)) with (10 ^ 6) in Hlo. lia. }
    rewrite Hrange in Ht. injection Ht as <-.
    assert (Hip : 0 <= Z.abs nr / Z.pos dr) by (apply Z.div_pos; lia).
    assert (Htext :
      exists rest, stops rest /\
        match f with
        | O => digits (Z.abs nr / Z.pos dr)
        | S _ => digits (Z.abs nr / Z.pos dr) +:+ "." +:+ fraction f (m mod 10 ^ Z.of_nat f)
        end = digits (Z.abs nr / Z.pos dr) +:+ rest).
    { destruct f as [|f'].
      - exists EmptyString. split; [now left|]. now rewrite append_empty.
      - eexists. split; [right; eexists; reflexivity|]. reflexivity. }
    destruct Htext as (rest & Hstops & ->).
    split.
    + destruct (all_digits_digits _ Hip) as [_ Hne].
      destruct (digits (Z.abs nr / Z.pos dr)); [congruence|].
      now destruct (nr <? 0).
    + rewrite Htr. now apply parseInt_signed.
Qed.

Lemma whole_truncate q :
  (inject_Z (truncate q) == q)%Q <-> exists n, (q == inject_Z n)%Q.
Proof.
  split.
  - intros E. exists (truncate q). now symmetry.
  - intros (n & E). rewrite (truncate_comp _ _ E), truncate_inject_Z. now symmetry.
Qed.

(** A number written in full reads back through [parseInt] as its
    integer part.  For every number [q] of a magnitude from 10^-6 to below
    10^21 (or 0), [parseInt(q.toString())] is [q] rounded towards zero,
    which is [q] itself exactly when [q] is an integer; an integer of
    magnitude at most 2^53 is printed as its digits. *)
Theorem parseInt_inverts_toString :
  forall (q : Q) (text : string),
    Number_toString q = Some text ->
    (Qabs q < inject_Z (10 ^ 21))%Q ->
    (q == 0 \/ 1 # 10 ^ 6 <= Qabs q)%Q ->
    text <> EmptyString /\
    parseInt text = Some (truncate q) /\
    ((inject_Z (truncate q) == q)%Q <-> exists n, (q == inject_Z n)%Q) /\
    (forall n, (q == inject_Z n)%Q -> Z.abs n <= 2 ^ 53 -> text = toString n).
Proof.
  intros q text Ht Hhi Hlo.
  destruct (parseInt_printed q text Ht Hhi Hlo) as [Hne Hp].
  split; [exact Hne|]. split; [exact Hp|]. split; [apply whole_truncate|].
  intros n E Hn. rewrite (Number_toString_comp _ _ E), Number_toString_integer in Ht
    by exact Hn. congruence.
Qed.

(** 12.75 is printed in full and reads back as 12; 1500 reads back as
    itself. *)
Lemma parseInt_inverts_toString_witness :
  parseInt "12.75" = Some 12 /\ parseInt "1500" = Some 1500.
Proof.
  split.
  - apply (parseInt_inverts_toString (51 # 4) "12.75"); [reflexivity | reflexivity |].
    right. discriminate.
  - apply (parseInt_inverts_toString 1500 "1500"); [reflexivity | reflexivity |].
    right. discriminate.
Defined.

End NumStrFacts.

(** ** GameOverScene: the stored high score *)

Module GameOverSceneFacts.
Import JSON Storage GameOverScene.

Lemma highScoreKey_inj m m' : highScoreKey m = highScoreKey m' -> m = m'.
Proof.
  unfold highScoreKey. rewrite !NumStrFacts.append_String, !NumStrFacts.append_Empty.
  now intros [= E].
Qed.

Lemma statsKey_not_highScoreKey m m' : statsKey m <> highScoreKey m'.
Proof.
  unfold statsKey, highScoreKey. rewrite !NumStrFacts.append_String. discriminate.
Qed.

(** What a [saveHighScore] that writes leaves in the storage. *)
Lemma saveHighScore_writes `{Host} date gameData st text :
  refuses_writes st = false ->
  beats (score gameData) (currentHighScore st (mode gameData)) = true ->
  NumStr.Number_toString (score gameData) = Some text ->
  exists st',
    saveHighScore date gameData st = Some (JS.Return st') /\
    refuses_writes st' = false /\
    getItem st' (highScoreKey (mode gameData)) = Some text /\
    (forall m, m <> mode gameData ->
       getItem st' (highScoreKey m) = getItem st (highScoreKey m)).
Proof.
  intros Hw B Ht. unfold saveHighScore, setItem. rewrite B, Ht, Hw. cbn [refuses_writes].
  eexists. split; [reflexivity|]. split; [reflexivity|]. unfold getItem. cbn [items]. split.
  - rewrite lookup_insert_ne by apply statsKey_not_highScoreKey.
    apply lookup_insert_eq.
  - intros m Hm. rewrite lookup_insert_ne by apply statsKey_not_highScoreKey.
    apply lookup_insert_ne. intros E. apply Hm. symmetry. now apply highScoreKey_inj.
Qed.

(** C8 at a concrete input.  The runner scene passes the distance run as
    the score.  A run of 51 frames of 100 ms ends at 12.75; with no high
    score stored, [saveHighScore] stores the text 12.75, which [parseInt]
    reads back as 12.  The next run ends after 49 frames at 12.25, which
    is less than the stored 12.75 and more than 12: the scene shows the
    banner of a new high score and [saveHighScore] overwrites the item
    with 12.25, so the stored high score has decreased. *)
Theorem saveHighScore_lowers_high_score :
  let first := RunnerGameScene.gameOver (RunnerGameScene.run (repeat 100%Q 51)) in
  let second := RunnerGameScene.gameOver (RunnerGameScene.run (repeat 100%Q 49)) in
  exists st1 st2,
    (score first == 51 # 4)%Q /\ (score second == 49 # 4)%Q /\
    mode first = "endless" /\ mode second = "endless" /\
    saveHighScore (H := RefHost.host) "2024-05-01T10:00:00.000Z" first (holding [])
      = Some (JS.Return st1) /\
    getItem st1 "highScore_endless" = Some "12.75" /\
    currentHighScore st1 "endless" = Some 12 /\
    GameOverMenu.displayHighScore second st1 = GameOverMenu.NewHighScore /\
    saveHighScore (H := RefHost.host) "2024-05-01T10:05:00.000Z" second st1
      = Some (JS.Return st2) /\
    getItem st2 "highScore_endless" = Some "12.25" /\
    (score second < score first)%Q.
Proof.
  do 2 eexists.
  split; [reflexivity|]. split; [reflexivity|].
  split; [reflexivity|]. split; [reflexivity|].
  split; [vm_compute; reflexivity|]. split; [reflexivity|]. split; [reflexivity|].
  split; [reflexivity|].
  split; [vm_compute; reflexivity|]. split; reflexivity.
Qed.

End GameOverSceneFacts.

(** ** GameState: the hit-point clamp *)

Module GameStateFacts.
Import JSON Storage GameState.

Lemma clamped_initial st : clamped (data (initial st)).
Proof. unfold clamped; simpl. split; lra. Qed.

(** [setPlayerHP] clamps into [0, playerMaxHP] whenever that interval is
    not empty. *)
Lemma clamped_setPlayerHP hp w :
  (0 <= playerMaxHP (data w))%Q -> clamped (data (setPlayerHP hp w)).
Proof.
  intros Hmax. unfold clamped, setPlayerHP, JS.Math_max, JS.Math_min; simpl. split.
  - apply Q.le_max_l.
  - apply Q.max_lub; [exact Hmax | apply Q.le_min_r].
Qed.

Lemma clamped_setPlayerMaxHP maxHP w :
  (0 <= maxHP)%Q -> clamped (data w) -> clamped (data (setPlayerMaxHP maxHP w)).
Proof.
  intros Hmax [H0 _]. unfold clamped, setPlayerMaxHP, JS.Math_min; simpl. split.
  - apply Q.min_glb; assumption.
  - apply Q.le_min_r.
Qed.

(** A spread that supplies the hit points within the clamp, or not at
    all, leaves them within the clamp. *)
Lemma clamped_merge p d :
  supplies_clamped (p_playerHP p) (p_playerMaxHP p) -> clamped d -> clamped (merge p d).
Proof.
  unfold supplies_clamped, clamped, merge; simpl.
  destruct (p_playerHP p), (p_playerMaxHP p); simpl; tauto.
Qed.

Lemma clamped_load b w :
  supplies_clamped (b_playerHP b) (b_playerMaxHP b) ->
  clamped (data w) -> clamped (data (load b w)).
Proof.
  intros Hb Hw. unfold load.
  destruct (allocate (b_inventory b) (heap w)) as [h1 inv].
  destruct (allocate (b_flags b) h1) as [h2 fl].
  unfold setData, with_data, with_heap. cbn [data].
  now apply clamped_merge.
Qed.

Lemma clamped_loadFromStorage `{Host} w w' :
  respects_clamp w LoadFromStorage -> step w LoadFromStorage = Some w' ->
  clamped (data w) -> clamped (data w').
Proof.
  cbn [step respects_clamp]. unfold loadFromStorage.
  destruct (stored w) as [parsed|]; [|now intros _ [= <-]].
  intros (b & -> & Hb) [= <-]. now apply clamped_load.
Qed.

Lemma clamped_step `{Host} w o w' :
  respects_clamp w o -> step w o = Some w' -> clamped (data w) -> clamped (data w').
Proof.
  destruct o; try apply clamped_loadFromStorage;
    cbn [step respects_clamp]; intros Ho Hs Hd;
    repeat match type of Hs with
           | (if ?c then _ else _) = _ => destruct c; [|discriminate]
           | (if ?c then _ else _) = _ => destruct c; [discriminate|]
           end;
    injection Hs as <-; try exact Hd.
  - unfold clamped; simpl. split; lra.
  - now apply clamped_merge.
  - apply clamped_setPlayerHP. destruct Hd as [H0 H1].
    now apply Qle_trans with (playerHP (data w)).
  - now apply clamped_setPlayerMaxHP.
  - unfold saveToStorage. now destruct (setItem _ _ _).
Qed.

Lemma clamped_run `{Host} ops : forall w,
  respecting ops w -> clamped (data w) ->
  exists w', run ops w = Some w' /\ clamped (data w').
Proof.
  induction ops as [|o ops IH]; intros w Hops Hd; [now exists w|].
  cbn [respecting run] in *. destruct Hops as [Ho Hr].
  destruct (step w o) as [w1|] eqn:S1; [|contradiction].
  apply (IH w1 Hr). now apply (clamped_step w o w1).
Qed.

(** C1 as stated fails: [setData] assigns the hit points without clamping
    them. *)
Lemma setData_leaves_clamp :
  ~ (forall (ops : list Op) (w : World),
       run (H := RefHost.host) ops (initial (holding [])) = Some w ->
       (0 <= playerHP (data w) /\ playerHP (data w) <= playerMaxHP (data w))%Q).
Proof.
  intros H.
  destruct (H [SetData (mkPartial None None (Some 500%Q) None None None None
                                  None None None None)] _ eq_refl) as [_ H1].
  vm_compute in H1. apply H1. reflexivity.
Qed.

(** So does [loadFromStorage]: a stored blob with [playerHP] 500 takes
    the hit points of a new state to 500, above its maximum of 100. *)
Lemma loadFromStorage_leaves_clamp :
  let blob := JObj [("playerHP", JNum 500)] in
  let st := holding [("vc_game_state_v1", RefHost.print blob)] in
  exists w, run (H := RefHost.host) [LoadFromStorage] (initial st) = Some w /\
            playerHP (data w) = 500%Q /\ playerMaxHP (data w) = 100%Q.
Proof. eexists. split; [reflexivity|]. split; reflexivity. Qed.

(** [setPlayerMaxHP] clamps the hit points from above only: a negative
    maximum takes them below 0. *)
Lemma setPlayerMaxHP_negative_leaves_clamp :
  (playerHP (data (setPlayerMaxHP (-5) (initial (holding [])))) < 0)%Q.
Proof. reflexivity. Qed.

(** C1, amended: after every sequence of calls on a new [GameState],
    [saveToStorage] and [loadFromStorage] among them, in which [setData]
    and the blob that [loadFromStorage] reads supply [playerHP] and
    [playerMaxHP] either not at all or both with 0 <= playerHP <=
    playerMaxHP, and [setPlayerMaxHP] gets a non-negative maximum,
    0 <= playerHP <= playerMaxHP; and in such a state [setPlayerHP(hp)]
    stores [max(0, min(hp, playerMaxHP))], which is again within the
    clamp. *)
Theorem clamp_invariant :
  forall (H : Host) (st : Storage) (ops : list Op),
    respecting ops (initial st) ->
    exists w,
      run ops (initial st) = Some w /\
      (0 <= playerHP (data w) /\ playerHP (data w) <= playerMaxHP (data w))%Q /\
      forall hp,
        playerHP (data (setPlayerHP hp w)) =
          JS.Math_max 0 (JS.Math_min hp (playerMaxHP (data w))) /\
        playerMaxHP (data (setPlayerHP hp w)) = playerMaxHP (data w) /\
        (0 <= playerHP (data (setPlayerHP hp w)) /\
         playerHP (data (setPlayerHP hp w)) <= playerMaxHP (data w))%Q.
Proof.
  intros H st ops Hops.
  destruct (clamped_run ops (initial st) Hops (clamped_initial st)) as (w & Hrun & Hc).
  exists w. split; [exact Hrun|]. split; [exact Hc|]. intros hp.
  split; [reflexivity|]. split; [reflexivity|].
  apply (clamped_setPlayerHP hp w).
  destruct Hc as [H0 H1]. now apply Qle_trans with (playerHP (data w)).
Qed.

Lemma clamp_invariant_witness :
  let ops := [SetPlayerMaxHP 50; SetPlayerHP 80; UpdateScore 100;
              SetData (mkPartial (Some 7%Q) None None None None None None
                                 None None None None);
              SaveToStorage; SetPlayerHP 10; LoadFromStorage] in
  exists w,
    run (H := RefHost.host) ops (initial (holding [])) = Some w /\
    (0 <= playerHP (data w) /\ playerHP (data w) <= playerMaxHP (data w))%Q /\
    playerHP (data w) = 50%Q.
Proof.
  intros ops.
  destruct (clamp_invariant RefHost.host (holding []) ops) as (w & Hrun & Hc & _).
  - cbn [ops respecting respects_clamp].
    split; [discriminate|]. cbn [step]. split; [exact I|].
    split; [exact I|]. split; [exact I|]. split; [exact I|]. split; [exact I|].
    split; [|exact I].
    eexists. split; [vm_compute; reflexivity|]. vm_compute. split; discriminate.
  - exists w. split; [exact Hrun|]. split; [exact Hc|].
    vm_compute in Hrun. injection Hrun as <-. reflexivity.
Defined.

(** *** Saving and loading *)

Lemma of_to_json o : carried o -> of_json (to_json o) = o.
Proof.
  induction 1 as [|[k v] o [j Hv] _ IH]; [reflexivity|].
  cbn [snd] in Hv. subst v.
  change (to_json ((k, value j) :: o)) with ((k, j) :: to_json o).
  change (of_json ((k, j) :: to_json o)) with ((k, value j) :: of_json (to_json o)).
  now rewrite IH.
Qed.

Lemma as_list_enemy_json l : as_list as_enemy (map enemy_json l) = Some l.
Proof.
  induction l as [|[px py id] l IH]; [reflexivity|].
  cbn [map as_list]. rewrite IH. reflexivity.
Qed.

Lemma as_weapon_json w : as_weapon (weapon_json w) = Some w.
Proof. now destruct w as [[n a i]|]. Qed.

(** The blob of a saved record holds every property of it. *)
Lemma as_blob_data_json w :
  as_blob (data_json w) =
  Some (mkBlob (Some (score (data w))) (Some (level (data w)))
               (Some (playerHP (data w))) (Some (playerMaxHP (data w)))
               (Some (to_json (inventoryOf w))) (Some (to_json (flagsOf w)))
               (Some (lastMode (data w)))
               (Some (playerX (data w))) (Some (playerY (data w)))
               (Some (enemies (data w))) (Some (currentWeapon (data w)))).
Proof.
  unfold data_json, as_blob, optional. cbn [obj_get String.eqb Ascii.eqb Bool.eqb].
  cbn [as_number as_object as_string as_enemies].
  now rewrite as_list_enemy_json, as_weapon_json.
Qed.

Lemma deref_app_here (h t : list record) o : deref (h ++ o :: t) (length h) = o.
Proof.
  unfold deref. rewrite lookup_app_r by lia. now rewrite Nat.sub_diag.
Qed.

(** Loading the blob of a saved record sets the record to it, by value,
    in two new objects. *)
Lemma contents_load w later :
  carried (inventoryOf w) -> carried (flagsOf w) ->
  let b := mkBlob (Some (score (data w))) (Some (level (data w)))
                  (Some (playerHP (data w))) (Some (playerMaxHP (data w)))
                  (Some (to_json (inventoryOf w))) (Some (to_json (flagsOf w)))
                  (Some (lastMode (data w)))
                  (Some (playerX (data w))) (Some (playerY (data w)))
                  (Some (enemies (data w))) (Some (currentWeapon (data w))) in
  contents (load b later) = contents w /\
  inventory (data (load b later)) <> flags (data (load b later)).
Proof.
  intros Hi Hf b. unfold load, b, allocate. cbn [b_inventory b_flags].
  rewrite !of_to_json by assumption.
  set (inv := inventoryOf w). set (fl := flagsOf w).
  unfold setData, with_data, with_heap, contents, merge.
  cbn [data heap over b_score b_level b_playerHP b_playerMaxHP b_lastMode b_playerX
       b_playerY b_enemies b_currentWeapon p_score p_level p_playerHP p_playerMaxHP
       p_inventory p_flags p_lastMode p_playerX p_playerY p_enemies p_currentWeapon
       score level playerHP playerMaxHP inventory flags lastMode playerX playerY
       enemies currentWeapon storage].
  assert (E1 : inventoryOf
                 (mkWorld (mkData (score (data w)) (level (data w)) (playerHP (data w))
                             (playerMaxHP (data w)) (length (heap later))
                             (length (heap later ++ [inv])) (lastMode (data w))
                             (playerX (data w)) (playerY (data w)) (enemies (data w))
                             (currentWeapon (data w)))
                          ((heap later ++ [inv]) ++ [fl]) (storage later)) = inv).
  { unfold inventoryOf. cbn [data heap inventory].
    rewrite <- app_assoc. apply deref_app_here. }
  assert (E2 : flagsOf
                 (mkWorld (mkData (score (data w)) (level (data w)) (playerHP (data w))
                             (playerMaxHP (data w)) (length (heap later))
                             (length (heap later ++ [inv])) (lastMode (data w))
                             (playerX (data w)) (playerY (data w)) (enemies (data w))
                             (currentWeapon (data w)))
                          ((heap later ++ [inv]) ++ [fl]) (storage later)) = fl).
  { unfold flagsOf. cbn [data heap flags]. apply deref_app_here. }
  rewrite E1, E2. split; [reflexivity|]. rewrite length_app. cbn. lia.
Qed.

(** C5 as stated fails.  An item that is [NaN] is stored as [null], and
    the loaded record reads [null] for it; an item that is [undefined] is
    a property of the saved record that [JSON.stringify] leaves out of
    the blob, and the loaded record has no such property. *)
Lemma save_then_load_changes_record :
  let w := addItem "shield" undefined (addItem "bonus" NaN (initial (holding []))) in
  exists w1 w2,
    saveToStorage (H := RefHost.host) w = (w1, true) /\
    loadFromStorage (H := RefHost.host) w1 = Some (w2, true) /\
    getItem "bonus" w1 = Some NaN /\
    getItem "bonus" w2 = Some (value JNull) /\
    own "shield" (inventoryOf w1) = Some undefined /\
    own "shield" (inventoryOf w2) = None /\
    contents w2 <> contents w1.
Proof.
  do 2 eexists. split; [reflexivity|]. split; [vm_compute; reflexivity|].
  split; [reflexivity|]. split; [reflexivity|].
  split; [reflexivity|]. split; [reflexivity|]. discriminate.
Qed.

(** C5, amended: for every state whose inventory and flags have no
    property that is [undefined] or [NaN] and whose record the host's JSON
    carries faithfully, if [saveToStorage] succeeds, the blob is stored under
    ['vc_game_state_v1'], the state is as it was, and a later
    [loadFromStorage], whatever record the state holds by then, returns
    true and sets the record to the saved one, property by property, the
    inventory and the flags in new objects with the saved contents. *)
Theorem save_then_load :
  forall (H : Host) (w w1 later : World),
    carried (inventoryOf w) -> carried (flagsOf w) ->
    JSON_parse (JSON_stringify (data_json w)) = Some (data_json w) ->
    JSON_stringify (data_json w) <> EmptyString ->
    saveToStorage w = (w1, true) ->
    storage later = storage w1 ->
    Storage.getItem (storage w1) "vc_game_state_v1" = Some (JSON_stringify (data_json w)) /\
    contents w1 = contents w /\
    exists w2,
      loadFromStorage later = Some (w2, true) /\
      contents w2 = contents w /\
      inventory (data w2) <> flags (data w2).
Proof.
  intros H w w1 later Hi Hf Hrt Hne Hsave Hst.
  unfold saveToStorage, setItem in Hsave.
  destruct (refuses_writes (storage w)); [discriminate|]. injection Hsave as <-.
  cbn [storage] in *.
  assert (G : Storage.getItem
                (mkStorage (<[storageKey := JSON_stringify (data_json w)]>
                              (items (storage w))) false)
                storageKey = Some (JSON_stringify (data_json w)))
    by apply lookup_insert_eq.
  split; [exact G|]. split; [reflexivity|].
  unfold loadFromStorage, stored. rewrite Hst, G. unfold present.
  destruct (String.eqb_spec (JSON_stringify (data_json w)) "") as [E|_];
    [contradiction|].
  rewrite Hrt, as_blob_data_json. eexists. split; [reflexivity|].
  now apply contents_load.
Qed.

Lemma save_then_load_witness :
  let w := sample (holding []) in
  let w1 := fst (saveToStorage (H := RefHost.host) w) in
  exists w2,
    loadFromStorage (H := RefHost.host) (reset w1) = Some (w2, true) /\
    contents w2 = contents w.
Proof.
  intros w w1.
  destruct (save_then_load RefHost.host w w1 (reset w1)) as (_ & _ & w2 & H1 & H2 & _).
  - repeat constructor; eexists; reflexivity.
  - repeat constructor; eexists; reflexivity.
  - vm_compute. reflexivity.
  - vm_compute. discriminate.
  - reflexivity.
  - reflexivity.
  - exists w2. now split.
Defined.

(** *** The objects of the record exist *)





End GameStateFacts.

(** ** JavaScript objects *)

Module JSONFacts.
Import JSON.

Lemma obj_get_set k k' v o :
  obj_get k (obj_set k' v o) = if String.eqb k k' then Some v else obj_get k o.
Proof.
  induction o as [|[k0 v0] o IH]; simpl.
  - now destruct (String.eqb k k').
  - destruct (String.eqb_spec k' k0) as [-> | Hne]; simpl.
    + now destruct (String.eqb k k0).
    + rewrite IH. destruct (String.eqb_spec k k0) as [-> | Hne']; [|reflexivity].
      destruct (String.eqb_spec k0 k') as [E | _]; [now subst|reflexivity].
Qed.

Lemma obj_get_app k a b :
  obj_get k (a ++ b) = match obj_get k a with Some v => Some v | None => obj_get k b end.
Proof.
  induction a as [|[k0 v0] a IH]; [reflexivity|]. simpl.
  now destruct (String.eqb k k0).
Qed.

(** A spread reads like the object spread last, then like the first. *)
Lemma obj_get_spread k b : forall a,
  obj_get k (spread a b) =
  match obj_get k (rev b) with Some v => Some v | None => obj_get k a end.
Proof.
  unfold spread. induction b as [|[k0 v0] b IH]; intros a; [reflexivity|].
  cbn [fold_left rev fst snd]. rewrite IH, obj_get_app, obj_get_set.
  destruct (obj_get k (rev b)); [reflexivity|]. cbn [obj_get].
  now destruct (String.eqb k k0).
Qed.

End JSONFacts.

(** ** Settings: loading *)

Module SettingsFacts.
Import JSON Storage Settings.

(** C6 as stated fails: with no blob stored, [loadSettings] keeps the
    current settings.  Here a write-refusing storage dropped the save of
    [set('masterVolume', 0.3)]. *)
Lemma loadSettings_absent_keeps_current :
  let st0 := mkStorage (items (holding [])) true in
  let '(settings, st) :=
    set (H := RefHost.host) false "masterVolume" (JNum (3 # 10)) getDefaultSettings st0 in
  getItem st STORAGE_KEY = None /\
  obj_get "masterVolume" (loadSettings (H := RefHost.host) settings st)
    = Some (JNum (3 # 10)) /\
  loadSettings (H := RefHost.host) settings st <> getDefaultSettings.
Proof.
  vm_compute. split; [reflexivity|]. split; [reflexivity|]. discriminate.
Qed.

(** C6, amended: [loadSettings] yields the defaults when the stored blob
    fails to parse; when it parses, the defaults merged with the stored
    fields, so that every field the blob lacks has its default value; and
    when no blob is stored it leaves the settings as they are, which in
    the constructor are the defaults. *)
Theorem loadSettings_falls_back_to_defaults :
  forall (H : Host) (settings : obj) (st : Storage),
    (forall saved,
        present (getItem st STORAGE_KEY) = Some saved ->
        JSON_parse saved = None ->
        loadSettings settings st = getDefaultSettings) /\
    (forall saved parsedSettings,
        present (getItem st STORAGE_KEY) = Some saved ->
        JSON_parse saved = Some parsedSettings ->
        loadSettings settings st
          = spread getDefaultSettings (ownProperties parsedSettings) /\
        forall k,
          obj_get k (loadSettings settings st) =
          match storedField k parsedSettings with
          | Some v => Some v
          | None => obj_get k getDefaultSettings
          end) /\
    (present (getItem st STORAGE_KEY) = None ->
        loadSettings settings st = settings /\ new st = getDefaultSettings).
Proof.
  intros H settings st. unfold new, loadSettings. split; [|split].
  - intros saved -> ->. reflexivity.
  - intros saved parsedSettings -> ->. split; [reflexivity|].
    intros k. apply JSONFacts.obj_get_spread.
  - intros ->. split; reflexivity.
Qed.

Lemma loadSettings_falls_back_to_defaults_witness :
  let blob := JObj [("masterVolume", JNum (1 # 5))] in
  let st := holding [("veggie-clash-settings", RefHost.print blob)] in
  obj_get "masterVolume" (loadSettings (H := RefHost.host) [] st) = Some (JNum (1 # 5)) /\
  obj_get "sfxVolume" (loadSettings (H := RefHost.host) [] st) = Some (JNum (8 # 10)).
Proof.
  intros blob st.
  destruct (loadSettings_falls_back_to_defaults RefHost.host [] st) as (_ & H2 & _).
  destruct (H2 (RefHost.print blob) blob) as [_ H3]; [reflexivity | reflexivity |].
  split; [exact (H3 "masterVolume") | exact (H3 "sfxVolume")].
Defined.

End SettingsFacts.

(** ** Settings: key rebinding *)

Module RebindFacts.
Import JSON Storage Settings.

(** C10 at a concrete input.  On the default settings [rebindKey('', 'Z')]
    binds the action named by the empty string to Z; then
    [rebindKey('dash', 'Z')] finds that action, takes the empty name for
    "not found", and returns true with Z bound to both actions, although Z
    was bound to a different action. *)
Theorem rebindKey_overlooks_bound_key :
  exists settings1 st1 settings2 st2,
    rebindKey (H := RefHost.host) "" "Z" getDefaultSettings (holding [])
      = JS.Return (settings1, st1, true) /\
    obj_get "" (keyBindings settings1) = Some (JStr "Z") /\
    obj_get "dash" (keyBindings settings1) = Some (JStr "SPACE") /\
    rebindKey (H := RefHost.host) "dash" "Z" settings1 st1
      = JS.Return (settings2, st2, true) /\
    obj_get "" (keyBindings settings2) = Some (JStr "Z") /\
    obj_get "dash" (keyBindings settings2) = Some (JStr "Z").
Proof.
  do 4 eexists. split; [reflexivity|].
  split; [reflexivity|]. split; [reflexivity|].
  split; [reflexivity|]. split; reflexivity.
Qed.

(** The same with a stored blob that binds one key twice: the first
    action bound to W is the action being rebound, so the second one goes
    unseen and the call returns true. *)
Lemma rebindKey_overlooks_second_binding :
  let blob := JObj [("keyBindings", JObj [("moveUp", JStr "W"); ("moveDown", JStr "W")])] in
  let st := holding [(STORAGE_KEY, RefHost.print blob)] in
  let settings := new (H := RefHost.host) st in
  obj_get "moveDown" (keyBindings settings) = Some (JStr "W") /\
  exists settings' st',
    rebindKey (H := RefHost.host) "moveUp" "W" settings st
      = JS.Return (settings', st', true).
Proof.
  split; [reflexivity|]. do 2 eexists. reflexivity.
Qed.

Lemma find_is_key_Some newKey bindings keys existing :
  List.find (fun act => is_key newKey (obj_get act bindings)) keys = Some existing ->
  obj_get existing bindings = Some (JStr newKey).
Proof.
  intros Hf. apply find_some in Hf as [_ Hk]. unfold is_key in Hk.
  destruct (obj_get existing bindings) as [[| | |s| |]|]; try discriminate.
  now apply String.eqb_eq in Hk as ->.
Qed.

Lemma obj_get_In k (o : obj) v : obj_get k o = Some v -> In k (obj_keys o).
Proof.
  induction o as [|[k0 v0] o IH]; [discriminate|]. simpl.
  destruct (String.eqb_spec k k0) as [-> | _]; [now left|]. intros H. right. now apply IH.
Qed.

Lemma obj_get_assign k k' v o :
  obj_get k (obj_assign k' v o) =
  if String.eqb k' "__proto__" && negb (match obj_get k' o with Some _ => true | None => false end)
  then obj_get k o
  else if String.eqb k k' then Some v else obj_get k o.
Proof.
  unfold obj_assign. destruct (obj_get k' o) eqn:G.
  - rewrite andb_false_r. apply JSONFacts.obj_get_set.
  - rewrite andb_true_r. destruct (String.eqb k' "__proto__"); [reflexivity|].
    apply JSONFacts.obj_get_set.
Qed.

(** Where no key is bound twice and no action has the empty name, the
    check of [rebindKey] is exact: it refuses, changing nothing, exactly
    when the key is bound to another action, and else saves and returns
    true, having changed nothing but the binding of the action, which is
    now the key.  The one action it cannot bind is ['__proto__'] while
    the bindings have no own property of that name: the call returns true
    and the bindings are as before. *)
Theorem rebindKey_exact :
  forall (H : Host) (action newKey : string) (settings : obj) (st : Storage)
         (bindings : obj),
  obj_get "keyBindings" settings = Some (JObj bindings) ->
  (forall a b, obj_get a bindings = Some (JStr newKey) ->
               obj_get b bindings = Some (JStr newKey) -> a = b) ->
  obj_get "" bindings <> Some (JStr newKey) ->
  (bound_elsewhere action newKey bindings /\
   rebindKey action newKey settings st = JS.Return (settings, st, false)) \/
  (~ bound_elsewhere action newKey bindings /\
   exists settings',
     rebindKey action newKey settings st
       = JS.Return (settings', saveSettings settings' st, true) /\
     (forall k, k <> "keyBindings" -> obj_get k settings' = obj_get k settings) /\
     (forall other, other <> action ->
        obj_get other (keyBindings settings') = obj_get other bindings) /\
     obj_get action (keyBindings settings') =
       match obj_get action bindings with
       | None => if String.eqb action "__proto__" then None else Some (JStr newKey)
       | Some _ => Some (JStr newKey)
       end).
Proof.
  intros H action newKey settings st bindings Hkb Hinj Hempty.
  assert (Hbind :
    exists settings',
      settings' = obj_set "keyBindings" (JObj (obj_assign action (JStr newKey) bindings))
                          settings /\
      (forall k, k <> "keyBindings" -> obj_get k settings' = obj_get k settings) /\
      (forall other, other <> action ->
         obj_get other (keyBindings settings') = obj_get other bindings) /\
      obj_get action (keyBindings settings') =
        match obj_get action bindings with
        | None => if String.eqb action "__proto__" then None else Some (JStr newKey)
        | Some _ => Some (JStr newKey)
        end).
  { eexists. split; [reflexivity|]. split; [|split].
    - intros k Hk. rewrite JSONFacts.obj_get_set.
      destruct (String.eqb_spec k "keyBindings"); [contradiction | reflexivity].
    - intros other Ho. unfold keyBindings.
      rewrite JSONFacts.obj_get_set, String.eqb_refl, obj_get_assign.
      destruct (String.eqb_spec other action); [contradiction|].
      now destruct (_ && _).
    - unfold keyBindings. rewrite JSONFacts.obj_get_set, String.eqb_refl, obj_get_assign.
      rewrite String.eqb_refl.
      destruct (obj_get action bindings) eqn:G.
      + now rewrite andb_false_r.
      + rewrite andb_true_r. now destruct (String.eqb action "__proto__"). }
  destruct Hbind as (settings' & -> & Hframe & Hother & Haction).
  unfold rebindKey. rewrite Hkb.
  destruct (List.find _ _) as [existing|] eqn:Hf.
  - pose proof (find_is_key_Some _ _ _ _ Hf) as Hex.
    destruct (String.eqb_spec existing "") as [-> | Hne]; [contradiction|].
    destruct (String.eqb_spec existing action) as [-> | Hna]; simpl.
    + right. split.
      * intros (other & Ho & Hb). apply Ho. now apply Hinj.
      * eexists. split; [reflexivity|]. now split.
    + left. split; [|reflexivity]. now exists existing.
  - right. split.
    + intros (other & Ho & Hb).
      pose proof (find_none _ _ Hf other (obj_get_In _ _ _ Hb)) as Hk.
      unfold is_key in Hk. rewrite Hb, String.eqb_refl in Hk. discriminate.
    + eexists. split; [reflexivity|]. now split.
Qed.

Lemma rebindKey_exact_witness :
  bound_elsewhere "dash" "Q" (keyBindings getDefaultSettings) /\
  rebindKey (H := RefHost.host) "dash" "Q" getDefaultSettings (holding [])
    = JS.Return (getDefaultSettings, holding [], false).
Proof.
  destruct (rebindKey_exact RefHost.host "dash" "Q" getDefaultSettings (holding [])
              (keyBindings getDefaultSettings)) as [[H1 H2] | [H1 _]].
  - reflexivity.
  - intros a b Ha Hb.
    assert (Hq : forall c, obj_get c (keyBindings getDefaultSettings) = Some (JStr "Q") ->
                           c = "weaponPrev").
    { intros c. cbn.
      repeat match goal with
             | |- (if String.eqb c ?k then _ else _) = _ -> _ =>
                 destruct (String.eqb_spec c k) as [-> | _];
                 [intros Hc; first [reflexivity | discriminate Hc] | ]
             end.
      intros Hc. discriminate Hc. }
    now rewrite (Hq a Ha), (Hq b Hb).
  - discriminate.
  - split; [exact H1 | exact H2].
  - exfalso. apply H1. exists "weaponPrev". split; [discriminate | reflexivity].
Defined.

End RebindFacts.

(** ** MissionManager: loading the progress *)

Module MissionManagerFacts.
Import JSON Storage MissionManager.

(** C7: if the stored progress blob fails to parse, [loadProgress] leaves
    an empty mission list and [lastReset = 0]; if no blob is stored (the
    item is missing or is the empty string, which [if (saved)] takes for
    missing) it sets [lastReset = 0] and leaves the mission list as it is.
    In the constructor, the only caller, the list is still empty, so there
    every stored string that fails to parse ends in the empty list with
    [lastReset = 0]. *)
Theorem loadProgress_falls_back :
  forall (H : Host) (now : Q) (m : Manager) (st : Storage),
    (forall saved,
        present (getItem st STORAGE_KEY) = Some saved ->
        JSON_parse saved = None ->
        missions (loadProgress now m st) = [] /\
        lastReset (loadProgress now m st) = Some (JNum 0)) /\
    (present (getItem st STORAGE_KEY) = None ->
        missions (loadProgress now m st) = missions m /\
        lastReset (loadProgress now m st) = Some (JNum 0)) /\
    (forall saved,
        getItem st STORAGE_KEY = Some saved ->
        JSON_parse saved = None ->
        missions (loadProgress now init st) = [] /\
        lastReset (loadProgress now init st) = Some (JNum 0)).
Proof.
  intros H now m st. unfold loadProgress. split; [|split].
  - intros saved -> ->. split; reflexivity.
  - intros ->. split; reflexivity.
  - intros saved -> Hp. unfold present.
    destruct (String.eqb saved ""); [split; reflexivity|].
    rewrite Hp. split; reflexivity.
Qed.

Lemma loadProgress_falls_back_witness :
  let m := mkManager [JObj [("id", JStr "daily_1"); ("isClaimed", JBool false)]]
                     (Some (JNum 1700000000000)) in
  let broken := holding [("veggieClash_missions", "{ missions: [")] in
  (missions (loadProgress (H := RefHost.host) 1700000500000 m broken) = [] /\
   lastReset (loadProgress (H := RefHost.host) 1700000500000 m broken) = Some (JNum 0)) /\
  (missions (loadProgress (H := RefHost.host) 1700000500000 m (holding [])) = missions m /\
   lastReset (loadProgress (H := RefHost.host) 1700000500000 m (holding []))
     = Some (JNum 0)).
Proof.
  intros m broken. split.
  - destruct (loadProgress_falls_back RefHost.host 1700000500000 m broken) as [H1 _].
    apply (H1 "{ missions: ["); reflexivity.
  - destruct (loadProgress_falls_back RefHost.host 1700000500000 m (holding []))
      as (_ & H2 & _).
    apply H2. reflexivity.
Defined.

Lemma filter_null `{Host} now reset stored :
  In JNull stored -> filter now reset stored = None.
Proof.
  induction stored as [|mission stored IH]; [contradiction|].
  intros [-> | Hin]; [reflexivity|].
  cbn [filter]. rewrite (IH Hin).
  now destruct (keeps now reset mission) as [[|]|].
Qed.

(** The other ways into the [catch] branch: a blob that parses to [null],
    to a value without a mission array, or to a list with a [null]
    mission. *)
Theorem loadProgress_malformed :
  forall (H : Host) (now : Q) (m : Manager) (st : Storage) (saved : string)
         (progress : json),
  present (getItem st STORAGE_KEY) = Some saved ->
  JSON_parse saved = Some progress ->
  (progress = JNull \/
   (forall stored, property "missions" progress <> Some (Some (JArr stored))) \/
   (exists stored, property "missions" progress = Some (Some (JArr stored)) /\
                   In JNull stored)) ->
  loadProgress now m st = fallback.
Proof.
  intros H now m st saved progress Hs Hp Hbad.
  unfold loadProgress. rewrite Hs, Hp.
  destruct Hbad as [-> | [Hno | (stored & Hm & Hin)]]; [reflexivity| |].
  - destruct (property "missions" progress) as [[[| | | |stored|]|]|]; try reflexivity;
      try (now destruct (property "lastReset" progress)).
    now destruct (Hno stored).
  - rewrite Hm. destruct (property "lastReset" progress) as [reset|]; [|reflexivity].
    now rewrite (filter_null now reset stored Hin).
Qed.

Lemma loadProgress_malformed_witness :
  let m := mkManager [JObj [("id", JStr "daily_1")]] (Some (JNum 1700000000000)) in
  let st := holding [(STORAGE_KEY, RefHost.print (JObj [("lastReset", JNum 5)]))] in
  loadProgress (H := RefHost.host) 1700000500000 m st = fallback.
Proof.
  intros m st.
  apply (loadProgress_malformed RefHost.host 1700000500000 m st
           (RefHost.print (JObj [("lastReset", JNum 5)]))
           (JObj [("lastReset", JNum 5)])).
  - reflexivity.
  - reflexivity.
  - right. left. intros stored. discriminate.
Defined.

End MissionManagerFacts.

(** ** Player: health, invulnerability, regeneration, dash *)

Module VitalsFacts.
Import Vitals.

Lemma Qltb_true a b : JS.Qltb a b = true <-> (a < b)%Q.
Proof.
  unfold JS.Qltb. rewrite negb_true_iff, <- not_true_iff_false, Qle_bool_iff.
  split; [apply Qnot_le_lt | apply Qlt_not_le].
Qed.

Lemma Qltb_false a b : JS.Qltb a b = false <-> (b <= a)%Q.
Proof. unfold JS.Qltb. rewrite negb_false_iff. apply Qle_bool_iff. Qed.

Lemma Qle_bool_false a b : Qle_bool a b = false <-> (b < a)%Q.
Proof.
  rewrite <- not_true_iff_false, Qle_bool_iff.
  split; [apply Qnot_le_lt | apply Qlt_not_le].
Qed.

(** The calls of [Player.Op] leave the health alone. *)
Lemma health_visit delta entries : forall p recalculate,
  Player.health (fst (Player.visit delta entries p recalculate)) = Player.health p /\
  Player.maxHealth (fst (Player.visit delta entries p recalculate)) = Player.maxHealth p.
Proof.
  induction entries as [|[k e] rest IH]; intros p recalculate; [now split|].
  cbn [Player.visit]. destruct (Qle_bool _ 0).
  - destruct (IH (Player.removePowerUp k
                    (Player.set_activePowerUps p
                       (Player.elapse k delta (Player.activePowerUps p)))) true) as [H1 H2].
    rewrite H1, H2. unfold Player.removePowerUp.
    now destruct (Player.Map_get k _).
  - destruct (IH (Player.set_activePowerUps p
                    (Player.elapse k delta (Player.activePowerUps p))) recalculate)
      as [H1 H2].
    now rewrite H1, H2.
Qed.

Lemma health_recalculateStats p :
  Player.health (fst (Player.recalculateStats p)) = Player.health p /\
  Player.maxHealth (fst (Player.recalculateStats p)) = Player.maxHealth p.
Proof.
  unfold Player.recalculateStats. now destruct (Player.cappedMultipliers p) as [[? ?] ?].
Qed.

Lemma health_updatePowerUps delta p :
  Player.health (fst (Player.updatePowerUps delta p)) = Player.health p /\
  Player.maxHealth (fst (Player.updatePowerUps delta p)) = Player.maxHealth p.
Proof.
  unfold Player.updatePowerUps.
  pose proof (health_visit delta (Player.activePowerUps p) p false) as Hv.
  destruct (Player.visit _ _ _ _) as [p' [|]]; [|exact Hv].
  pose proof (health_recalculateStats p') as Hr.
  destruct (Player.recalculateStats p') as [p'' ev]. simpl in *.
  destruct Hv as [Hv1 Hv2], Hr as [Hr1 Hr2]. split; congruence.
Qed.

Lemma health_step p o :
  Player.health (Player.step p o) = Player.health p /\
  Player.maxHealth (Player.step p o) = Player.maxHealth p.
Proof.
  destruct o as [t mu d|delta|now|d]; simpl.
  - unfold Player.applyPowerUp.
    destruct (Player.Map_get t _);
      match goal with |- context [Player.recalculateStats ?q] =>
        destruct (health_recalculateStats q) as [H1 H2]; now rewrite H1, H2 end.
  - apply health_updatePowerUps.
  - unfold Player.shoot. destruct (Player.weaponAt _); [|now split].
    destruct (JS.Qltb _ _); [now split|]. now destruct (_ && _).
  - unfold Player.switchWeapon, Player.updateWeaponStats.
    now destruct (Player.weaponAt _).
Qed.


Lemma healthy_handleRegeneration now delta v :
  healthy v -> healthy (fst (handleRegeneration now delta v)).
Proof.
  intros [[H0 H1] Hm]. unfold handleRegeneration.
  destruct (_ && _); [|now repeat split].
  destruct (Qle_bool 1000 _); [|now repeat split].
  unfold healthy, health, maxHealth in *; simpl. split; [|exact Hm]. split.
  - apply Q.min_glb; [now apply Qle_trans with (Player.health (player v))|].
    unfold PLAYER_REGEN_RATE. lra.
  - apply Q.le_min_l.
Qed.

Lemma healthy_step v o : sane o -> healthy v -> healthy (step v o).
Proof.
  intros Ho Hv. destruct o as [now delta|now amount|amount| | |now|o]; simpl in *.
  - unfold update.
    pose proof (healthy_handleRegeneration now delta (updateTimers delta v)) as Hr.
    destruct (handleRegeneration now delta (updateTimers delta v)) as [v' r].
    unfold healthy, health, maxHealth in *; simpl in *.
    destruct (health_updatePowerUps delta (player v')) as [-> ->]. now apply Hr.
  - unfold takeDamage. destruct (isInvulnerable v); [exact Hv|].
    destruct Hv as [[H0 H1] Hm]. unfold healthy, health, maxHealth in *; simpl.
    split; [|exact Hm]. split; [apply Q.le_max_l|].
    apply Q.max_lub; [now apply Qle_trans with (Player.health (player v)) | lra].
  - destruct Hv as [[H0 H1] Hm]. unfold healthy, health, maxHealth in *; simpl.
    split; [|exact Hm]. split; [|apply Q.le_min_l].
    apply Q.min_glb; [now apply Qle_trans with (Player.health (player v)) | lra].
  - unfold dash. now destruct (_ || _).
  - exact Hv.
  - unfold handlePlayerEnemyCollision, takeDamage.
    destruct (isInvulnerable v); simpl; [exact Hv|].
    destruct Hv as [[H0 H1] Hm]. unfold healthy, health, maxHealth in *; simpl.
    split; [|exact Hm]. split; [apply Q.le_max_l|].
    apply Q.max_lub; [now apply Qle_trans with (Player.health (player v)) | lra].
  - unfold healthy, health, maxHealth in *; simpl.
    now destruct (health_step (player v) o) as [-> ->].
Qed.

(** Whatever happens to a new player, with damage and healing amounts that
    are not negative, the health stays between 0 and the maximum of 100. *)
Theorem player_health_within_bounds :
  forall ops : list Op,
    Forall sane ops ->
    (0 <= health (run ops new) /\ health (run ops new) <= maxHealth (run ops new))%Q /\
    maxHealth (run ops new) = 100%Q.
Proof.
  intros ops Hops. change (healthy (run ops new)).
  assert (H : forall v, healthy v -> healthy (run ops v)).
  { induction Hops as [|o ops Ho Hops IH]; intros v Hv; [exact Hv|].
    simpl. apply IH. now apply healthy_step. }
  apply H. unfold healthy, health, maxHealth; simpl.
  repeat split; first [reflexivity | unfold Player.PLAYER_MAX_HEALTH; lra].
Qed.

Lemma player_health_within_bounds_witness :
  let ops := [TakeDamage 1000 30; Update 1016 16; Collide 1020; Update 2000 600;
              TakeDamage 2001 90; ApplyHeal 25] in
  (0 <= health (run ops new) /\ health (run ops new) <= maxHealth (run ops new))%Q.
Proof.
  intros ops. apply (player_health_within_bounds ops).
  repeat constructor; simpl; lra.
Defined.

(** *** Regeneration *)

Lemma regenTimer_update now delta v :
  (0 <= delta < 1000)%Q -> (regenTimer v < 1000)%Q ->
  snd (update now delta v) = None /\ (regenTimer (fst (update now delta v)) < 1000)%Q.
Proof.
  intros Hd Hr. unfold update, handleRegeneration.
  assert (Hr' : (regenTimer (updateTimers delta v) + delta < 1000)%Q).
  { unfold updateTimers; simpl. destruct (JS.Qltb 0 (regenTimer v)) eqn:E.
    - lra.
    - apply Qltb_false in E. lra. }
  assert (Hr'' : (regenTimer (updateTimers delta v) < 1000)%Q) by lra.
  destruct (_ && _); [|now split].
  destruct (Qle_bool 1000 _) eqn:E; [|now split].
  apply Qle_bool_iff in E. lra.
Qed.

Lemma regenTimer_step v o :
  short_frame o -> (regenTimer v < 1000)%Q -> (regenTimer (step v o) < 1000)%Q.
Proof.
  intros Ho Hr. destruct o as [now delta|now amount|amount| | |now|o]; simpl in *;
    try exact Hr.
  - now apply regenTimer_update.
  - unfold takeDamage. destruct (isInvulnerable v); simpl; [exact Hr | lra].
  - unfold dash. now destruct (_ || _).
  - unfold handlePlayerEnemyCollision, takeDamage.
    destruct (isInvulnerable v); simpl; [exact Hr | lra].
Qed.

Lemma health_update_None now delta v :
  snd (update now delta v) = None -> health (fst (update now delta v)) = health v.
Proof.
  unfold update, handleRegeneration.
  assert (Hw : health (updateTimers delta v) = health v) by reflexivity.
  revert Hw. generalize (updateTimers delta v). intros w Hw.
  destruct (_ && _).
  - destruct (Qle_bool 1000 _); cbn [fst snd]; [discriminate|]. intros _.
    unfold health in *. cbn [player].
    destruct (health_updatePowerUps delta (player w)) as [H1 _]. now rewrite H1.
  - cbn [fst snd]. intros _. unfold health in *. cbn [player].
    destruct (health_updatePowerUps delta (player w)) as [H1 _]. now rewrite H1.
Qed.

(** [update] takes from the regeneration timer what [handleRegeneration]
    adds to it in the same frame, so with frames shorter than a second the
    timer never reaches the second it waits for: whatever happened to a new
    player, such a frame regenerates no health.  (A frame of a second or
    more, on a timer at 0, does.) *)
Theorem regeneration_needs_a_long_frame :
  forall (ops : list Op) (now delta : Q),
    Forall short_frame ops ->
    (0 <= delta < 1000)%Q ->
    snd (update now delta (run ops new)) = None /\
    health (fst (update now delta (run ops new))) = health (run ops new).
Proof.
  intros ops now delta Hops Hd.
  assert (Hr : (regenTimer (run ops new) < 1000)%Q).
  { assert (H : forall v, (regenTimer v < 1000)%Q -> (regenTimer (run ops v) < 1000)%Q).
    { induction Hops as [|o ops Ho Hops IH]; intros v Hv; [exact Hv|].
      simpl. apply IH. now apply regenTimer_step. }
    apply H. simpl. lra. }
  destruct (regenTimer_update now delta (run ops new) Hd Hr) as [Hn _].
  split; [exact Hn | now apply health_update_None].
Qed.

Lemma regeneration_needs_a_long_frame_witness :
  let ops := [TakeDamage 1000 30; Update 7000 16; Update 7016 17] in
  snd (update 7033 16 (run ops new)) = None /\
  snd (update 7033 1000 (run [TakeDamage 1000 30] new)) = Some 71%Q.
Proof.
  intros ops. split.
  - apply (regeneration_needs_a_long_frame ops 7033 16).
    + repeat constructor; simpl; lra.
    + lra.
  - reflexivity.
Defined.

(** *** Invulnerability *)

Lemma elapsed_nonneg ops : Forall hit_or_frame ops -> (0 <= elapsed ops)%Q.
Proof.
  induction 1 as [|o ops Ho _ IH]; simpl; [lra|].
  destruct o; simpl in *; try exact IH; try contradiction. lra.
Qed.

Lemma invulnerable_window ops : forall v,
  Forall hit_or_frame ops ->
  (elapsed ops < invulnerabilityTime v)%Q ->
  (invulnerabilityTime v <= 1000)%Q ->
  (regenTimer v < 1000)%Q ->
  health (run ops v) = health v /\ isInvulnerable (run ops v) = true.
Proof.
  induction ops as [|o ops IH]; intros v Hops Hel Hinv Hr.
  - simpl in *. split; [reflexivity|]. now apply Qltb_true.
  - inversion Hops as [|? ? Ho Hops']; subst.
    pose proof (elapsed_nonneg ops Hops') as Hnn.
    destruct o as [now delta|now amount|amount| | |now|o]; simpl in Ho, Hel;
      try contradiction.
    + assert (Hpos : JS.Qltb 0 (invulnerabilityTime v) = true) by (apply Qltb_true; lra).
      assert (Hd : (0 <= delta < 1000)%Q) by lra.
      destruct (regenTimer_update now delta v Hd Hr) as [Hn Hr'].
      assert (Hh : health (fst (update now delta v)) = health v)
        by now apply health_update_None.
      assert (Hi : invulnerabilityTime (fst (update now delta v))
                   = (invulnerabilityTime v - delta)%Q).
      { unfold update, handleRegeneration.
        destruct (_ && _); simpl; [destruct (Qle_bool 1000 _); simpl|];
          now rewrite Hpos. }
      simpl. destruct (IH (fst (update now delta v))) as [H1 H2];
        [exact Hops' | rewrite Hi; lra | rewrite Hi; lra | exact Hr' |].
      split; [now rewrite H1 | exact H2].
    + assert (Hpos : isInvulnerable v = true) by (apply Qltb_true; lra).
      simpl. unfold takeDamage. rewrite Hpos. now apply IH.
    + assert (Hpos : isInvulnerable v = true) by (apply Qltb_true; lra).
      simpl. unfold handlePlayerEnemyCollision. rewrite Hpos. simpl. now apply IH.
Qed.

(** A hit makes the player invulnerable for 500 ms of frames: the hits and
    collisions that follow it within frames of less than 500 ms in total
    take no health. *)
Theorem hit_grants_invulnerability :
  forall (now amount : Q) (v : Vitals) (ops : list Op),
    isInvulnerable v = false ->
    Forall hit_or_frame ops ->
    (elapsed ops < 500)%Q ->
    health (takeDamage now amount v) = JS.Math_max 0 (health v - amount) /\
    health (run ops (takeDamage now amount v)) = health (takeDamage now amount v) /\
    isInvulnerable (run ops (takeDamage now amount v)) = true.
Proof.
  intros now amount v ops Hv Hops Hel.
  assert (Ht : takeDamage now amount v =
               mkVitals (set_health (player v) (JS.Math_max 0 (health v - amount)))
                        (isDashing v) (dashCooldown v) 500 0 now)
    by (unfold takeDamage; now rewrite Hv).
  split; [now rewrite Ht|].
  apply invulnerable_window; [exact Hops | | |]; rewrite Ht; simpl; lra.
Qed.

Lemma hit_grants_invulnerability_witness :
  let ops := [Update 1016 16; TakeDamage 1017 40; Update 1400 400; Collide 1401] in
  health (run ops (takeDamage 1000 30 new)) = health (takeDamage 1000 30 new).
Proof.
  intros ops.
  destruct (hit_grants_invulnerability 1000 30 new ops) as (_ & H & _).
  - reflexivity.
  - repeat constructor; simpl; lra.
  - reflexivity.
  - exact H.
Defined.

(** *** Dash *)

Lemma dashCooldown_window ops : forall v,
  Forall hit_or_frame ops ->
  (elapsed ops < dashCooldown v)%Q ->
  (0 < dashCooldown (run ops v))%Q.
Proof.
  induction ops as [|o ops IH]; intros v Hops Hel; [exact Hel|].
  inversion Hops as [|? ? Ho Hops']; subst.
  pose proof (elapsed_nonneg ops Hops') as Hnn.
  destruct o as [now delta|now amount|amount| | |now|o]; simpl in Ho, Hel;
    try contradiction; simpl; apply IH; try exact Hops'.
  - assert (Hpos : JS.Qltb 0 (dashCooldown v) = true) by (apply Qltb_true; lra).
    assert (Hc : dashCooldown (fst (update now delta v)) = (dashCooldown v - delta)%Q).
    { unfold update, handleRegeneration.
      destruct (_ && _); [destruct (Qle_bool 1000 _)|]; cbn; now rewrite Hpos. }
    rewrite Hc. lra.
  - unfold takeDamage. now destruct (isInvulnerable v).
  - unfold handlePlayerEnemyCollision, takeDamage. now destruct (isInvulnerable v).
Qed.

(** When a dash has ended, the next one is refused, and changes nothing,
    until the frames since add up to the cooldown of 1000 ms; with the
    cooldown run out and no dash under way, it starts and makes the player
    invulnerable. *)
Theorem dash_waits_for_cooldown :
  forall (v : Vitals) (ops : list Op),
    Forall hit_or_frame ops ->
    (elapsed ops < 1000)%Q ->
    dash (run ops (dashComplete v)) = (run ops (dashComplete v), false) /\
    (forall w, isDashing w = false -> (dashCooldown w <= 0)%Q ->
       snd (dash w) = true /\ isDashing (fst (dash w)) = true /\
       isInvulnerable (fst (dash w)) = true).
Proof.
  intros v ops Hops Hel. split.
  - pose proof (dashCooldown_window ops (dashComplete v) Hops Hel) as Hc.
    apply Qltb_true in Hc. unfold dash. rewrite Hc. now rewrite orb_true_r.
  - intros w Hw Hc. apply Qltb_false in Hc. unfold dash. rewrite Hw, Hc. now cbn.
Qed.

Lemma dash_waits_for_cooldown_witness :
  let ops := [Update 16 16; Update 516 500; Collide 520; Update 920 400] in
  snd (dash (run ops (dashComplete (fst (dash new))))) = false.
Proof.
  intros ops.
  destruct (dash_waits_for_cooldown (fst (dash new)) ops) as [H _].
  - repeat constructor; simpl; lra.
  - reflexivity.
  - now rewrite H.
Defined.

End VitalsFacts.

(** ** Player: ammunition, speed and the life of a power-up *)

Module PlayerRunsFacts.
Import Player PlayerFacts PlayerRuns.

Lemma visit_fields delta entries : forall p recalculate,
  fst (visit delta entries p recalculate) =
  set_activePowerUps p (activePowerUps (fst (visit delta entries p recalculate))).
Proof.
  induction entries as [|[k e] rest IH]; intros p recalculate; [now destruct p|].
  cbn [visit]. destruct (Qle_bool _ 0).
  - rewrite IH at 1. unfold removePowerUp. now destruct (Map_get k _).
  - now rewrite IH at 1.
Qed.

Lemma updatePowerUps_fields delta p :
  fst (updatePowerUps delta p) =
  set_moveSpeed (set_activePowerUps p (activePowerUps (fst (updatePowerUps delta p))))
                (moveSpeed (fst (updatePowerUps delta p))).
Proof.
  unfold updatePowerUps.
  pose proof (visit_fields delta (activePowerUps p) p false) as Hv.
  destruct (visit _ _ _ _) as [p' [|]]; simpl in Hv.
  - unfold recalculateStats. destruct (cappedMultipliers p') as [[? ?] ?]. simpl.
    now rewrite Hv.
  - simpl. assert (Hm : moveSpeed p' = moveSpeed p) by (now rewrite Hv).
    rewrite Hm. rewrite Hv at 1. reflexivity.
Qed.

Lemma applyPowerUp_fields t mu d p :
  fst (applyPowerUp t mu d p) =
  set_moveSpeed (set_activePowerUps p (activePowerUps (fst (applyPowerUp t mu d p))))
                (moveSpeed (fst (applyPowerUp t mu d p))).
Proof.
  unfold applyPowerUp, recalculateStats.
  destruct (Map_get t _); destruct (cappedMultipliers _) as [[? ?] ?]; reflexivity.
Qed.

(** *** Ammunition *)


Lemma loaded_fields p m v : loaded p -> loaded (set_moveSpeed (set_activePowerUps p m) v).
Proof. intros H; exact H. Qed.

Lemma weaponAt_Some i : 0 <= i < 3 -> exists weapon, weaponAt i = Some weapon /\ -1 <= ammo weapon.
Proof.
  intros Hi.
  assert (H : i = 0 \/ i = 1 \/ i = 2) by lia.
  destruct H as [-> | [-> | ->]]; eexists; (split; [reflexivity | simpl; lia]).
Qed.

Lemma loaded_step p o : in_range o -> loaded p -> loaded (step p o).
Proof.
  intros Ho Hp. destruct o as [t mu d|delta|now|d]; simpl in *.
  - rewrite applyPowerUp_fields. now apply loaded_fields.
  - rewrite updatePowerUps_fields. now apply loaded_fields.
  - destruct Hp as (w & Hw & Hm & Hinf & Hfin). unfold shoot. rewrite Hw.
    destruct (JS.Qltb _ _); [now exists w|].
    destruct (Z.eqb_spec (ammo w) (-1)) as [Ea|Ea]; cbn [negb andb].
    + exists w. cbn. repeat split; try assumption; try lia; intros; try contradiction; lia.
    + specialize (Hfin Ea). destruct (Z.leb_spec (currentAmmo p) 0) as [Ec|Ec].
      * exists w. cbn. repeat split; try assumption; try lia; intros; try contradiction; lia.
      * exists w. cbn. repeat split; try assumption; try lia; intros; try contradiction; lia.
  - destruct Hp as (w & Hw & _).
    assert (Hc : 0 <= currentWeapon p < 3).
    { unfold weaponAt in Hw. destruct (currentWeapon p <? 0) eqn:E; [discriminate|].
      apply Z.ltb_ge in E. split; [exact E|].
      assert (Hn : (Z.to_nat (currentWeapon p) < 3)%nat).
      { apply (nth_error_Some weapons). rewrite Hw. discriminate. }
      lia. }
    unfold switchWeapon, updateWeaponStats, JS.rem. cbn [set_weapon currentWeapon].
    change (Z.of_nat (List.length weapons)) with 3.
    assert (Hr : 0 <= Z.rem (currentWeapon p + d + 3) 3 < 3).
    { rewrite Z.rem_mod_nonneg by lia. apply Z.mod_pos_bound. lia. }
    destruct (weaponAt_Some _ Hr) as (w' & Hw' & Ha). rewrite Hw'. simpl.
    exists w'. simpl. repeat split; try assumption; lia.
Qed.

(** The ammunition count stays within the clip: after any calls on a new
    player (weapon switches by -3 or more) the current weapon is one of the
    table, [maxAmmo] is its clip, an infinite weapon shows -1 and a finite
    one between 0 and its clip. *)
Theorem ammo_stays_within_clip :
  forall ops : list Op,
    Forall in_range ops ->
    exists weapon,
      weaponAt (currentWeapon (run ops new)) = Some weapon /\
      maxAmmo (run ops new) = ammo weapon /\
      (ammo weapon = -1 -> currentAmmo (run ops new) = -1) /\
      (ammo weapon <> -1 -> 0 <= currentAmmo (run ops new) <= ammo weapon).
Proof.
  intros ops Hops. change (loaded (run ops new)).
  assert (H : forall p, loaded p -> loaded (run ops p)).
  { induction Hops as [|o ops Ho Hops IH]; intros p Hp; [exact Hp|].
    simpl. apply IH. now apply loaded_step. }
  apply H. exists (mkWeapon "Pea Shooter" 10 150 (-1)).
  repeat split; try reflexivity; intros Hne; now elim Hne.
Qed.

Lemma ammo_stays_within_clip_witness :
  let ops := [SwitchWeapon (-1); Shoot 1000; Shoot 2000; SwitchWeapon 1; Shoot 3000] in
  exists weapon,
    weaponAt (currentWeapon (run ops new)) = Some weapon /\
    maxAmmo (run ops new) = ammo weapon.
Proof.
  intros ops.
  destruct (ammo_stays_within_clip ops) as (w & H1 & H2 & _).
  - repeat constructor; simpl; lia.
  - exists w. now split.
Defined.

(** *** Speed *)

Lemma stack_elapse k delta m : forall acc, stack (elapse k delta m) acc = stack m acc.
Proof.
  induction m as [|[k' e] m IH]; intros [[dm sm] fm]; [reflexivity|].
  cbn [elapse]. destruct (PowerUpType_eqb k k'); [reflexivity|].
  cbn [stack]. apply IH.
Qed.

(** While the loop of [updatePowerUps] removes nothing, the multipliers in
    the map are the ones it started with. *)
Lemma stack_visit delta entries : forall p recalculate,
  snd (visit delta entries p recalculate) = false ->
  forall acc, stack (activePowerUps (fst (visit delta entries p recalculate))) acc =
              stack (activePowerUps p) acc.
Proof.
  assert (Ht : forall es q, snd (visit delta es q true) = true).
  { intros es. induction es as [|[k e] rest IH]; intros q; [reflexivity|].
    cbn [visit]. destruct (Qle_bool _ 0); apply IH. }
  induction entries as [|[k e] rest IH]; intros p recalculate Hs acc; [reflexivity|].
  cbn [visit] in *. destruct (Qle_bool _ 0).
  - rewrite Ht in Hs. discriminate.
  - rewrite (IH _ _ Hs). cbn [set_activePowerUps activePowerUps]. apply stack_elapse.
Qed.


Lemma in_step_recalculateStats p :
  baseMoveSpeed p = PLAYER_SPEED -> in_step (fst (recalculateStats p)).
Proof.
  intros Hb. unfold in_step, speedMultiplier.
  assert (Hc : cappedMultipliers (fst (recalculateStats p)) = cappedMultipliers p).
  { assert (Hs : forall v, cappedMultipliers (set_moveSpeed p v) = cappedMultipliers p)
      by reflexivity.
    unfold recalculateStats. destruct (cappedMultipliers p) as [[? ?] ?] eqn:E.
    cbn [fst]. now rewrite Hs. }
  rewrite Hc. unfold recalculateStats.
  destruct (cappedMultipliers p) as [[dm sm] fm]. simpl. now split.
Qed.

Lemma in_step_step p o : in_step p -> in_step (step p o).
Proof.
  intros [Hm Hb]. destruct o as [t mu d|delta|now|d]; simpl.
  - unfold applyPowerUp.
    destruct (Map_get t _); apply in_step_recalculateStats; exact Hb.
  - unfold updatePowerUps.
    pose proof (visit_fields delta (activePowerUps p) p false) as Hv.
    pose proof (stack_visit delta (activePowerUps p) p false) as Hs.
    destruct (visit _ _ _ _) as [p' [|]]; simpl in Hv, Hs.
    + pose proof (in_step_recalculateStats p') as Hr.
      destruct (recalculateStats p') as [p'' ev]. apply Hr. now rewrite Hv.
    + simpl. specialize (Hs eq_refl). unfold in_step, speedMultiplier, cappedMultipliers in *.
      rewrite Hv. cbn [set_activePowerUps moveSpeed baseMoveSpeed activePowerUps
                       baseDamageMultiplier baseFireRateMultiplier].
      rewrite Hs. now split.
  - unfold shoot. destruct (weaponAt _); [|now split].
    destruct (JS.Qltb _ _); [now split|]. destruct (_ && _); now split.
  - unfold switchWeapon, updateWeaponStats. destruct (weaponAt _); now split.
Qed.

Lemma stack_speed m : forall dm sm fm,
  Map_get SPEED_BOOST m = None -> snd (fst (stack m (dm, sm, fm))) = sm.
Proof.
  induction m as [|[k e] m IH]; intros dm sm fm Hg; [reflexivity|].
  cbn [stack]. simpl in Hg. destruct k; simpl in Hg; try discriminate; now apply IH.
Qed.

Lemma stack_speed_one m : forall dm sm fm e,
  (Map_count SPEED_BOOST m <= 1)%nat ->
  Map_get SPEED_BOOST m = Some e ->
  snd (fst (stack m (dm, sm, fm))) = (sm * multiplier e)%Q.
Proof.
  induction m as [|[k e0] m IH]; intros dm sm fm e Hc Hg; [discriminate|].
  rewrite Map_count_cons in Hc. cbn [stack]. simpl in Hg.
  destruct k; simpl in Hg, Hc; try (now apply IH).
  injection Hg as ->. apply stack_speed.
  destruct (Map_get SPEED_BOOST m) eqn:G; [|reflexivity].
  apply Map_get_Some_count in G. lia.
Qed.

(** The speed always follows the power-ups that are active: after any calls
    on a new player it is the base speed of 200 times the speed multiplier
    of the active effects, capped at 1.5; so it is 200 again once no speed
    boost is left, and never above 300. *)
Theorem moveSpeed_follows_power_ups :
  forall ops : list Op,
    let p := run ops new in
    moveSpeed p = (PLAYER_SPEED * speedMultiplier p)%Q /\
    (moveSpeed p <= 300)%Q /\
    (Map_get SPEED_BOOST (activePowerUps p) = None -> (moveSpeed p == 200)%Q) /\
    (forall e, Map_get SPEED_BOOST (activePowerUps p) = Some e ->
       (moveSpeed p == 200 * JS.Math_min (multiplier e) (3 # 2))%Q).
Proof.
  intros ops p.
  assert (Hp : in_step p).
  { unfold p. generalize new, (conj (eq_refl : moveSpeed new = (baseMoveSpeed new * speedMultiplier new)%Q)
                                    (eq_refl : baseMoveSpeed new = PLAYER_SPEED)).
    induction ops as [|o ops IH]; intros q Hq; [exact Hq|].
    simpl. apply IH. now apply in_step_step. }
  destruct Hp as [Hm Hb]. rewrite Hb in Hm.
  assert (Hone : (Map_count SPEED_BOOST (activePowerUps p) <= 1)%nat)
    by (apply one_per_type_run, one_per_type_new).
  split; [exact Hm|]. rewrite Hm. unfold speedMultiplier, cappedMultipliers, PLAYER_SPEED.
  destruct (stack _ _) as [[dm sm] fm] eqn:E. cbn [fst snd]. unfold JS.Math_min.
  split; [|split].
  - pose proof (Q.le_min_r sm (3 # 2)). lra.
  - intros G. pose proof (stack_speed _ (baseDamageMultiplier p) 1 (baseFireRateMultiplier p) G) as Hs.
    rewrite E in Hs. simpl in Hs. subst sm.
    destruct (Q.min_spec 1 (3 # 2)) as [[_ ->] | [? _]]; lra.
  - intros e G.
    pose proof (stack_speed_one _ (baseDamageMultiplier p) 1 (baseFireRateMultiplier p) e Hone G) as Hs.
    rewrite E in Hs. simpl in Hs. subst sm.
    destruct (Q.min_spec (1 * multiplier e) (3 # 2)) as [[? ->] | [? ->]];
      destruct (Q.min_spec (multiplier e) (3 # 2)) as [[? ->] | [? ->]]; lra.
Qed.

(** *** The loop of [updatePowerUps] *)

Lemma Map_get_app k m1 m2 :
  Map_get k (m1 ++ m2) = match Map_get k m1 with Some e => Some e | None => Map_get k m2 end.
Proof.
  induction m1 as [|[k' e'] m1 IH]; [reflexivity|]. simpl.
  destruct (PowerUpType_eqb k k'); [reflexivity | exact IH].
Qed.

Lemma elapse_app k delta done e rest :
  Map_get k done = None ->
  elapse k delta (done ++ (k, e) :: rest) = done ++ tick delta (k, e) :: rest.
Proof.
  induction done as [|[k' e'] done IH]; simpl.
  - intros _. now rewrite PowerUpType_eqb_refl.
  - destruct (PowerUpType_eqb k k'); [discriminate|]. intros H. now rewrite IH.
Qed.

Lemma Map_delete_app k done e rest :
  Map_get k done = None ->
  Map_delete k (done ++ (k, e) :: rest) = done ++ rest.
Proof.
  induction done as [|[k' e'] done IH]; simpl.
  - intros _. now rewrite PowerUpType_eqb_refl.
  - destruct (PowerUpType_eqb k k'); [discriminate|]. intros H. now rewrite IH.
Qed.

Lemma Map_get_None_In k m : Map_get k m = None <-> ~ In k (map fst m).
Proof.
  induction m as [|[k' e'] m IH]; simpl; [tauto|].
  destruct (PowerUpType_eqb k k') eqn:E.
  - apply PowerUpType_eqb_eq in E. subst. split; [discriminate | tauto].
  - assert (k' <> k) by (intros ->; now rewrite PowerUpType_eqb_refl in E). tauto.
Qed.

Lemma one_per_type_NoDup m :
  (forall k, (Map_count k m <= 1)%nat) -> List.NoDup (map fst m).
Proof.
  induction m as [|[k e] m IH]; intros H; [constructor|]. simpl. constructor.
  - apply Map_get_None_In. specialize (H k). rewrite Map_count_cons, PowerUpType_eqb_refl in H.
    destruct (Map_get k m) eqn:G; [|reflexivity].
    apply Map_get_Some_count in G. lia.
  - apply IH. intros k'. specialize (H k'). rewrite Map_count_cons in H. lia.
Qed.

Lemma survivors_cons delta k e rest :
  survivors delta ((k, e) :: rest) =
  if Qle_bool (remainingTime e - delta) 0 then survivors delta rest
  else (k, mkEffect (multiplier e) (duration e) (remainingTime e - delta)%Q)
       :: survivors delta rest.
Proof.
  unfold survivors, expired. simpl. now destruct (Qle_bool _ 0).
Qed.

Lemma visit_survivors delta entries : forall done p recalculate,
  activePowerUps p = done ++ entries ->
  List.NoDup (map fst (done ++ entries)) ->
  activePowerUps (fst (visit delta entries p recalculate)) = done ++ survivors delta entries /\
  snd (visit delta entries p recalculate) =
    recalculate || existsb (fun ke => expired (tick delta ke)) entries.
Proof.
  induction entries as [|[k e] rest IH]; intros done p recalculate Hp Hnd.
  - simpl. rewrite orb_false_r. rewrite app_nil_r in *. now split.
  - assert (Hk : Map_get k done = None).
    { apply Map_get_None_In. rewrite map_app in Hnd. simpl in Hnd.
      apply List.NoDup_remove_2 in Hnd. intros Hin. apply Hnd, in_or_app. now left. }
    cbn [visit]. rewrite Hp, elapse_app by exact Hk.
    rewrite survivors_cons. cbn [existsb].
    change (expired (tick delta (k, e))) with (Qle_bool (remainingTime e - delta) 0).
    change (tick delta (k, e))
      with (k, mkEffect (multiplier e) (duration e) (remainingTime e - delta)%Q).
    set (e' := mkEffect (multiplier e) (duration e) (remainingTime e - delta)%Q).
    destruct (Qle_bool (remainingTime e - delta) 0) eqn:E.
    + unfold removePowerUp. cbn [set_activePowerUps activePowerUps].
      rewrite Map_get_app, Hk. cbn [Map_get]. rewrite PowerUpType_eqb_refl.
      rewrite Map_delete_app by exact Hk.
      destruct (IH done (set_activePowerUps
                           (set_activePowerUps p (done ++ (k, e') :: rest))
                           (done ++ rest)) true) as [H1 H2].
      * reflexivity.
      * rewrite map_app in *. simpl in Hnd. now apply List.NoDup_remove_1 in Hnd.
      * split; [exact H1|]. rewrite H2. now rewrite orb_true_r.
    + destruct (IH (done ++ [(k, e')])
                   (set_activePowerUps p (done ++ (k, e') :: rest))
                   recalculate) as [H1 H2].
      * cbn [set_activePowerUps activePowerUps]. now rewrite <- app_assoc.
      * rewrite <- app_assoc. rewrite !map_app in *. exact Hnd.
      * split; [|exact H2]. rewrite H1. now rewrite <- app_assoc.
Qed.

Lemma activePowerUps_survivors delta p :
  one_per_type p ->
  activePowerUps (fst (updatePowerUps delta p)) = survivors delta (activePowerUps p).
Proof.
  intros Hp. rewrite activePowerUps_updatePowerUps.
  apply (visit_survivors delta (activePowerUps p) [] p false); [reflexivity|].
  now apply one_per_type_NoDup.
Qed.

(** The loop of [updatePowerUps], which removes entries from the map it is
    iterating over, does what a filter would: after any calls on a new
    player, a frame leaves exactly the effects whose remaining time stays
    above 0, each [delta] shorter and in their old order; and it raises the
    stats event exactly when it removed one. *)
Theorem updatePowerUps_keeps_the_unexpired :
  forall (ops : list Op) (delta : Q),
    let p := run ops new in
    activePowerUps (fst (updatePowerUps delta p)) = survivors delta (activePowerUps p) /\
    (snd (updatePowerUps delta p) = None <->
     forall ke, In ke (activePowerUps p) -> (0 < remainingTime (snd ke) - delta)%Q).
Proof.
  intros ops delta p.
  assert (Hp : one_per_type p) by apply one_per_type_run, one_per_type_new.
  split; [now apply activePowerUps_survivors|].
  destruct (visit_survivors delta (activePowerUps p) [] p false eq_refl
              (one_per_type_NoDup _ Hp)) as [_ Hs].
  unfold updatePowerUps. destruct (visit _ _ _ _) as [p' r]. simpl in Hs. subst r.
  destruct (existsb _ _) eqn:E.
  - destruct (recalculateStats p') as [p'' ev]. simpl. split; [discriminate|].
    intros H. apply existsb_exists in E. destruct E as (ke & Hin & He).
    specialize (H ke Hin). unfold expired in He. simpl in He.
    apply Qle_bool_iff in He. lra.
  - simpl. split; [|reflexivity]. intros _ ke Hin.
    assert (He : expired (tick delta ke) = false).
    { destruct (expired (tick delta ke)) eqn:X; [|reflexivity].
      assert (existsb (fun ke => expired (tick delta ke)) (activePowerUps p) = true)
        by (apply existsb_exists; now exists ke).
      congruence. }
    unfold expired in He. simpl in He.
    apply not_true_iff_false in He. rewrite Qle_bool_iff in He. lra.
Qed.

(** *** The life of a power-up *)

Lemma Map_get_survivors_None t delta m :
  Map_get t m = None -> Map_get t (survivors delta m) = None.
Proof.
  unfold survivors. induction m as [|[k e] m IH]; [reflexivity|]. simpl.
  destruct (PowerUpType_eqb t k) eqn:E; [discriminate|]. intros H.
  destruct (negb _); simpl; [rewrite E|]; now apply IH.
Qed.

Lemma Map_get_survivors t delta m e :
  Map_get t m = Some e ->
  Map_get t (survivors delta m) =
  if Qle_bool (remainingTime e - delta) 0
  then Map_get t (survivors delta (Map_delete t m))
  else Some (mkEffect (multiplier e) (duration e) (remainingTime e - delta)%Q).
Proof.
  unfold survivors. induction m as [|[k e0] m IH]; [discriminate|]. simpl.
  destruct (PowerUpType_eqb t k) eqn:E.
  - intros [= ->]. unfold expired at 1. simpl.
    destruct (Qle_bool (remainingTime e - delta) 0); simpl; [reflexivity|].
    now rewrite E.
  - intros H. specialize (IH H). destruct (negb (expired (tick delta (k, e0)))) eqn:X; simpl.
    + rewrite E, IH. destruct (Qle_bool _ 0); [|reflexivity]. now rewrite X; simpl; rewrite E.
    + rewrite IH. destruct (Qle_bool _ 0); [|reflexivity]. now rewrite X.
Qed.

Lemma Map_get_delete t m :
  (Map_count t m <= 1)%nat -> Map_get t (Map_delete t m) = None.
Proof.
  induction m as [|[k e] m IH]; [reflexivity|]. rewrite Map_count_cons. simpl.
  destruct (PowerUpType_eqb t k) eqn:E.
  - intros H. destruct (Map_get t m) eqn:G; [|reflexivity].
    apply Map_get_Some_count in G. lia.
  - intros H. simpl. rewrite E. apply IH. lia.
Qed.

Lemma Map_get_set t e m : Map_get t (Map_set t e m) = Some e.
Proof.
  induction m as [|[k e0] m IH]; simpl; [now rewrite PowerUpType_eqb_refl|].
  destruct (PowerUpType_eqb t k) eqn:E; simpl; rewrite E; [reflexivity | exact IH].
Qed.

Lemma activePowerUps_frame p o :
  one_per_type p -> frame o ->
  activePowerUps (step p o) =
  match o with
  | UpdatePowerUps delta => survivors delta (activePowerUps p)
  | _ => activePowerUps p
  end.
Proof.
  intros Hp Ho. destruct o as [t mu d|delta|now|d]; simpl in *.
  - contradiction.
  - now apply activePowerUps_survivors.
  - apply activePowerUps_shoot.
  - apply activePowerUps_switchWeapon.
Qed.

Lemma frames_elapsed_nonneg frames : Forall frame frames -> (0 <= elapsed frames)%Q.
Proof.
  induction 1 as [|o ops Ho _ IH]; simpl; [lra|].
  destruct o; simpl in *; try exact IH; try contradiction. lra.
Qed.

Lemma gone_stays_gone t frames : forall p,
  one_per_type p -> Forall frame frames ->
  Map_get t (activePowerUps p) = None ->
  Map_get t (activePowerUps (run frames p)) = None.
Proof.
  induction frames as [|o frames IH]; intros p Hp Hf Hg; [exact Hg|].
  inversion Hf as [|? ? Ho Hf']; subst. simpl.
  apply IH; [now apply one_per_type_step | exact Hf' |].
  rewrite (activePowerUps_frame p o Hp Ho).
  destruct o; try exact Hg. now apply Map_get_survivors_None.
Qed.

Lemma life t frames : forall p e,
  one_per_type p -> Forall frame frames ->
  Map_get t (activePowerUps p) = Some e ->
  (0 < remainingTime e)%Q ->
  ((elapsed frames < remainingTime e)%Q ->
   exists e', Map_get t (activePowerUps (run frames p)) = Some e' /\
              (remainingTime e' == remainingTime e - elapsed frames)%Q /\
              multiplier e' = multiplier e) /\
  ((remainingTime e <= elapsed frames)%Q ->
   Map_get t (activePowerUps (run frames p)) = None).
Proof.
  induction frames as [|o frames IH]; intros p e Hp Hf Hg Hpos.
  - simpl. split; [|lra]. intros _. exists e. repeat split; [exact Hg | lra].
  - inversion Hf as [|? ? Ho Hf']; subst.
    pose proof (frames_elapsed_nonneg frames Hf') as Hnn.
    pose proof (one_per_type_step p o Hp) as Hp'.
    pose proof (activePowerUps_frame p o Hp Ho) as Hs.
    destruct o as [t' mu d|delta|now|d]; simpl in Ho; [contradiction| | |].
    2,3: cbn [elapsed]; change (run (?o :: frames) p) with (run frames (step p o));
         apply IH; [exact Hp' | exact Hf' | now rewrite Hs | exact Hpos].
    change (run (UpdatePowerUps delta :: frames) p)
      with (run frames (step p (UpdatePowerUps delta))).
    cbn [elapsed].
    pose proof (Map_get_survivors t delta _ e Hg) as Hget. rewrite <- Hs in Hget.
    destruct (Qle_bool (remainingTime e - delta) 0) eqn:E.
    + apply Qle_bool_iff in E.
      assert (Hnone : Map_get t (activePowerUps (step p (UpdatePowerUps delta))) = None).
      { rewrite Hget. apply Map_get_survivors_None, Map_get_delete, Hp. }
      split; [lra|]. intros _. now apply gone_stays_gone.
    + apply not_true_iff_false in E. rewrite Qle_bool_iff in E.
      destruct (IH _ _ Hp' Hf' Hget) as [IH1 IH2]; [simpl; lra|]. simpl in IH1, IH2.
      split.
      * intros Hlt. destruct IH1 as (e' & G & Hr & Hmu); [lra|].
        exists e'. repeat split; [exact G | lra | exact Hmu].
      * intros Hle. apply IH2. lra.
Qed.

(** A power-up lasts as long as it was given for: collected on any
    reachable player with a duration above 0, it is still active, with the
    rest of its time, while the frames since add up to less than the
    duration, and it is gone from the frame on that completes it. *)
Theorem power_up_lasts_its_duration :
  forall (ops frames : list Op) (t : PowerUpType) (mu d : Q),
    (0 < d)%Q ->
    Forall frame frames ->
    let p := run frames (fst (applyPowerUp t mu d (run ops new))) in
    ((elapsed frames < d)%Q ->
     exists e, Map_get t (activePowerUps p) = Some e /\
               (remainingTime e == d - elapsed frames)%Q) /\
    ((d <= elapsed frames)%Q -> Map_get t (activePowerUps p) = None).
Proof.
  intros ops frames t mu d Hd Hf p.
  set (q := run ops new) in *.
  assert (Hq : one_per_type q) by apply one_per_type_run, one_per_type_new.
  assert (Hq' : one_per_type (fst (applyPowerUp t mu d q)))
    by apply (one_per_type_step q (ApplyPowerUp t mu d) Hq).
  assert (Hg : exists e0, Map_get t (activePowerUps (fst (applyPowerUp t mu d q))) = Some e0 /\
                          remainingTime e0 = d).
  { rewrite activePowerUps_applyPowerUp. destruct (Map_get t (activePowerUps q)) eqn:G.
    - rewrite (Map_get_refresh _ _ _ _ _ G). now eexists.
    - rewrite Map_get_set. now eexists. }
  destruct Hg as (e0 & Hg & Hr).
  destruct (life t frames _ e0 Hq' Hf Hg) as [H1 H2]; [rewrite Hr; exact Hd|].
  rewrite Hr in H1, H2. split; [|exact H2].
  intros Hlt. destruct (H1 Hlt) as (e' & G & Hrem & _). now exists e'.
Qed.

Lemma power_up_lasts_its_duration_witness :
  let early := [UpdatePowerUps 4000; Shoot 5000; UpdatePowerUps 3999] in
  let late := [UpdatePowerUps 4000; Shoot 5000; UpdatePowerUps 4000; UpdatePowerUps 16] in
  (exists e, Map_get SPEED_BOOST
               (activePowerUps (run early (fst (applyPowerUp SPEED_BOOST (23 # 20) 8000 new))))
             = Some e) /\
  Map_get SPEED_BOOST
    (activePowerUps (run late (fst (applyPowerUp SPEED_BOOST (23 # 20) 8000 new)))) = None.
Proof.
  intros early late. split.
  - destruct (power_up_lasts_its_duration [] early SPEED_BOOST (23 # 20) 8000) as [H _].
    + reflexivity.
    + repeat constructor; simpl; lra.
    + destruct H as (e & G & _); [reflexivity|]. now exists e.
  - destruct (power_up_lasts_its_duration [] late SPEED_BOOST (23 # 20) 8000) as [_ H].
    + reflexivity.
    + repeat constructor; simpl; lra.
    + apply H. vm_compute. discriminate.
Defined.

End PlayerRunsFacts.

(** ** Enemy: stun, attack rate, health bar *)

Module EnemyRunsFacts.
Import Enemy EnemyFacts EnemyRuns.

Lemma updateState_stunned delta sc e :
  state e = stunned ->
  updateState delta sc e =
  (if Qle_bool (stateTimer e - delta) 0
   then set_state (set_stateTimer e (stateTimer e - delta)) seeking
   else set_stateTimer e (stateTimer e - delta), false).
Proof.
  intros Hs. unfold updateState. cbn [set_stateTimer state stateTimer]. rewrite Hs.
  now destruct (Qle_bool _ 0).
Qed.

Lemma stun_window ops : forall e,
  state e = stunned ->
  Forall calm ops ->
  (elapsed ops < stateTimer e)%Q ->
  state (run ops e) = stunned /\ attacks ops e = 0%nat /\
  (stateTimer (run ops e) == stateTimer e - elapsed ops)%Q /\
  health (run ops e) = health e.
Proof.
  induction ops as [|o ops IH]; intros e Hs Hc Hel.
  - simpl. repeat split; [exact Hs | lra].
  - inversion Hc as [|? ? Ho Hc']; subst.
    assert (Hnn : (0 <= elapsed ops)%Q).
    { clear -Hc'. induction Hc' as [|o ops Ho _ IH]; simpl; [lra|].
      destruct o; simpl in *; try exact IH; try contradiction. lra. }
    destruct o as [delta sc|amount|px py]; simpl in Ho; [| contradiction |].
    + cbn [elapsed] in Hel. cbn [run fold_left attacks attacked step]. unfold update.
      rewrite (updateState_stunned delta sc e Hs).
      destruct (Qle_bool (stateTimer e - delta) 0) eqn:E;
        [apply Qle_bool_iff in E; lra|]. cbn [fst snd].
      destruct (IH (set_stateTimer e (stateTimer e - delta))) as (H1 & H2 & H3 & H4);
        [exact Hs | exact Hc' | simpl; lra |].
      change (fold_left step ops ?x) with (run ops x).
      repeat split; [exact H1 | exact H2 | | exact H4].
      rewrite H3. cbn [elapsed set_stateTimer stateTimer]. lra.
    + cbn [elapsed] in Hel. cbn [run fold_left attacks attacked step].
      change (fold_left step ops ?x) with (run ops x).
      destruct (IH (set_position e px py)) as (H1 & H2 & H3 & H4);
        [exact Hs | exact Hc' | exact Hel |].
      repeat split; [exact H1 | exact H2 | | exact H4].
      rewrite H3. cbn [elapsed]. reflexivity.
Qed.

(** A hit stuns for 200 ms of frames: while the frames after it add up to
    less than 200 ms the enemy stays stunned and launches no attack; the
    frame that completes the 200 ms sends it back to seeking. *)
Theorem hit_stuns_for_200ms :
  forall (amount : Q) (e : Enemy) (ops : list Op),
    Forall calm ops ->
    (elapsed ops < 200)%Q ->
    state (run ops (takeDamage amount e)) = stunned /\
    attacks ops (takeDamage amount e) = 0%nat /\
    (forall delta sc,
       (200 - elapsed ops <= delta)%Q ->
       state (update delta sc (run ops (takeDamage amount e))) = seeking).
Proof.
  intros amount e ops Hc Hel.
  destruct (stun_window ops (takeDamage amount e)) as (H1 & H2 & H3 & _);
    [reflexivity | exact Hc | exact Hel |].
  repeat split; [exact H1 | exact H2 |].
  intros delta sc Hd. unfold update. rewrite (updateState_stunned _ _ _ H1).
  destruct (Qle_bool _ 0) eqn:E; [reflexivity|].
  apply not_true_iff_false in E. rewrite Qle_bool_iff in E.
  exfalso. apply E. rewrite H3. simpl. lra.
Qed.

Lemma hit_stuns_for_200ms_witness :
  let sc := mkScene (Some 0%nat) (fun _ => (0, 0)%Q) 9000 in
  let ops := [Update 16 sc; Moved 3 4; Update 100 sc; Update 83 sc] in
  state (run ops (takeDamage 5 (new 0 0 tomato))) = stunned /\
  state (update 1 sc (run ops (takeDamage 5 (new 0 0 tomato)))) = seeking.
Proof.
  intros sc ops.
  destruct (hit_stuns_for_200ms 5 (new 0 0 tomato) ops) as (H1 & _ & H3).
  - repeat constructor; simpl; lra.
  - reflexivity.
  - split; [exact H1|]. apply H3. vm_compute. discriminate.
Defined.

(** *** The rate of attacks *)

Lemma attackCooldown_step e o : attackCooldown (step e o) = attackCooldown e.
Proof.
  destruct o as [delta sc|amount|px py]; simpl; try reflexivity.
  unfold update, updateState; simpl.
  destruct (state e); simpl; try reflexivity.
  - unfold findTarget. destruct (scene_player sc); simpl;
      match goal with |- context [if ?b then _ else _] => destruct b end; reflexivity.
  - match goal with |- context [if ?b then _ else _] => destruct b end;
      [reflexivity|]. unfold attemptAttack; simpl.
    match goal with |- context [if ?b then _ else _] => destruct b end; reflexivity.
  - match goal with |- context [if ?b then _ else _] => destruct b end; reflexivity.
Qed.

Lemma attackCooldown_run ops e : attackCooldown (run ops e) = attackCooldown e.
Proof.
  revert e. induction ops as [|o ops IH]; intros e; [reflexivity|].
  simpl. now rewrite IH, attackCooldown_step.
Qed.

(** What a frame that launches an attack has met, and what it leaves. *)
Lemma updateState_attack delta sc e :
  snd (updateState delta sc e) = true ->
  state e = attacking /\ hasTarget e = true /\ isInRange sc e = true /\
  (attackCooldown e <= now sc - lastAttackTime e)%Q /\
  lastAttackTime (fst (updateState delta sc e)) = now sc /\
  state (fst (updateState delta sc e)) = attacking.
Proof.
  unfold updateState. cbn [set_stateTimer state stateTimer].
  destruct (state e) eqn:Hs.
  - discriminate.
  - match goal with |- context [if ?b then _ else _] => destruct b end; discriminate.
  - change (isInRange sc (set_stateTimer e (stateTimer e - delta)))
      with (isInRange sc e).
    change (hasTarget (set_stateTimer e (stateTimer e - delta))) with (hasTarget e).
    destruct (hasTarget e), (isInRange sc e); cbn [negb orb]; try discriminate.
    unfold attemptAttack. cbn [set_stateTimer lastAttackTime attackCooldown].
    destruct (JS.Qltb _ _) eqn:E; [discriminate|]. intros _.
    unfold JS.Qltb in E. apply negb_false_iff, Qle_bool_iff in E.
    repeat split; try reflexivity; try exact E. simpl. exact Hs.
  - match goal with |- context [if ?b then _ else _] => destruct b end; discriminate.
Qed.

Lemma lastAttackTime_quiet e o :
  attacked o e = false -> lastAttackTime (step e o) = lastAttackTime e.
Proof.
  destruct o as [delta sc|amount|px py]; simpl; try reflexivity.
  unfold update, updateState. cbn [set_stateTimer state stateTimer].
  destruct (state e); simpl; try reflexivity.
  - unfold findTarget. destruct (scene_player sc); simpl;
      match goal with |- context [if ?b then _ else _] => destruct b end; reflexivity.
  - match goal with |- context [if ?b then _ else _] => destruct b end;
      [reflexivity|]. unfold attemptAttack; simpl.
    match goal with |- context [if ?b then _ else _] => destruct b end;
      [reflexivity | discriminate].
  - match goal with |- context [if ?b then _ else _] => destruct b end; reflexivity.
Qed.

Lemma lastAttackTime_quiet_run ops : forall e,
  attacks ops e = 0%nat -> lastAttackTime (run ops e) = lastAttackTime e.
Proof.
  induction ops as [|o ops IH]; intros e Ha; [reflexivity|].
  cbn [attacks] in Ha. destruct (attacked o e) eqn:A; [discriminate|].
  simpl in Ha. simpl. rewrite (IH _ Ha). now apply lastAttackTime_quiet.
Qed.

(** An enemy never attacks faster than the cooldown of its type: a frame
    launches an attack only in state attacking with the target in range,
    and between the frame of one attack and the frame of the next, at least
    the cooldown has gone by on the clock. *)
Theorem attacks_respect_cooldown :
  forall (px py : Q) (t : EnemyType) (before between : list Op)
         (delta1 delta2 : Q) (sc1 sc2 : Scene),
    let e := run before (new px py t) in
    let e' := run between (update delta1 sc1 e) in
    snd (updateState delta1 sc1 e) = true ->
    attacks between (update delta1 sc1 e) = 0%nat ->
    snd (updateState delta2 sc2 e') = true ->
    (cooldownOf t <= now sc2 - now sc1)%Q /\
    state e = attacking /\ isInRange sc1 e = true /\
    state e' = attacking /\ isInRange sc2 e' = true.
Proof.
  intros px py t before between delta1 delta2 sc1 sc2 e e' H1 Hq H2.
  destruct (updateState_attack _ _ _ H1) as (S1 & _ & R1 & _ & L1 & _).
  destruct (updateState_attack _ _ _ H2) as (S2 & _ & R2 & C2 & _ & _).
  repeat split; try assumption.
  assert (Hcd : attackCooldown e' = cooldownOf t).
  { unfold e', e. rewrite attackCooldown_run.
    change (update delta1 sc1 ?x) with (step x (Update delta1 sc1)).
    rewrite attackCooldown_step, attackCooldown_run. now destruct t. }
  assert (Hl : lastAttackTime e' = now sc1).
  { unfold e'. rewrite (lastAttackTime_quiet_run _ _ Hq). exact L1. }
  rewrite Hcd, Hl in C2. exact C2.
Qed.

Lemma attacks_respect_cooldown_witness :
  let sc := fun t => mkScene (Some 0%nat) (fun _ => (30, 40)%Q) t in
  let e := run [Update 16 (sc 4000%Q)] (new 0 0 tomato) in
  let e' := run [Update 16 (sc 5016%Q); Moved 1 1] (update 16 (sc 5000%Q) e) in
  (2000 <= now (sc 7000%Q) - now (sc 5000%Q))%Q /\ state e' = attacking.
Proof.
  intros sc e e'.
  destruct (attacks_respect_cooldown 0 0 tomato [Update 16 (sc 4000%Q)]
              [Update 16 (sc 5016%Q); Moved 1 1] 16 16 (sc 5000%Q) (sc 7000%Q))
    as (H1 & _ & _ & H4 & _); try reflexivity.
  split; [exact H1 | exact H4].
Defined.

(** *** Health and its bar *)


Lemma enemy_healthy_step t e o : sane o -> healthy t e -> healthy t (step e o).
Proof.
  intros Ho [[H0 H1] Hm]. destruct o as [delta sc|amount|px py]; simpl in *.
  - unfold healthy, update, updateState. cbn [set_stateTimer state stateTimer].
    destruct (state e); simpl.
    + now repeat split.
    + unfold findTarget. destruct (scene_player sc); simpl;
        match goal with |- context [if ?b then _ else _] => destruct b end;
        now repeat split.
    + match goal with |- context [if ?b then _ else _] => destruct b end;
        [now repeat split|]. unfold attemptAttack; simpl.
      match goal with |- context [if ?b then _ else _] => destruct b end;
        now repeat split.
    + match goal with |- context [if ?b then _ else _] => destruct b end;
        now repeat split.
  - unfold healthy; simpl. split; [|exact Hm]. split; [apply Q.le_max_l|].
    apply Q.max_lub; lra.
  - now repeat split.
Qed.

(** The bar shows the health: after any frames, moves and hits of
    non-negative damage on a new enemy, the health is between 0 and the
    maximum of its type, the fill is that share of the 40 pixels of the
    bar, never wider than the bar, the bar is visible exactly while the
    enemy has health left, green above 60 %, red at 30 % and below, and
    gold between. *)
Theorem health_bar_follows_health :
  forall (px py : Q) (t : EnemyType) (ops : list Op) (d0 : EnemyHealthBar.Display),
    Forall sane ops ->
    let e := run ops (new px py t) in
    let d := EnemyHealthBar.updateHealthDisplay true e d0 in
    (0 <= health e /\ health e <= maxHealth e)%Q /\
    (EnemyHealthBar.fillWidth d == 40 * (health e / maxHealth e))%Q /\
    (0 <= EnemyHealthBar.fillWidth d /\ EnemyHealthBar.fillWidth d <= 40)%Q /\
    (EnemyHealthBar.visible d = true <-> (0 < health e)%Q) /\
    (EnemyHealthBar.tint d = EnemyHealthBar.LimeGreen <->
       ((6 # 10) * maxHealth e < health e)%Q) /\
    (EnemyHealthBar.tint d = EnemyHealthBar.Crimson <->
       (health e <= (3 # 10) * maxHealth e)%Q) /\
    EnemyHealthBar.updateHealthDisplay false e d0 = d0.
Proof.
  intros px py t ops d0 Hops e d.
  assert (He : healthy t e).
  { unfold e. assert (H : forall e0, healthy t e0 -> healthy t (run ops e0)).
    { induction Hops as [|o ops Ho Hops IH]; intros e0 H0; [exact H0|].
      simpl. apply IH. now apply enemy_healthy_step. }
    apply H. unfold healthy. destruct t; simpl; repeat split; lra. }
  destruct He as [[H0 H1] Hm].
  assert (Hpos : (0 < maxHealth e)%Q) by (rewrite Hm; destruct t; reflexivity).
  set (h := health e) in *. set (m := maxHealth e) in *.
  assert (Hq0 : (0 <= h / m)%Q).
  { unfold Qdiv. apply Qmult_le_0_compat; [exact H0|]. apply Qlt_le_weak, Qinv_lt_0_compat, Hpos. }
  assert (Hq1 : (h / m <= 1)%Q) by (apply Qle_shift_div_r; [exact Hpos | lra]).
  assert (Hlt : forall c, (c < h / m)%Q <-> (c * m < h)%Q).
  { intros c. split; intros H.
    - apply (Qmult_lt_compat_r _ _ m) in H; [|exact Hpos].
      assert (X : (h / m * m == h)%Q) by (field; lra). lra.
    - apply Qlt_shift_div_l; [exact Hpos | exact H]. }
  split; [now split|].
  unfold d, EnemyHealthBar.updateHealthDisplay. cbn [negb].
  cbn [EnemyHealthBar.fillWidth EnemyHealthBar.visible EnemyHealthBar.tint].
  fold h m. unfold EnemyHealthBar.healthBarWidth, JS.Math_max.
  assert (Hmax : (Qmax 0 (h / m * 40) == h / m * 40)%Q)
    by (apply Q.max_r; lra).
  split; [rewrite Hmax; lra|].
  split; [rewrite Hmax; split; lra|].
  split.
  { rewrite negb_true_iff, <- not_true_iff_false, Qle_bool_iff.
    split; [apply Qnot_le_lt | apply Qlt_not_le]. }
  split; [|split; [|reflexivity]].
  - destruct (JS.Qltb (6 # 10) (h / m)) eqn:E.
    + apply VitalsFacts.Qltb_true, Hlt in E. split; [intros _; exact E | reflexivity].
    + split; [|intros H; apply Hlt, VitalsFacts.Qltb_true in H; congruence].
      destruct (JS.Qltb (3 # 10) (h / m)); discriminate.
  - destruct (JS.Qltb (6 # 10) (h / m)) eqn:E6.
    + apply VitalsFacts.Qltb_true, Hlt in E6. split; [discriminate | lra].
    + destruct (JS.Qltb (3 # 10) (h / m)) eqn:E3.
      * apply VitalsFacts.Qltb_true, Hlt in E3. split; [discriminate | lra].
      * split; [|reflexivity]. intros _.
        apply Qnot_lt_le. intros H. apply Hlt, VitalsFacts.Qltb_true in H. congruence.
Qed.

Lemma health_bar_follows_health_witness :
  let sc := mkScene (Some 0%nat) (fun _ => (0, 0)%Q) 9000 in
  let e := run [TakeDamage 5; Update 16 sc; TakeDamage 8] (new 0 0 tomato) in
  let d := EnemyHealthBar.updateHealthDisplay true e (EnemyHealthBar.mkDisplay 40 0 true) in
  (EnemyHealthBar.fillWidth d == 40 * (7 / 20))%Q /\
  (0 <= EnemyHealthBar.fillWidth d /\ EnemyHealthBar.fillWidth d <= 40)%Q.
Proof.
  intros sc e d.
  destruct (health_bar_follows_health 0 0 tomato
              [TakeDamage 5; Update 16 sc; TakeDamage 8]
              (EnemyHealthBar.mkDisplay 40 0 true)) as (_ & H2 & H3 & _).
  - repeat constructor; simpl; lra.
  - split; [exact H2 | exact H3].
Defined.

End EnemyRunsFacts.

(** ** Settings: import and persistence *)

Module SettingsRunsFacts.
Import JSON Storage Settings SettingsRuns.

Lemma obj_keys_set k v o :
  obj_keys (obj_set k v o) = if existsb (String.eqb k) (obj_keys o) then obj_keys o
                             else obj_keys o ++ [k].
Proof.
  unfold obj_keys. induction o as [|[k0 v0] o IH]; [reflexivity|]. simpl.
  destruct (String.eqb k k0); simpl; [reflexivity|]. rewrite IH.
  now destruct (existsb _ _).
Qed.

Lemma existsb_eqb_In k l : existsb (String.eqb k) l = true <-> In k l.
Proof.
  rewrite existsb_exists. split.
  - intros (x & Hin & E). apply String.eqb_eq in E. now subst.
  - intros Hin. exists k. split; [exact Hin | apply String.eqb_refl].
Qed.

Lemma shaped_set k v o : shaped o -> shaped (obj_set k v o).
Proof.
  intros [[extras He] Hnd]. unfold shaped. rewrite obj_keys_set.
  destruct (existsb (String.eqb k) (obj_keys o)) eqn:E.
  - split; [now exists extras | exact Hnd].
  - split; [exists (extras ++ [k]); now rewrite He, app_assoc|].
    apply List.NoDup_app; [exact Hnd | repeat constructor; intros [] |].
    intros x Hx [<-|[]]. apply existsb_eqb_In in Hx. congruence.
Qed.

Lemma shaped_spread b : forall a, shaped a -> shaped (spread a b).
Proof.
  unfold spread. induction b as [|[k v] b IH]; intros a Ha; [exact Ha|].
  simpl. apply IH. now apply shaped_set.
Qed.

Lemma NoDup_defaults : List.NoDup (obj_keys getDefaultSettings).
Proof.
  apply (List.NoDup_count_occ' string_dec). intros x Hx.
  simpl in Hx. repeat (destruct Hx as [<- | Hx]; [reflexivity|]). contradiction.
Qed.

Lemma shaped_defaults : shaped getDefaultSettings.
Proof. split; [exists []; now rewrite app_nil_r | apply NoDup_defaults]. Qed.

Lemma obj_set_hit k v v' done rest :
  ~ In k (obj_keys done) ->
  obj_set k v (done ++ (k, v') :: rest) = done ++ (k, v) :: rest.
Proof.
  induction done as [|[k0 v0] done IH]; simpl; intros Hk.
  - now rewrite String.eqb_refl.
  - destruct (String.eqb_spec k k0) as [->|_]; [tauto|]. rewrite IH; tauto.
Qed.

Lemma obj_set_miss k v o : ~ In k (obj_keys o) -> obj_set k v o = o ++ [(k, v)].
Proof.
  induction o as [|[k0 v0] o IH]; simpl; intros Hk; [reflexivity|].
  destruct (String.eqb_spec k k0) as [->|_]; [tauto|]. rewrite IH; tauto.
Qed.

(** Assigning the properties of [ours] over an object of the same names
    in the same order leaves [ours]. *)
Lemma fold_replace ours : forall theirs done,
  obj_keys theirs = obj_keys ours ->
  List.NoDup (obj_keys done ++ obj_keys ours) ->
  fold_left (fun acc kv => obj_set (fst kv) (snd kv) acc) ours (done ++ theirs)
  = done ++ ours.
Proof.
  induction ours as [|[k v] ours IH]; intros theirs done Hk Hnd.
  - destruct theirs; [reflexivity | discriminate].
  - destruct theirs as [|[k' v'] theirs]; [discriminate|].
    simpl in Hk. injection Hk as -> Hk. cbn [fold_left fst snd].
    assert (Hin : ~ In k (obj_keys done)).
    { simpl in Hnd. apply List.NoDup_remove_2 in Hnd. intros X. apply Hnd, in_or_app. now left. }
    rewrite obj_set_hit by exact Hin.
    change (done ++ (k, v) :: theirs) with (done ++ [(k, v)] ++ theirs).
    change (done ++ (k, v) :: ours) with (done ++ [(k, v)] ++ ours).
    rewrite !app_assoc. apply IH; [exact Hk|].
    unfold obj_keys in *. rewrite map_app. simpl in *. now rewrite <- app_assoc.
Qed.

Lemma fold_append extras : forall base,
  List.NoDup (obj_keys base ++ obj_keys extras) ->
  fold_left (fun acc kv => obj_set (fst kv) (snd kv) acc) extras base = base ++ extras.
Proof.
  induction extras as [|[k v] extras IH]; intros base Hnd; [now rewrite app_nil_r|].
  cbn [fold_left fst snd].
  assert (Hin : ~ In k (obj_keys base)).
  { simpl in Hnd. apply List.NoDup_remove_2 in Hnd. intros X. apply Hnd, in_or_app. now left. }
  rewrite obj_set_miss by exact Hin.
  change (base ++ (k, v) :: extras) with (base ++ [(k, v)] ++ extras).
  rewrite app_assoc. apply IH.
  unfold obj_keys in *. rewrite map_app. simpl in *. now rewrite <- app_assoc.
Qed.

(** Merging shaped settings into the defaults gives them back: what
    [loadSettings] makes of a blob that [saveSettings] wrote. *)
Lemma spread_shaped s : shaped s -> spread getDefaultSettings s = s.
Proof.
  intros [[extras He] Hnd]. unfold spread.
  set (n := List.length getDefaultSettings).
  rewrite <- (firstn_skipn n s) at 1. rewrite fold_left_app.
  assert (Hf : obj_keys (firstn n s) = obj_keys getDefaultSettings).
  { unfold obj_keys. rewrite <- firstn_map. fold (obj_keys s). rewrite He.
    assert (Hl : List.length (obj_keys getDefaultSettings) = n) by reflexivity.
    rewrite firstn_app. change (firstn _ extras) with (@nil string).
    rewrite app_nil_r. apply firstn_all2, Nat.eq_le_incl, Hl. }
  assert (Hnd' : List.NoDup (obj_keys (firstn n s) ++ obj_keys (skipn n s))).
  { unfold obj_keys. rewrite <- map_app, firstn_skipn. exact Hnd. }
  pose proof (fold_replace (firstn n s) getDefaultSettings [] (eq_sym Hf)) as Hr.
  cbn [app obj_keys map] in Hr. rewrite Hr.
  - rewrite fold_append by exact Hnd'. apply firstn_skipn.
  - apply List.NoDup_app_remove_r in Hnd'. exact Hnd'.
Qed.

(** *** importSettings *)

Lemma obj_get_None k o : ~ In k (obj_keys o) -> obj_get k o = None.
Proof.
  induction o as [|[k0 v0] o IH]; simpl; intros Hk; [reflexivity|].
  destruct (String.eqb_spec k k0) as [->|_]; [tauto|]. apply IH; tauto.
Qed.

Lemma obj_get_Some_In k o v : obj_get k o = Some v -> In k (obj_keys o).
Proof.
  induction o as [|[k0 v0] o IH]; simpl; [discriminate|].
  destruct (String.eqb_spec k k0) as [->|_]; [now left | right; now apply IH].
Qed.

Lemma obj_get_In_Some k o : In k (obj_keys o) -> exists v, obj_get k o = Some v.
Proof.
  induction o as [|[k0 v0] o IH]; simpl; [intros []|].
  destruct (String.eqb_spec k k0) as [->|Hne]; [now eexists|].
  intros [E|Hin]; [now elim Hne | now apply IH].
Qed.

Lemma obj_get_valid imported k : forall keys,
  obj_get k (rev (flat_map (fun key =>
                              match storedField key imported with
                              | Some v => [(key, v)]
                              | None => []
                              end) keys))
  = if existsb (String.eqb k) keys then storedField k imported else None.
Proof.
  induction keys as [|key keys IH]; [reflexivity|].
  cbn [flat_map existsb]. rewrite rev_app_distr, JSONFacts.obj_get_app, IH.
  destruct (String.eqb_spec k key) as [->|Hne]; cbn [orb].
  - destruct (existsb (String.eqb key) keys).
    + destruct (storedField key imported) eqn:E; [reflexivity|]. reflexivity.
    + destruct (storedField key imported) eqn:E; simpl; [|reflexivity].
      now rewrite String.eqb_refl.
  - assert (Hm : obj_get k (rev match storedField key imported with
                                | Some v => [(key, v)]
                                | None => []
                                end) = None).
    { destruct (storedField key imported); simpl; [|reflexivity].
      destruct (String.eqb_spec k key); [contradiction | reflexivity]. }
    rewrite Hm.
    destruct (existsb (String.eqb k) keys); [now destruct (storedField k imported)|].
    reflexivity.
Qed.

Lemma obj_keys_spread_known b : forall a,
  (forall k, In k (obj_keys b) -> In k (obj_keys a)) ->
  obj_keys (spread a b) = obj_keys a.
Proof.
  unfold spread. induction b as [|[k v] b IH]; intros a Hb; [reflexivity|].
  cbn [fold_left fst snd].
  assert (Hk : obj_keys (obj_set k v a) = obj_keys a).
  { rewrite obj_keys_set.
    destruct (existsb (String.eqb k) (obj_keys a)) eqn:E; [reflexivity|].
    assert (In k (obj_keys a)) by (apply Hb; now left).
    apply existsb_eqb_In in H. congruence. }
  rewrite IH; [exact Hk|]. intros k' Hk'. rewrite Hk. apply Hb. now right.
Qed.

Lemma obj_keys_validSettings imported k :
  In k (obj_keys (validSettings imported)) -> In k (obj_keys getDefaultSettings).
Proof.
  unfold validSettings. generalize (obj_keys getDefaultSettings).
  induction l as [|key keys IH]; [intros []|].
  cbn [flat_map]. unfold obj_keys in *. rewrite map_app, in_app_iff.
  intros [Hin|Hin]; [|right; now apply IH].
  destruct (storedField key imported); simpl in Hin; [|contradiction].
  destruct Hin as [<-|[]]. now left.
Qed.

Lemma digit_key_not_default s :
  NumStr.all_digits s -> s <> EmptyString -> ~ In s (obj_keys getDefaultSettings).
Proof.
  destruct s as [|c r]; [congruence|]. intros [(d & Hd & ->) _] _ Hin.
  assert (Hcases : d = 0 \/ d = 1 \/ d = 2 \/ d = 3 \/ d = 4 \/ d = 5 \/ d = 6 \/
                   d = 7 \/ d = 8 \/ d = 9) by lia.
  simpl in Hin.
  repeat (destruct Hin as [E|Hin];
          [injection E as E _;
           repeat (destruct Hcases as [->|Hcases]; [discriminate E|]);
           subst; discriminate E|]).
  contradiction.
Qed.

Lemma indexed_keys l : forall i k,
  In k (obj_keys (indexed i l)) -> NumStr.all_digits k /\ k <> EmptyString.
Proof.
  induction l as [|v l IH]; intros i k; [intros []|].
  cbn [indexed obj_keys map fst]. intros [<-|Hin].
  - unfold NumStr.toString. destruct (Z.ltb_spec (Z.of_nat i) 0) as [E|E]; [lia|].
    apply NumStrFacts.all_digits_digits. lia.
  - now apply (IH (S i)).
Qed.

Lemma validSettings_array l : validSettings (JArr l) = [].
Proof.
  unfold validSettings.
  assert (H : forall key, In key (obj_keys getDefaultSettings) ->
                          storedField key (JArr l) = None).
  { intros key Hkey. unfold storedField, ownProperties. apply obj_get_None.
    intros Hin. unfold obj_keys in Hin. rewrite map_rev, <- in_rev in Hin.
    destruct (indexed_keys l 0 key Hin) as [Ha Hne].
    exact (digit_key_not_default key Ha Hne Hkey). }
  revert H. generalize (obj_keys getDefaultSettings).
  induction l0 as [|key keys IH]; intros H; [reflexivity|].
  cbn [flat_map]. rewrite (H key) by now left. apply IH.
  intros k Hk. apply H. now right.
Qed.

(** [importSettings] takes from the imported object the settings it knows
    and nothing else: it answers true, the settings have exactly the names
    of the defaults, each with the imported value where the object has one
    and the default where it has not, and they are saved.  An array counts
    as an object without settings and resets to the defaults.  Text that
    does not parse, and [null], numbers, strings and booleans, are refused:
    it answers false and the settings and the storage stay as they were. *)
Theorem importSettings_keeps_known_keys :
  forall (H : Host) (settingsJson : string) (settings : obj) (st : Storage),
    match JSON_parse settingsJson with
    | Some (JObj o) =>
        exists settings',
          importSettings settingsJson settings st
            = (settings', saveSettings settings' st, true) /\
          obj_keys settings' = obj_keys getDefaultSettings /\
          forall k,
            get k settings' =
            match get k getDefaultSettings with
            | Some d => Some (match storedField k (JObj o) with Some v => v | None => d end)
            | None => None
            end
    | Some (JArr _) =>
        importSettings settingsJson settings st
          = (getDefaultSettings, saveSettings getDefaultSettings st, true)
    | _ => importSettings settingsJson settings st = (settings, st, false)
    end.
Proof.
  intros H settingsJson settings st. unfold importSettings.
  destruct (JSON_parse settingsJson) as [[| | | |l|o]|]; try reflexivity.
  - now rewrite validSettings_array.
  - eexists. split; [reflexivity|]. split.
    + apply obj_keys_spread_known. apply obj_keys_validSettings.
    + intros k. unfold get. rewrite JSONFacts.obj_get_spread.
      unfold validSettings. rewrite obj_get_valid.
      destruct (existsb (String.eqb k) (obj_keys getDefaultSettings)) eqn:E.
      * apply existsb_eqb_In in E.
        destruct (obj_get k getDefaultSettings) eqn:G.
        -- now destruct (storedField k (JObj o)).
        -- destruct (obj_get_In_Some k getDefaultSettings E) as [d Hd]. congruence.
      * rewrite obj_get_None; [reflexivity|].
        intros Hin. apply existsb_eqb_In in Hin. congruence.
Qed.

(** *** Persistence *)

Lemma refuses_saveSettings `{Host} s st :
  refuses_writes (saveSettings s st) = refuses_writes st.
Proof.
  unfold saveSettings, setItem. now destruct (refuses_writes st) eqn:E.
Qed.

Lemma getItem_saveSettings `{Host} s st :
  refuses_writes st = false ->
  getItem (saveSettings s st) STORAGE_KEY = Some (JSON_stringify (JObj s)).
Proof.
  intros Hw. unfold saveSettings, setItem, getItem. rewrite Hw. simpl.
  apply lookup_insert_eq.
Qed.

Lemma shaped_loadSettings `{Host} s st : shaped s -> shaped (loadSettings s st).
Proof.
  intros Hs. unfold loadSettings. destruct (present _); [|exact Hs].
  destruct (JSON_parse _); [|apply shaped_defaults].
  apply shaped_spread, shaped_defaults.
Qed.

Lemma set_saved `{Host} isMobile key value s st :
  exists st1,
    set isMobile key value s st
      = (fst (set isMobile key value s st),
         saveSettings (fst (set isMobile key value s st)) st1) /\
    refuses_writes st1 = refuses_writes st /\
    (shaped s -> shaped (fst (set isMobile key value s st))).
Proof.
  unfold set. destruct (String.eqb key "graphicsQuality").
  - exists (saveSettings (obj_set key value s) st). split; [reflexivity|].
    split; [apply refuses_saveSettings|].
    intros Hs. unfold applyGraphicsQuality. cbn [fst].
    pose proof (shaped_set key value s Hs) as Hs'.
    destruct value as [| | |q| |]; try exact Hs'.
    repeat match goal with
           | |- shaped (match ?x with _ => _ end) => destruct x; try exact Hs'
           end;
      repeat first [exact Hs' | apply shaped_set].
  - exists st. split; [reflexivity|]. split; [reflexivity|]. apply shaped_set.
Qed.

Lemma step_keeps `{Host} isMobile s o :
  refuses_writes (snd (step isMobile s o)) = refuses_writes (snd s) /\
  (shaped (fst s) -> shaped (fst (step isMobile s o))).
Proof.
  destruct s as [s st]. destruct o as [key value| |action newKey|settingsJson|]; cbn [step fst snd].
  - destruct (set_saved isMobile key value s st) as (st1 & E & Hw & Hs).
    rewrite E. cbn [fst snd]. rewrite refuses_saveSettings. now split.
  - unfold reset. cbn [fst snd]. split; [apply refuses_saveSettings|].
    intros _. apply shaped_defaults.
  - unfold rebindKey. destruct (obj_get "keyBindings" s) as [[| | | | |kb]|];
      cbn [JS.state_of fst snd]; try (split; [reflexivity | tauto]).
    match goal with |- context [if ?b then _ else _] => destruct b end;
      cbn [JS.state_of fst snd]; [split; [reflexivity | tauto]|].
    split; [apply refuses_saveSettings | apply shaped_set].
  - unfold importSettings.
    destruct (JSON_parse settingsJson) as [[| | | |l|o]|]; cbn [fst snd];
      try (split; [reflexivity | tauto]);
      (split; [apply refuses_saveSettings|]; intros _; apply shaped_spread, shaped_defaults).
  - split; [reflexivity | apply shaped_loadSettings].
Qed.

Lemma run_keeps `{Host} isMobile ops st :
  refuses_writes (snd (run isMobile ops st)) = refuses_writes st /\
  shaped (fst (run isMobile ops st)).
Proof.
  unfold run.
  assert (Hg : forall s, shaped (fst s) ->
                         refuses_writes (snd (fold_left (step isMobile) ops s))
                         = refuses_writes (snd s) /\
                         shaped (fst (fold_left (step isMobile) ops s))).
  { induction ops as [|o ops IH]; intros s Hs; [now split|].
    simpl. destruct (step_keeps isMobile s o) as [Hw Hsh].
    destruct (IH (step isMobile s o) (Hsh Hs)) as [Hw' Hsh']. split; [congruence | exact Hsh']. }
  apply (Hg (new st, st)). cbn [fst]. apply shaped_loadSettings, shaped_defaults.
Qed.

(** Settings survive a reload.  [set] on settings reached by any calls,
    with a storage that takes writes, leaves the blob of the final
    settings in the storage (also after the second save of a graphics
    preset), and a [Settings] constructed from that storage has exactly
    the same settings again, unknown names included, as long as the host's
    JSON carries the object faithfully. *)
Theorem settings_survive_reload :
  forall (H : Host) (isMobile : bool) (st0 : Storage) (ops : list Op)
         (key : string) (value : json),
    let cur := run isMobile ops st0 in
    let after := set isMobile key value (fst cur) (snd cur) in
    Forall typed ops ->
    In key (obj_keys getDefaultSettings) ->
    refuses_writes st0 = false ->
    JSON_parse (JSON_stringify (JObj (fst after))) = Some (JObj (fst after)) ->
    JSON_stringify (JObj (fst after)) <> EmptyString ->
    getItem (snd after) STORAGE_KEY = Some (JSON_stringify (JObj (fst after))) /\
    new (snd after) = fst after.
Proof.
  intros H isMobile st0 ops key value cur after _ _ Hw Hrt Hne.
  destruct (run_keeps isMobile ops st0) as [Hw' Hs]. fold cur in Hw', Hs.
  destruct (set_saved isMobile key value (fst cur) (snd cur)) as (st1 & E & Hw1 & Hs').
  fold after in E, Hs'. specialize (Hs' Hs).
  assert (G : getItem (snd after) STORAGE_KEY = Some (JSON_stringify (JObj (fst after)))).
  { rewrite E. cbn [snd fst]. apply getItem_saveSettings. congruence. }
  split; [exact G|].
  unfold new, loadSettings. rewrite G. unfold present.
  destruct (String.eqb_spec (JSON_stringify (JObj (fst after))) "") as [X|_]; [contradiction|].
  rewrite Hrt. cbn [ownProperties]. now apply spread_shaped.
Qed.

Lemma settings_survive_reload_witness :
  let blob := JObj [("masterVolume", JNum (1 # 5)); ("theme", JStr "dark")] in
  let st0 := holding [("veggie-clash-settings", RefHost.print blob)] in
  let cur := run (H := RefHost.host) false [RebindKey "dash" "F"; SetKey "sfxVolume" (JNum (1 # 2));
            SetKey "musicVolume" (JNum (3 # 5))] st0 in
  let after := set (H := RefHost.host) false "graphicsQuality" (JStr "low") (fst cur) (snd cur) in
  new (H := RefHost.host) (snd after) = fst after /\
  get "theme" (fst after) = Some (JStr "dark") /\
  get "enableBloom" (fst after) = Some (JBool false).
Proof.
  intros blob st0 cur after. split; [|split; reflexivity].
  apply (settings_survive_reload RefHost.host false st0
           [RebindKey "dash" "F"; SetKey "sfxVolume" (JNum (1 # 2));
            SetKey "musicVolume" (JNum (3 # 5))]
           "graphicsQuality" (JStr "low")).
  - constructor; [unfold typed, ObjectPrototype.own_name; simpl; intuition discriminate|].
    constructor; [apply existsb_eqb_In; reflexivity|].
    constructor; [apply existsb_eqb_In; reflexivity | constructor].
  - apply existsb_eqb_In. reflexivity.
  - reflexivity.
  - vm_compute. reflexivity.
  - vm_compute. discriminate.
Defined.

End SettingsRunsFacts.

(** ** GameState: inventory and flags *)

Module GameStateMapFacts.
Import JSON Storage GameState.









End GameStateMapFacts.

(** ** Missions: progress and rewards *)

Module MissionsFacts.
Import Missions.

Lemma evolves_refl m : evolves m m.
Proof. unfold evolves. tauto. Qed.

Lemma evolves_trans a b c : evolves a b -> evolves b c -> evolves a c.
Proof.
  unfold evolves. intros (A1 & A2 & A3 & A4 & A5 & A6 & A7 & A8)
                        (B1 & B2 & B3 & B4 & B5 & B6 & B7 & B8).
  do 6 (split; [congruence|]). split.
  - intros X. destruct (A7 X) as [H1 H2]. destruct (B7 H1) as [H3 H4].
    split; congruence.
  - intros X. auto.
Qed.

Lemma progress_spec c amount m :
  evolves m (fst (progress c amount m)) /\
  isClaimed (fst (progress c amount m)) = isClaimed m /\
  (length (snd (progress c amount m))
   + (if isCompleted m then 1 else 0)
   = (if isCompleted (fst (progress c amount m)) then 1 else 0))%nat /\
  completions (snd (progress c amount m)) = length (snd (progress c amount m)).
Proof.
  unfold progress, evolves.
  destruct (Category_eqb (category m) c); destruct (isCompleted m) eqn:E; cbn [andb negb fst snd];
    try (rewrite E; repeat split; auto; discriminate).
  cbn [set_progress current target isCompleted]. cbn [negb]. rewrite andb_true_r.
  destruct (Qle_bool (target m) (current m + amount)); cbn [fst snd set_progress isCompleted isClaimed length];
    repeat split; auto; try discriminate; rewrite ?E; reflexivity.
Qed.

Lemma fold_left_sum {A} (f : A -> Q) l : forall a,
  (fold_left (fun sum x => sum + f x) l a == a + fold_left (fun sum x => sum + f x) l 0)%Q.
Proof.
  induction l as [|x l IH]; intros a; simpl; [lra|].
  rewrite (IH (a + f x)%Q), (IH (0 + f x)%Q). lra.
Qed.

Lemma earned_cons t m ms :
  (earned t (m :: ms) == (if counts t m then rewardAmount m else 0) + earned t ms)%Q.
Proof.
  unfold earned. cbn [List.filter]. fold (counts t m).
  destruct (counts t m); [|lra].
  cbn [fold_left]. rewrite fold_left_sum. lra.
Qed.

Lemma paid_fold t evs : forall a,
  (fold_left (fun sum e =>
                match e, t with
                | add_coins amount, coins | add_gems amount, gems => (sum + amount)%Q
                | _, _ => sum
                end) evs a
   == a + paid t evs)%Q.
Proof.
  unfold paid. induction evs as [|e evs IH]; intros a; simpl; [lra|].
  rewrite IH. symmetry. rewrite IH.
  destruct e, t; lra.
Qed.

Lemma paid_app t evs1 evs2 : (paid t (evs1 ++ evs2) == paid t evs1 + paid t evs2)%Q.
Proof.
  unfold paid at 1. rewrite fold_left_app, paid_fold. fold (paid t evs1). lra.
Qed.

Lemma completions_app evs1 evs2 :
  completions (evs1 ++ evs2) = (completions evs1 + completions evs2)%nat.
Proof. unfold completions. now rewrite List.filter_app, length_app. Qed.

Lemma claims_app evs1 evs2 : claims (evs1 ++ evs2) = (claims evs1 + claims evs2)%nat.
Proof. unfold claims. now rewrite List.filter_app, length_app. Qed.

Lemma sound_refl ms : sound ms ms [].
Proof.
  split; try reflexivity; try tauto.
  - induction ms; constructor; [apply evolves_refl | assumption].
  - intros t. unfold paid. simpl. lra.
Qed.

Lemma sound_trans a b c evs1 evs2 :
  sound a b evs1 -> sound b c evs2 -> sound a c (evs1 ++ evs2).
Proof.
  intros [A1 A2 A3 A4 A5] [B1 B2 B3 B4 B5]. split.
  - clear -A1 B1. revert c B1. induction A1 as [|x y l l' Hxy _ IH]; intros c B1.
    + inversion B1. constructor.
    + inversion B1 as [|? z ? l'' Hyz Hl]; subst. constructor;
        [eapply evolves_trans; eassumption | now apply IH].
  - rewrite completions_app. lia.
  - rewrite claims_app. lia.
  - intros t. rewrite B4, A4, paid_app. lra.
  - auto.
Qed.

Lemma sound_cons m m' ev ms ms' evs :
  sound [m] [m'] ev -> sound ms ms' evs -> sound (m :: ms) (m' :: ms') (ev ++ evs).
Proof.
  intros [A1 A2 A3 A4 A5] [B1 B2 B3 B4 B5].
  inversion A1 as [|? ? ? ? Hm _]; subst. split.
  - now constructor.
  - rewrite completions_app. unfold completed in *. cbn [List.filter] in *.
    destruct (isCompleted m), (isCompleted m'); cbn [length] in *; lia.
  - rewrite claims_app. unfold claimed in *. cbn [List.filter] in *.
    destruct (isClaimed m), (isClaimed m'); cbn [length] in *; lia.
  - intros t. specialize (A4 t). specialize (B4 t).
    rewrite !earned_cons in A4. rewrite !earned_cons, paid_app.
    assert (E0 : (earned t [] == 0)%Q) by reflexivity. rewrite E0 in A4. lra.
  - intros H. inversion H as [|? ? Hh Hr]; subst. constructor; [|now apply B5].
    assert (X : Forall honest [m']) by (apply A5; now constructor).
    now inversion X.
Qed.

Lemma sound_progress c amount m :
  sound [m] [fst (progress c amount m)] (snd (progress c amount m)).
Proof.
  destruct (progress_spec c amount m) as (He & Hc & Hn & Hk).
  assert (Hev : forall evs t, completions evs = length evs ->
                              claims evs = 0%nat /\ (paid t evs == 0)%Q).
  { intros evs t. unfold completions, claims, paid.
    induction evs as [|e evs IH]; simpl; [intros _; split; [reflexivity | lra]|].
    destruct e; simpl; intros H;
      try (pose proof (List.filter_length_le
                         (fun e => match e with mission_completed _ => true | _ => false end)
                         evs); lia).
    destruct IH as [I1 I2]; [lia|]. split; [exact I1|].
    destruct t; exact I2. }
  destruct (Hev (snd (progress c amount m)) coins Hk) as [Hcl _].
  split.
  - constructor; [exact He | constructor].
  - unfold completed. cbn [List.filter]. rewrite Hk.
    destruct (isCompleted m), (isCompleted (fst (progress c amount m))); cbn [length] in *; lia.
  - unfold claimed. cbn [List.filter]. rewrite Hcl, Hc. now destruct (isClaimed m).
  - intros t. destruct (Hev (snd (progress c amount m)) t Hk) as [_ Hp].
    rewrite Hp, !earned_cons. unfold counts. rewrite Hc.
    destruct He as (_ & _ & _ & _ & -> & -> & _). lra.
  - intros H. inversion H as [|? ? Hh _]; subst. constructor; [|constructor].
    unfold honest in *. rewrite Hc. intros X. specialize (Hh X).
    destruct He as (_ & _ & _ & _ & _ & _ & H7 & _). now destruct (H7 Hh).
Qed.

Lemma sound_updateProgress c amount ms :
  sound ms (fst (updateProgress c amount ms)) (snd (updateProgress c amount ms)).
Proof.
  induction ms as [|m ms IH]; [apply sound_refl|].
  cbn [updateProgress].
  pose proof (sound_progress c amount m) as Hm.
  destruct (progress c amount m) as [m' ev].
  destruct (updateProgress c amount ms) as [ms' evs].
  cbn [fst snd] in *. now apply sound_cons.
Qed.

Lemma sound_claim m x :
  isCompleted m = true -> isClaimed m = false ->
  sound [m] [set_flags m (isCompleted m) true]
        (giveReward (rewardType m) (rewardAmount m) ++ [mission_reward_claimed x]).
Proof.
  intros Hc Hu. split.
  - constructor; [|constructor]. unfold evolves. cbn. rewrite Hu. repeat split; auto; discriminate.
  - unfold completed. cbn. destruct (rewardType m); now destruct (isCompleted m).
  - unfold claimed. cbn. rewrite Hu. now destruct (rewardType m).
  - intros t. rewrite !earned_cons.
    assert (E0 : (earned t [] == 0)%Q) by reflexivity. rewrite E0.
    unfold counts. cbn [set_flags isClaimed rewardType rewardAmount]. rewrite Hu.
    unfold paid. destruct (rewardType m), t; cbn; lra.
  - intros _. constructor; [|constructor]. intros _. exact Hc.
Qed.

Lemma sound_change missionId x : forall ms m,
  List.find (fun m => String.eqb (id m) missionId) ms = Some m ->
  isCompleted m = true -> isClaimed m = false ->
  sound ms
        (change_first (fun m => String.eqb (id m) missionId)
                      (fun m => set_flags m (isCompleted m) true) ms)
        (giveReward (rewardType m) (rewardAmount m) ++ [mission_reward_claimed x]) /\
  List.find (fun m => String.eqb (id m) missionId)
            (change_first (fun m => String.eqb (id m) missionId)
                          (fun m => set_flags m (isCompleted m) true) ms)
  = Some (set_flags m (isCompleted m) true).
Proof.
  induction ms as [|h ms IH]; intros m Hf Hc Hu; [discriminate|].
  cbn [List.find change_first] in *. destruct (String.eqb (id h) missionId) eqn:E.
  - injection Hf as ->. split.
    + rewrite <- (app_nil_r (_ ++ [_])). apply sound_cons; [now apply sound_claim | apply sound_refl].
    + cbn [List.find set_flags id]. now rewrite E.
  - destruct (IH m Hf Hc Hu) as [I1 I2]. split.
    + change (giveReward (rewardType m) (rewardAmount m) ++ [mission_reward_claimed x])
        with ([] ++ (giveReward (rewardType m) (rewardAmount m) ++ [mission_reward_claimed x])).
      apply sound_cons; [apply sound_refl | exact I1].
    + cbn [List.find]. now rewrite E.
Qed.

Lemma sound_claimReward missionId ms :
  sound ms (fst (fst (claimReward missionId ms))) (snd (fst (claimReward missionId ms))).
Proof.
  unfold claimReward.
  destruct (List.find _ ms) as [m|] eqn:F; [|apply sound_refl].
  destruct (isCompleted m) eqn:Hc; cbn [negb orb]; [|apply sound_refl].
  destruct (isClaimed m) eqn:Hu; [apply sound_refl|]. cbn [fst snd].
  rewrite <- Hc at 2. now apply sound_change.
Qed.

Lemma sound_step s o :
  exists evs, snd (step s o) = snd s ++ evs /\ sound (fst s) (fst (step s o)) evs.
Proof.
  destruct o as [c amount|missionId]; cbn [step].
  - pose proof (sound_updateProgress c amount (fst s)) as H.
    destruct (updateProgress c amount (fst s)) as [ms evs]. now exists evs.
  - pose proof (sound_claimReward missionId (fst s)) as H.
    destruct (claimReward missionId (fst s)) as [[ms evs] ok]. now exists evs.
Qed.

Lemma sound_run ops : forall s,
  exists evs, snd (fold_left step ops s) = snd s ++ evs /\
              sound (fst s) (fst (fold_left step ops s)) evs.
Proof.
  induction ops as [|o ops IH]; intros s.
  - exists []. split; [now rewrite app_nil_r | apply sound_refl].
  - cbn [fold_left]. destruct (sound_step s o) as (e1 & E1 & S1).
    destruct (IH (step s o)) as (e2 & E2 & S2).
    exists (e1 ++ e2). split; [now rewrite E2, E1, app_assoc|].
    eapply sound_trans; eassumption.
Qed.

(** Every completion is announced once, and completed is for good:
    through any run of [updateProgress] and [claimReward] calls every
    mission keeps its identity, target and reward, a completed mission
    stays completed with its progress frozen, a claimed one stays claimed,
    and the ['mission-completed'] events emitted are exactly as many as
    the missions that became completed. *)
Theorem missions_complete_once :
  forall (ops : list Op) (missions : list Mission),
    Forall2 evolves missions (fst (run ops missions)) /\
    (completions (snd (run ops missions)) + completedMissions (getStatistics missions)
     = completedMissions (getStatistics (fst (run ops missions))))%nat.
Proof.
  intros ops missions. unfold run.
  destruct (sound_run ops (missions, [])) as (evs & E & [S1 S2 _ _ _]).
  cbn [fst snd app] in *. rewrite E. split; assumption.
Qed.

(** Rewards are paid once and the statistics agree with what was paid:
    through any run of [updateProgress] and [claimReward] calls, the coins
    and the gems that [getStatistics] reports as earned grow by exactly the
    amounts of the ['add-coins'] and ['add-gems'] events emitted, and the
    claimed rewards by the number of ['mission-reward-claimed'] events; a
    claim that succeeded fails when repeated, emitting nothing; and with no
    mission claimed before it was completed at the start, the claimed
    rewards never exceed the completed missions. *)
Theorem rewards_are_paid_once :
  forall (ops : list Op) (missions : list Mission),
    Forall honest missions ->
    let after := fst (run ops missions) in
    let evs := snd (run ops missions) in
    (totalCoinsEarned (getStatistics after)
     == totalCoinsEarned (getStatistics missions) + paid coins evs)%Q /\
    (totalGemsEarned (getStatistics after)
     == totalGemsEarned (getStatistics missions) + paid gems evs)%Q /\
    (claims evs + claimedRewards (getStatistics missions)
     = claimedRewards (getStatistics after))%nat /\
    (claimedRewards (getStatistics after) <= completedMissions (getStatistics after)
     <= totalMissions (getStatistics after))%nat /\
    (forall missionId,
       snd (claimReward missionId after) = true ->
       claimReward missionId (fst (fst (claimReward missionId after)))
       = (fst (fst (claimReward missionId after)), [], false)).
Proof.
  intros ops missions Hh after evs. unfold after, evs, run.
  destruct (sound_run ops (missions, [])) as (e & E & [S1 S2 S3 S4 S5]).
  cbn [fst snd app] in *. rewrite E. cbn [getStatistics totalCoinsEarned totalGemsEarned
                                          claimedRewards completedMissions totalMissions].
  split; [apply S4|]. split; [apply S4|]. split; [exact S3|]. split.
  - specialize (S5 Hh). clear -S5. induction S5 as [|m ms Hm _ IH]; [simpl; lia|].
    cbn [List.filter length]. unfold honest in Hm.
    destruct (isClaimed m); [rewrite Hm by reflexivity|]; destruct (isCompleted m);
      cbn [length]; lia.
  - intros missionId. unfold claimReward at 1.
    destruct (List.find _ _) as [m|] eqn:F; [|discriminate].
    destruct (isCompleted m) eqn:Hc; cbn [negb orb]; [|discriminate].
    destruct (isClaimed m) eqn:Hu; [discriminate|]. intros _.
    unfold claimReward at 2 3. rewrite F, Hc, Hu. cbn [negb orb fst snd].
    destruct (sound_change missionId m _ m F Hc Hu) as [_ F'].
    unfold claimReward. rewrite F'. cbn [set_flags isCompleted isClaimed].
    now rewrite orb_true_r.
Qed.

Lemma rewards_are_paid_once_witness :
  let m := mkMission "daily_1_0" "Biohazard Expert" "Defeat 50 enemies today" daily enemies
                     50 0 coins 30 false false None in
  let ops := [ClaimReward "daily_1_0"; UpdateProgress enemies 20; UpdateProgress enemies 35;
              ClaimReward "daily_1_0"; ClaimReward "daily_1_0"] in
  (totalCoinsEarned (getStatistics (fst (run ops [m])))
   == totalCoinsEarned (getStatistics [m]) + paid coins (snd (run ops [m])))%Q /\
  paid coins (snd (run ops [m])) = 30%Q.
Proof.
  intros m ops.
  destruct (rewards_are_paid_once ops [m]) as (H1 & _).
  - repeat constructor. discriminate.
  - split; [exact H1 | reflexivity].
Defined.

End MissionsFacts.
(** ** Mission generation *)

Module MissionGenFacts.
Import Missions MissionGen.

Lemma insert_perm {A} (x y : A) : forall (l : list A) (j : nat),
  l !! j = Some y -> y :: <[j := x]> l ≡ₚ x :: l.
Proof.
  induction l as [|z l IH]; intros j Hj; [discriminate|].
  destruct j as [|j]; simpl in *.
  - injection Hj as ->. apply perm_swap.
  - etransitivity; [apply perm_swap|].
    etransitivity; [apply perm_skip, (IH j Hj) | apply perm_swap].
Qed.

Lemma swap_perm {A} : forall (l : list A) (i j : nat), swap i j l ≡ₚ l.
Proof.
  induction l as [|z l IH]; intros i j; [now destruct i, j|].
  unfold swap. destruct i as [|i], j as [|j]; simpl.
  - reflexivity.
  - destruct (l !! j) as [y|] eqn:Hj; [|reflexivity]. simpl.
    now apply insert_perm.
  - destruct (l !! i) as [x|] eqn:Hi; [|reflexivity]. simpl.
    now apply insert_perm.
  - specialize (IH i j). unfold swap in IH.
    destruct (l !! i) as [x|]; [|reflexivity].
    destruct (l !! j) as [y|]; [|reflexivity]. simpl. now rewrite IH.
Qed.

Lemma shuffle_loop_perm {A} random : forall (i k : nat) (l : list A),
  shuffle_loop random k i l ≡ₚ l.
Proof.
  induction i as [|i IH]; intros k l; [reflexivity|].
  cbn [shuffle_loop]. rewrite IH. apply swap_perm.
Qed.

Lemma draw_in_range r i : (0 <= r < 1)%Q -> (draw r i <= i)%nat.
Proof.
  intros [H0 H1]. unfold draw.
  assert (Hi : (0 <= inject_Z (Z.of_nat i + 1))%Q).
  { change 0%Q with (inject_Z 0). rewrite <- Zle_Qle. lia. }
  assert (Hlt : (r * inject_Z (Z.of_nat i + 1) < inject_Z (Z.of_nat i + 1))%Q).
  { assert (0 < inject_Z (Z.of_nat i + 1))%Q.
    { change 0%Q with (inject_Z 0). rewrite <- Zlt_Qlt. lia. }
    nra. }
  assert (Hf : (Qfloor (r * inject_Z (Z.of_nat i + 1)) < Z.of_nat i + 1)%Z).
  { rewrite Zlt_Qlt. eapply Qle_lt_trans; [apply Qfloor_le | exact Hlt]. }
  lia.
Qed.

(** [shuffleArray] (Fisher-Yates) only reorders: whatever [Math.random]
    returns within its range [0, 1), every index drawn is inside the part
    of the array still to be shuffled, and the result is a permutation of
    the array, of the same length. *)
Theorem shuffleArray_permutes :
  forall (A : Type) (random : nat -> Q) (k : nat) (array : list A),
    (forall n, (0 <= random n < 1)%Q) ->
    shuffleArray random k array ≡ₚ array /\
    List.length (shuffleArray random k array) = List.length array /\
    (forall n i, (draw (random n) i <= i)%nat).
Proof.
  intros A random k array Hr.
  assert (Hp : shuffleArray random k array ≡ₚ array) by apply shuffle_loop_perm.
  split; [exact Hp|]. split; [now rewrite Hp|].
  intros n i. apply draw_in_range, Hr.
Qed.

Lemma shuffleArray_permutes_witness :
  shuffleArray (fun n => (1 # 2)%Q) 0 [1; 2; 3; 4; 5] ≡ₚ [1; 2; 3; 4; 5] /\
  shuffleArray (fun n => (1 # 2)%Q) 0 [1; 2; 3; 4; 5] = [1; 4; 2; 5; 3].
Proof.
  split.
  - apply (shuffleArray_permutes Z (fun n => (1 # 2)%Q) 0 [1; 2; 3; 4; 5]).
    intros n. split; [discriminate | reflexivity].
  - reflexivity.
Defined.

(** *** The ids *)

Lemma all_digits_no_underscore s : NumStr.all_digits s -> no_underscore s.
Proof.
  induction s as [|c r IH]; [trivial|]. intros [(d & Hd & ->) Hr].
  split; [|now apply IH]. NumStr.each_digit Hd; discriminate.
Qed.

Lemma toString_no_underscore n : no_underscore (NumStr.toString n).
Proof.
  unfold NumStr.toString. destruct (Z.ltb_spec n 0) as [E|E].
  - split; [discriminate|]. apply all_digits_no_underscore, NumStrFacts.all_digits_digits. lia.
  - apply all_digits_no_underscore, NumStrFacts.all_digits_digits. lia.
Qed.

Lemma split_underscore : forall a a' b b',
  no_underscore a -> no_underscore a' ->
  a +:+ String "_" b = a' +:+ String "_" b' -> a = a' /\ b = b'.
Proof.
  induction a as [|c a IH]; intros [|c' a'] b b' Ha Ha' E; simpl in *.
  - now injection E.
  - injection E as E1 E2. destruct Ha' as [Hc _]. now subst.
  - injection E as E1 E2. destruct Ha as [Hc _]. now subst.
  - injection E as -> E. destruct Ha as [_ Ha], Ha' as [_ Ha'].
    destruct (IH a' b b' Ha Ha' E) as [-> ->]. now split.
Qed.

Lemma toString_inj n n' : NumStr.toString n = NumStr.toString n' -> n = n'.
Proof.
  intros E. pose proof (NumStrFacts.parseInt_toString n) as H.
  rewrite E, NumStrFacts.parseInt_toString in H. congruence.
Qed.

Lemma id_mission_inj kind type type' stamp stamp' i i' t t' :
  id (mission kind type stamp i t) = id (mission kind type' stamp' i' t') -> i = i'.
Proof.
  cbn [mission id]. intros E.
  assert (E' : NumStr.toString stamp +:+ String "_" (NumStr.toString (Z.of_nat i))
               = NumStr.toString stamp' +:+ String "_" (NumStr.toString (Z.of_nat i'))).
  { clear -E. induction kind as [|c kind IH]; simpl in E; [now injection E|].
    injection E as E. now apply IH. }
  destruct (split_underscore _ _ _ _ (toString_no_underscore stamp)
              (toString_no_underscore stamp') E') as [_ Hi].
  apply toString_inj in Hi. lia.
Qed.

(** *** generateNewMissions *)

Lemma NoDup_titles : NoDup (title_of <$> dailyMissionTemplates).
Proof. apply (bool_decide_unpack _). vm_compute. reflexivity. Qed.

Lemma find_by_id (missions : list Mission) :
  (forall i j m m', missions !! i = Some m -> missions !! j = Some m' ->
                    id m = id m' -> i = j) ->
  forall i m, missions !! i = Some m ->
              List.find (fun x => String.eqb (id x) (id m)) missions = Some m.
Proof.
  induction missions as [|h ms IH]; intros Hu i m Hi; [discriminate|].
  cbn [List.find]. destruct (String.eqb_spec (id h) (id m)) as [E|Hne].
  - f_equal. assert (X : 0%nat = i) by (apply (Hu 0%nat i h m); [reflexivity | exact Hi | exact E]).
    subst i. now injection Hi.
  - destruct i as [|i]; [injection Hi as ->; now elim Hne|].
    apply (IH (fun a b x y Ha Hb Hid => eq_add_S _ _ (Hu (S a) (S b) x y Ha Hb Hid)) i m Hi).
Qed.

(** The daily part and the weekly part of what [generateNewMissions]
    makes. *)
Lemma generated random clock :
  (forall n, (0 <= random n < 1)%Q) ->
  exists (count : nat) (shuffledDaily : list Template) (w : Template),
    (count = 3 \/ count = 4)%nat /\
    shuffledDaily ≡ₚ dailyMissionTemplates /\
    w ∈ weeklyMissionTemplates /\
    fst (generateNewMissions random clock)
    = imap (fun i template => mission "daily" daily (clock (1 + i)%nat) i template)
           (take count shuffledDaily)
      ++ [mission "weekly" weekly (clock (1 + count)%nat) 0%nat w].
Proof.
  intros Hr. unfold generateNewMissions. cbn [fst].
  set (count := if JS.Qltb (random 0%nat) (3 # 10) then 3%nat else 4%nat).
  set (sd := shuffleArray random 1 dailyMissionTemplates).
  set (sw := shuffleArray random _ weeklyMissionTemplates).
  assert (Hc : (count = 3 \/ count = 4)%nat) by (unfold count; destruct (JS.Qltb _ _); auto).
  assert (Hsd : sd ≡ₚ dailyMissionTemplates) by apply shuffle_loop_perm.
  assert (Hsw : sw ≡ₚ weeklyMissionTemplates) by apply shuffle_loop_perm.
  assert (Hlen : length sw = 4%nat) by (now rewrite Hsw).
  destruct sw as [|w sw']; [discriminate|].
  exists count, sd, w. split; [exact Hc|]. split; [exact Hsd|]. split.
  - rewrite <- Hsw. now left.
  - cbn [take imap]. rewrite length_imap, length_take_le by (rewrite Hsd; cbn; lia).
    change (take 0 sw') with (@nil Template). cbn [imap]. now rewrite Nat.add_0_r.
Qed.

(** [generateNewMissions] makes three or four daily missions and one
    weekly mission, all with no progress, not completed and not claimed;
    the daily missions come from different templates, so no title is there
    twice; no two missions have the same id, so that [claimReward] finds
    each of them by its id; and [lastReset] is the time of the call. *)
Theorem generateNewMissions_makes_distinct_missions :
  forall (random : nat -> Q) (clock : nat -> Z),
    (forall n, (0 <= random n < 1)%Q) ->
    let missions := fst (generateNewMissions random clock) in
    snd (generateNewMissions random clock) = clock 0%nat /\
    (List.length (getDailyMissions missions) = 3 \/
     List.length (getDailyMissions missions) = 4)%nat /\
    List.length (getWeeklyMissions missions) = 1%nat /\
    List.length missions = S (List.length (getDailyMissions missions)) /\
    Forall fresh missions /\
    (forall i j m m',
       getDailyMissions missions !! i = Some m ->
       getDailyMissions missions !! j = Some m' ->
       title m = title m' -> i = j) /\
    (forall i j m m',
       missions !! i = Some m -> missions !! j = Some m' -> id m = id m' -> i = j) /\
    (forall i m,
       missions !! i = Some m ->
       List.find (fun x => String.eqb (id x) (id m)) missions = Some m).
Proof.
  intros random clock Hr missions.
  destruct (generated random clock Hr) as (count & sd & w & Hc & Hsd & Hw & E).
  fold missions in E.
  set (dailies := imap (fun i template => mission "daily" daily (clock (1 + i)%nat) i template)
                       (take count sd)) in *.
  set (wk := mission "weekly" weekly (clock (1 + count)%nat) 0%nat w) in *.
  assert (Hlen : length dailies = count).
  { unfold dailies. rewrite length_imap, length_take_le; [reflexivity|].
    rewrite Hsd. cbn. lia. }
  assert (Hd : forall i m, dailies !! i = Some m ->
                           exists t, sd !! i = Some t /\ (i < count)%nat /\
                                     m = mission "daily" daily (clock (1 + i)%nat) i t).
  { intros i m Hi. unfold dailies in Hi. rewrite list_lookup_imap in Hi.
    destruct (take count sd !! i) as [t|] eqn:Ht; [|discriminate].
    apply lookup_take_Some in Ht. destruct Ht as [Ht Hlt].
    exists t. repeat split; try assumption. now injection Hi. }
  assert (Hdaily : getDailyMissions missions = dailies).
  { rewrite E. unfold getDailyMissions. rewrite List.filter_app. cbn [List.filter wk mission type].
    rewrite app_nil_r. apply forallb_filter_id. apply forallb_forall.
    intros m Hin. apply list_elem_of_In, list_elem_of_lookup in Hin. destruct Hin as [i Hi].
    destruct (Hd i m Hi) as (t & _ & _ & ->). reflexivity. }
  assert (Hweekly : getWeeklyMissions missions = [wk]).
  { rewrite E. unfold getWeeklyMissions. rewrite List.filter_app. cbn [List.filter wk mission type isClaimed negb].
    replace (List.filter _ dailies) with (@nil Mission); [reflexivity|].
    symmetry. clear -Hd. 
    assert (H : forall m, m ∈ dailies -> type m = daily).
    { intros m Hin. apply list_elem_of_lookup in Hin. destruct Hin as [i Hi].
      destruct (Hd i m Hi) as (t & _ & _ & ->). reflexivity. }
    clear Hd. induction dailies as [|m ms IH]; [reflexivity|]. cbn [List.filter].
    rewrite (H m) by now left. apply IH. intros x Hx. apply H. now right. }
  assert (Hids : forall i j m m', missions !! i = Some m -> missions !! j = Some m' ->
                                  id m = id m' -> i = j).
  { intros i j m m' Hi Hj Hid. rewrite E, lookup_app in Hi, Hj.
    destruct (dailies !! i) as [a|] eqn:Hai; destruct (dailies !! j) as [b|] eqn:Hbj.
    - injection Hi as <-. injection Hj as <-.
      destruct (Hd i a Hai) as (t & _ & _ & ->). destruct (Hd j b Hbj) as (t' & _ & _ & ->).
      now apply id_mission_inj in Hid.
    - injection Hi as <-. destruct (Hd i a Hai) as (t & _ & _ & ->).
      destruct (j - length dailies)%nat; [|destruct n; discriminate].
      injection Hj as <-. discriminate Hid.
    - injection Hj as <-. destruct (Hd j b Hbj) as (t & _ & _ & ->).
      destruct (i - length dailies)%nat; [|destruct n; discriminate].
      injection Hi as <-. discriminate Hid.
    - apply lookup_ge_None in Hai, Hbj.
      destruct (i - length dailies)%nat eqn:Ei; [|destruct n; discriminate].
      destruct (j - length dailies)%nat eqn:Ej; [|destruct n; discriminate]. lia. }
  split; [reflexivity|]. rewrite Hdaily, Hweekly, Hlen.
  split; [exact Hc|]. split; [reflexivity|].
  split; [rewrite E, length_app, Hlen; cbn; lia|].
  split; [|split; [|split; [exact Hids | now apply find_by_id]]].
  - rewrite E. apply Forall_app. split.
    + apply Forall_lookup. intros i m Hi. destruct (Hd i m Hi) as (t & _ & _ & ->).
      now repeat split.
    + repeat constructor.
  - intros i j m m' Hi Hj Ht.
    destruct (Hd i m Hi) as (t & Hti & _ & ->). destruct (Hd j m' Hj) as (t' & Htj & _ & ->).
    assert (Hnd : NoDup (title_of <$> sd)) by (rewrite Hsd; apply NoDup_titles).
    apply (proj1 (NoDup_alt _) Hnd i j (title_of t)).
    + now rewrite list_lookup_fmap, Hti.
    + rewrite list_lookup_fmap, Htj. cbn. f_equal. symmetry. exact Ht.
Qed.

Lemma generateNewMissions_makes_distinct_missions_witness :
  let missions := fst (generateNewMissions (fun n => (1 # 2)%Q) (fun n => 1700000000000)) in
  List.length (getWeeklyMissions missions) = 1%nat /\
  map title (getDailyMissions missions)
  = ["Coin Collector"; "Power Collector"; "Biohazard Expert"; "Survival Master"].
Proof.
  intros missions.
  destruct (generateNewMissions_makes_distinct_missions
              (fun n => (1 # 2)%Q) (fun n => 1700000000000)) as (_ & _ & H & _).
  - intros n. split; [discriminate | reflexivity].
  - split; [exact H|]. vm_compute. reflexivity.
Defined.

End MissionGenFacts.
(** ** The campaign *)

Module CampaignFacts.
Import JSON Storage Missions Campaign.

Lemma stored_setItem `{Host} key key' default st st' text v :
  setItem st key text = Some st' ->
  JSON_parse text = Some v -> text <> EmptyString ->
  stored key' default st' = if String.eqb key' key then v else stored key' default st.
Proof.
  unfold setItem. destruct (refuses_writes st); [discriminate|]. intros [= <-] Hp Hne.
  unfold stored, getItem. cbn [items].
  destruct (String.eqb_spec key' key) as [->|Hk].
  - rewrite lookup_insert_eq. unfold present.
    destruct (String.eqb_spec text ""); [contradiction|]. now rewrite Hp.
  - rewrite lookup_insert_ne by congruence. reflexivity.
Qed.

Lemma stored_saveProgress `{Host} progressText key default missions st :
  key <> MissionManager.STORAGE_KEY ->
  stored key default (saveProgress progressText missions st) = stored key default st.
Proof.
  intros Hk. unfold saveProgress, setItem. destruct (refuses_writes st); [reflexivity|].
  unfold stored, getItem. cbn [items]. rewrite lookup_insert_ne by congruence. reflexivity.
Qed.

Lemma find_change_first test f : forall (ms : list Mission) m,
  List.find test ms = Some m -> test (f m) = true ->
  List.find test (change_first test f ms) = Some (f m).
Proof.
  induction ms as [|h ms IH]; intros m Hf Ht; [discriminate|].
  cbn [List.find change_first] in *. destruct (test h) eqn:E.
  - injection Hf as ->. cbn [List.find]. now rewrite Ht.
  - cbn [List.find]. rewrite E. now apply IH.
Qed.

Lemma find_test test : forall (ms : list Mission) m,
  List.find test ms = Some m -> test m = true.
Proof.
  induction ms as [|h ms IH]; intros m Hf; [discriminate|].
  cbn [List.find] in Hf. destruct (test h) eqn:E; [now injection Hf as <- | now apply IH].
Qed.

Lemma earned_change_first t test : forall (ms : list Mission) m,
  List.find test ms = Some m -> isClaimed m = false ->
  (earned t (change_first test (fun m => set_flags m true true) ms)
   == earned t ms + (if counts t (set_flags m true true) then rewardAmount m else 0))%Q.
Proof.
  induction ms as [|h ms IH]; intros m Hf Hu; [discriminate|].
  cbn [List.find change_first] in *. destruct (test h) eqn:E.
  - injection Hf as ->. rewrite !MissionsFacts.earned_cons.
    unfold counts at 2. rewrite Hu. cbn [andb set_flags rewardAmount]. lra.
  - rewrite !MissionsFacts.earned_cons, (IH m Hf Hu). lra.
Qed.

Lemma includes_snoc l entry :
  includes (JArr (l ++ [JStr entry])) entry = Some true.
Proof.
  cbn [includes]. rewrite existsb_app. cbn [existsb]. rewrite String.eqb_refl.
  now rewrite orb_true_r.
Qed.

Lemma includes_grows l entry other :
  includes (JArr l) other = Some true -> includes (JArr (l ++ [JStr entry])) other = Some true.
Proof. cbn [includes]. rewrite existsb_app. now intros [= ->]. Qed.

(** What [record] leaves under the two campaign keys, when the list is an
    array and the storage takes writes. *)
Lemma record_array `{Host} key other default l entry st :
  refuses_writes st = false ->
  stored key default st = JArr l ->
  other <> key ->
  (JSON_parse (JSON_stringify (JArr (l ++ [JStr entry]))) = Some (JArr (l ++ [JStr entry])) /\
   JSON_stringify (JArr (l ++ [JStr entry])) <> EmptyString) ->
  exists st' l',
    record key (JArr l) entry st = Some st' /\
    refuses_writes st' = false /\
    stored key default st' = JArr l' /\
    includes (JArr l') entry = Some true /\
    (forall x, includes (JArr l) x = Some true -> includes (JArr l') x = Some true) /\
    (forall d, stored other d st' = stored other d st).
Proof.
  intros Hw Hs Hk [Hp Hne]. unfold record.
  destruct (includes (JArr l) entry) as [[|]|] eqn:I; [| |discriminate].
  - exists st, l. repeat split; auto.
  - destruct (setItem st key _) as [st'|] eqn:S;
      [|unfold setItem in S; rewrite Hw in S; discriminate].
    exists st', (l ++ [JStr entry]). split; [reflexivity|]. split.
    { unfold setItem in S. rewrite Hw in S. now injection S as <-. }
    split.
    { rewrite (stored_setItem _ _ _ _ _ _ _ S Hp Hne). now rewrite String.eqb_refl. }
    split; [apply includes_snoc|]. split; [intros x; apply includes_grows|].
    intros d. rewrite (stored_setItem _ _ _ _ _ _ _ S Hp Hne).
    destruct (String.eqb_spec other key); [contradiction | reflexivity].
Qed.

(** Completing a campaign mission unlocks the next one and pays nothing.
    With arrays under the two campaign keys (or nothing), a storage that
    takes writes and a host whose JSON carries the two lists faithfully,
    [completeCampaignMission] on a campaign mission that is not completed
    answers true with the single event ['campaign-mission-completed'];
    afterwards the mission named by [rewards.unlock] is unlocked, every
    mission unlocked before still is, the mission is on the completed list,
    a second call answers false and changes nothing; and although no
    ['add-coins'] event is emitted, the mission is marked claimed, so that
    [getStatistics] counts its coins as earned. *)
Theorem campaign_completion_unlocks_next :
  forall (H : Host) (progressText : list Mission -> Storage -> string)
         (missions : list Mission) (st : Storage) (missionId next : string)
         (mission : Mission) (completed unlocked : list json),
    refuses_writes st = false ->
    List.find (fun m => String.eqb (id m) missionId
                        && match type m with campaign => true | _ => false end) missions
    = Some mission ->
    isCompleted mission = false -> isClaimed mission = false ->
    unlock mission = Some next -> next <> EmptyString ->
    getCompletedCampaignMissions st = JArr completed ->
    getUnlockedCampaignMissions st = JArr unlocked ->
    (JSON_parse (JSON_stringify (JArr (completed ++ [JStr missionId])))
     = Some (JArr (completed ++ [JStr missionId])) /\
     JSON_stringify (JArr (completed ++ [JStr missionId])) <> EmptyString) ->
    (JSON_parse (JSON_stringify (JArr (unlocked ++ [JStr next])))
     = Some (JArr (unlocked ++ [JStr next])) /\
     JSON_stringify (JArr (unlocked ++ [JStr next])) <> EmptyString) ->
    exists missions' st',
      completeCampaignMission progressText missionId missions st
      = JS.Return (missions', st',
                   [campaign_mission_completed (set_flags mission true true)], true) /\
      isCampaignMissionUnlocked next st' = JS.Return true /\
      (forall other,
         isCampaignMissionUnlocked other st = JS.Return true ->
         isCampaignMissionUnlocked other st' = JS.Return true) /\
      includes (getCompletedCampaignMissions st') missionId = Some true /\
      completeCampaignMission progressText missionId missions' st'
      = JS.Return (missions', st', [], false) /\
      (totalCoinsEarned (getStatistics missions')
       == totalCoinsEarned (getStatistics missions)
          + match rewardType mission with coins => rewardAmount mission | _ => 0 end)%Q.
Proof.
  intros H progressText missions st missionId next mission completed unlocked
         Hw Hf Hc Hu Hn Hne Hdone Hopen F1 F2.
  set (test := fun m => String.eqb (id m) missionId
                        && match type m with campaign => true | _ => false end) in *.
  set (missions' := change_first test (fun m => set_flags m true true) missions).
  assert (Ht : test mission = true) by (apply (find_test test missions), Hf).
  assert (Hf' : List.find test missions' = Some (set_flags mission true true))
    by (apply (find_change_first test (fun m => set_flags m true true) missions mission Hf);
        exact Ht).
  destruct (record_array COMPLETED UNLOCKED (JArr []) completed missionId st Hw Hdone)
    as (st1 & done' & R1 & Hw1 & S1 & I1 & _ & O1); [discriminate | exact F1 |].
  assert (Hopen1 : stored UNLOCKED (JArr [JStr "mission_1"]) st1 = JArr unlocked)
    by (rewrite O1; exact Hopen).
  destruct (record_array UNLOCKED COMPLETED (JArr [JStr "mission_1"]) unlocked next st1
              Hw1 Hopen1) as (st2 & open' & R2 & Hw2 & S2 & I2 & G2 & O2);
    [discriminate | exact F2 |].
  exists missions', (saveProgress progressText missions' st2).
  assert (Hu' : forall d, stored UNLOCKED d (saveProgress progressText missions' st2)
                          = stored UNLOCKED d st2)
    by (intros d; apply stored_saveProgress; discriminate).
  assert (Hc' : forall d, stored COMPLETED d (saveProgress progressText missions' st2)
                          = stored COMPLETED d st2)
    by (intros d; apply stored_saveProgress; discriminate).
  split; [|split; [|split; [|split; [|split]]]].
  - unfold completeCampaignMission. fold test. rewrite Hf, Hc.
    unfold getCompletedCampaignMissions in *. rewrite Hdone, R1.
    cbn [set_flags unlock]. rewrite Hn.
    destruct (String.eqb_spec next ""); [contradiction|]. cbn [negb].
    unfold getUnlockedCampaignMissions. rewrite Hopen1, R2. reflexivity.
  - unfold isCampaignMissionUnlocked, getUnlockedCampaignMissions.
    now rewrite Hu', S2, I2.
  - intros other. unfold isCampaignMissionUnlocked, getUnlockedCampaignMissions in *.
    rewrite Hu', S2. unfold getUnlockedCampaignMissions in Hopen. rewrite Hopen.
    destruct (includes (JArr unlocked) other) as [[|]|] eqn:I; try discriminate.
    intros _. now rewrite (G2 other I).
  - unfold getCompletedCampaignMissions. now rewrite Hc', O2, S1.
  - unfold completeCampaignMission. fold test. now rewrite Hf'.
  - cbn [getStatistics totalCoinsEarned]. unfold missions'.
    rewrite (earned_change_first coins test missions mission Hf Hu).
    unfold counts. cbn [set_flags isClaimed rewardType rewardAmount andb].
    destruct (rewardType mission); lra.
Qed.

Lemma campaign_completion_unlocks_next_witness :
  let mission := mkMission "mission_1" "First Harvest" "Clear the field" campaign
                           elimination 20 0 coins 50 false false (Some "mission_2") in
  exists missions' st',
    completeCampaignMission (H := RefHost.host) (fun _ _ => "progress") "mission_1"
                            [mission] (holding [])
    = JS.Return (missions', st',
                 [campaign_mission_completed (set_flags mission true true)], true) /\
    isCampaignMissionUnlocked (H := RefHost.host) "mission_2" st' = JS.Return true /\
    isCampaignMissionUnlocked (H := RefHost.host) "mission_2" (holding []) = JS.Return false.
Proof.
  intros mission.
  destruct (campaign_completion_unlocks_next RefHost.host (fun _ _ => "progress")
              [mission] (holding []) "mission_1" "mission_2" mission
              [] [JStr "mission_1"])
    as (missions' & st' & H1 & H2 & _); try reflexivity; try discriminate.
  - split; [vm_compute; reflexivity | vm_compute; discriminate].
  - split; [vm_compute; reflexivity | vm_compute; discriminate].
  - exists missions', st'. split; [exact H1|]. split; [exact H2 | reflexivity].
Defined.

End CampaignFacts.

(** ** GameOverScene: banner and menu *)

Module GameOverMenuFacts.
Import JSON Storage GameOverScene GameOverMenu GameOverSceneFacts.

(** The banner and the write go together.  [create] decides on the banner
    before [saveHighScore] runs, by the same test: with a storage that
    takes writes, the scene announces a new high score exactly when it
    stores one, and the stored text then reads back as the integer part of
    the score.  For a score that is a whole number that is the score, so
    that the same result shown again is no new high score and writes
    nothing.  For a positive score with a fraction it is less than the
    score, and the same result is announced as a new high score again. *)
Theorem new_high_score_is_announced_once :
  forall (H : Host) (date : string) (gameData : GameOverData) (st : Storage)
         (text : string),
    refuses_writes st = false ->
    NumStr.Number_toString (score gameData) = Some text ->
    (Qabs (score gameData) < inject_Z (10 ^ 21))%Q ->
    (score gameData == 0 \/ 1 # 10 ^ 6 <= Qabs (score gameData))%Q ->
    exists st',
      saveHighScore date gameData st = Some (JS.Return st') /\
      (displayHighScore gameData st <> NewHighScore -> st' = st) /\
      (displayHighScore gameData st = NewHighScore ->
         getItem st' (highScoreKey (mode gameData)) = Some text /\
         currentHighScore st' (mode gameData)
           = Some (NumStr.truncate (score gameData))) /\
      (forall n, (score gameData == inject_Z n)%Q ->
         displayHighScore gameData st' <> NewHighScore /\
         (displayHighScore gameData st = NewHighScore ->
            displayHighScore gameData st' = BestScore (Some n)) /\
         (forall date', saveHighScore date' gameData st' = Some (JS.Return st'))) /\
      ((0 < score gameData)%Q ->
       ~ (exists n, (score gameData == inject_Z n)%Q) ->
       displayHighScore gameData st = NewHighScore ->
       displayHighScore gameData st' = NewHighScore).
Proof.
  intros H date gameData st text Hw Ht Hhi Hlo.
  destruct (NumStrFacts.parseInt_printed _ _ Ht Hhi Hlo) as [Hne Hp].
  unfold displayHighScore.
  destruct (beats (score gameData) (currentHighScore st (mode gameData))) eqn:B.
  - destruct (saveHighScore_writes date gameData st text Hw B Ht)
      as (st' & Hs & Hw' & G & _).
    exists st'. split; [exact Hs|].
    assert (C : currentHighScore st' (mode gameData)
                = Some (NumStr.truncate (score gameData))).
    { unfold currentHighScore. rewrite G. unfold present.
      destruct (String.eqb_spec text "") as [E|_]; [contradiction | exact Hp]. }
    split; [intros X; now elim X|]. split; [now intros _|]. rewrite C. split.
    + intros n E.
      assert (Hn : NumStr.truncate (score gameData) = n)
        by (rewrite (NumStrFacts.truncate_comp _ _ E); apply NumStrFacts.truncate_inject_Z).
      assert (B' : beats (score gameData) (Some n) = false).
      { unfold beats, JS.Qltb. apply negb_false_iff, Qle_bool_iff. rewrite E. apply Qle_refl. }
      rewrite Hn, B'. split; [discriminate|]. split; [reflexivity|].
      intros date'. unfold saveHighScore. now rewrite C, Hn, B'.
    + intros Hpos Hfrac _.
      assert (B' : beats (score gameData) (Some (NumStr.truncate (score gameData))) = true).
      { unfold beats, JS.Qltb. apply negb_true_iff.
        destruct (Qle_bool (score gameData) (inject_Z (NumStr.truncate (score gameData))))
          eqn:L; [|reflexivity].
        exfalso. apply Hfrac. apply NumStrFacts.whole_truncate.
        apply Qle_bool_iff in L. apply Qle_antisym; [|exact L].
        unfold NumStr.truncate.
        assert (Qle_bool 0 (score gameData) = true) as ->
          by (apply Qle_bool_iff; lra).
        apply Qfloor_le. }
      now rewrite B'.
  - exists st. unfold saveHighScore. rewrite B. split; [reflexivity|].
    split; [reflexivity|]. split; [discriminate|]. split.
    + intros n _. split; [discriminate|]. split; [discriminate|].
      reflexivity.
    + discriminate.
Qed.

Lemma new_high_score_is_announced_once_witness :
  let st := holding [("highScore_survival", "1200")] in
  let gameData := mkGameOverData 1500 (Some 7%Q) (Some 15%Q) "survival" None in
  exists st',
    saveHighScore (H := RefHost.host) "2024-05-01T10:00:00.000Z" gameData st
      = Some (JS.Return st') /\
    displayHighScore gameData st = NewHighScore /\
    displayHighScore gameData st' = BestScore (Some 1500).
Proof.
  intros st gameData.
  destruct (new_high_score_is_announced_once RefHost.host "2024-05-01T10:00:00.000Z"
              gameData st "1500") as (st' & H1 & _ & _ & H2 & _);
    [reflexivity | reflexivity | reflexivity | right; discriminate |].
  exists st'. split; [exact H1|]. split; [reflexivity|].
  apply (H2 1500); reflexivity.
Defined.

(** *** The menu *)

Lemma createMenu_length data :
  length (createMenu data) = 2%nat \/ length (createMenu data) = 3%nat.
Proof.
  unfold createMenu. destruct (_ && _); auto.
Qed.

Lemma in_menu_step data s i : on_a_button data i -> in_menu data s -> in_menu data (step s i).
Proof.
  intros Hi [Hm Hs]. unfold in_menu, length_of in *.
  destruct i as [| |index]; cbn [step keydown_UP keydown_DOWN selectMenuItem
                                   menuItems selectedIndex length_of]; unfold length_of, JS.rem;
    (split; [exact Hm|]).
  - rewrite Z.rem_mod_nonneg by lia. apply Z.mod_pos_bound. lia.
  - rewrite Z.rem_mod_nonneg by lia. apply Z.mod_pos_bound. lia.
  - simpl in Hi. rewrite Hm. exact Hi.
Qed.

(** The selection never leaves the menu.  The menu has 'Next Level'
    exactly after a campaign victory; after any key presses and moves of
    the pointer over its buttons, the selected index is one of its items,
    so that ENTER always has an action to call; UP and DOWN wrap around and
    undo each other. *)
Theorem game_over_menu_selection_stays_inside :
  forall (data : GameOverData) (inputs : list Input),
    Forall (on_a_button data) inputs ->
    let s := run inputs (create data) in
    menuItems s = createMenu data /\
    (In nextLevel (menuItems s) <-> mode data = "campaign" /\ victory data = Some true) /\
    0 <= selectedIndex s < Z.of_nat (List.length (menuItems s)) /\
    (exists action, activateMenuItem s = Some action /\ In action (menuItems s)) /\
    keydown_DOWN (keydown_UP s) = s /\
    keydown_UP (keydown_DOWN s) = s.
Proof.
  intros data inputs Hin s.
  assert (Hs : in_menu data s).
  { unfold s, run.
    assert (H0 : in_menu data (create data)).
    { split; [reflexivity|]. unfold length_of, create. cbn [selectedIndex menuItems].
      destruct (createMenu_length data) as [-> | ->]; lia. }
    revert H0. generalize (create data).
    induction Hin as [|i inputs Hi _ IH]; intros s0 H0; [exact H0|].
    simpl. apply IH. now apply in_menu_step. }
  destruct Hs as [Hm Hs]. unfold length_of in Hs.
  split; [exact Hm|]. split; [|split; [exact Hs|split; [|split]]].
  - rewrite Hm. unfold createMenu.
    destruct (String.eqb_spec (mode data) "campaign") as [E|E];
      destruct (victory data) as [[|]|]; simpl; intuition congruence.
  - unfold activateMenuItem. destruct (Z.ltb_spec (selectedIndex s) 0) as [E|_]; [lia|].
    destruct (nth_error (menuItems s) (Z.to_nat (selectedIndex s))) as [a|] eqn:N.
    + exists a. split; [reflexivity|]. eapply nth_error_In, N.
    + apply nth_error_None in N. lia.
  - destruct s as [d sel items]. unfold keydown_DOWN, keydown_UP, length_of, JS.rem in *.
    cbn [gameData selectedIndex menuItems] in *. f_equal.
    set (n := Z.of_nat (length items)) in *.
    rewrite (Z.rem_mod_nonneg (sel - 1 + n) n) by lia.
    rewrite Z.rem_mod_nonneg by (pose proof (Z.mod_pos_bound (sel - 1 + n) n); lia).
    rewrite Zplus_mod_idemp_l. replace (sel - 1 + n + 1) with (sel + 1 * n) by lia.
    rewrite Z_mod_plus_full. apply Z.mod_small. lia.
  - destruct s as [d sel items]. unfold keydown_DOWN, keydown_UP, length_of, JS.rem in *.
    cbn [gameData selectedIndex menuItems] in *. f_equal.
    set (n := Z.of_nat (length items)) in *.
    rewrite (Z.rem_mod_nonneg (sel + 1) n) by lia.
    rewrite Z.rem_mod_nonneg by (pose proof (Z.mod_pos_bound (sel + 1) n); lia).
    replace ((sel + 1) mod n - 1 + n) with ((sel + 1) mod n + (n - 1)) by lia.
    rewrite Zplus_mod_idemp_l. replace (sel + 1 + (n - 1)) with (sel + 1 * n) by lia.
    rewrite Z_mod_plus_full. apply Z.mod_small. lia.
Qed.

Lemma game_over_menu_selection_stays_inside_witness :
  let data := mkGameOverData 2100 (Some 1%Q) (Some 21%Q) "campaign" (Some true) in
  let s := run [UP; Over 1; DOWN; DOWN] (create data) in
  0 <= selectedIndex s < 3 /\ activateMenuItem (run [UP; Over 1] (create data)) = Some nextLevel.
Proof.
  intros data s.
  destruct (game_over_menu_selection_stays_inside data [UP; Over 1; DOWN; DOWN])
    as (_ & _ & H & _).
  - repeat constructor; simpl; lia.
  - split; [exact H | reflexivity].
Defined.

End GameOverMenuFacts.
(** ** GameScene: the score *)

Module GameSceneFacts.
Import GameOverScene GameScene.

Lemma balanced_step s o :
  balanced s -> balanced (step s o) /\ gameData (step s o) = gameData s.
Proof.
  intros (Hs & Hk & Hw). destruct o as [damage enemy|delta hp]; cbn [step].
  - unfold handleProjectileEnemyHit. destruct (Qle_bool _ 0);
      unfold balanced; cbn [fst snd score wave enemiesKilled gameData]; repeat split; lia.
  - unfold update, checkGameState. cbn [gameData score wave enemiesKilled gameTime].
    destruct (match hp with Some h => Qle_bool h 0 | None => false end);
      [unfold balanced; cbn [fst snd score wave enemiesKilled gameData]; repeat split; lia|].
    destruct (gd_mode (gameData s)).
    + destruct (20 <=? enemiesKilled s);
        unfold balanced; cbn [fst snd score wave enemiesKilled gameData]; repeat split; lia.
    + destruct (Z.ltb_spec (wave s) (Qfloor ((gameTime s + delta) / 60000) + 1));
        unfold balanced; cbn [fst snd score wave enemiesKilled gameData]; repeat split; lia.
Qed.

Lemma gameOverData_fields s v :
  score s = 100 * enemiesKilled s ->
  GameOverScene.score (gameOverData s v) = inject_Z (100 * enemiesKilled s) /\
  GameOverScene.enemiesKilled (gameOverData s v) = Some (inject_Z (enemiesKilled s)) /\
  GameOverScene.mode (gameOverData s v) = modeName (gd_mode (gameData s)) /\
  GameOverScene.victory (gameOverData s v) = v.
Proof. intros Hs. unfold gameOverData. cbn. now rewrite Hs. Qed.

(** When a frame ends the game. *)
Lemma update_GameOver delta hp s over :
  snd (update delta hp s) = Some (GameOver over) ->
  exists s' v,
    over = gameOverData s' v /\
    score s' = score s /\ enemiesKilled s' = enemiesKilled s /\
    gameData s' = gameData s /\
    (v = Some true -> gd_mode (gameData s) = campaign /\ 20 <= enemiesKilled s) /\
    (v <> Some true -> exists h, hp = Some h /\ (h <= 0)%Q).
Proof.
  unfold update, checkGameState. cbn [gameData score wave enemiesKilled gameTime].
  set (s' := mkScene _ _ _ _ _).
  assert (Hwin : snd (if 20 <=? enemiesKilled s then (s', Some (levelComplete s'))
                      else (s', None)) = Some (GameOver over) ->
                 gd_mode (gameData s) = campaign ->
                 over = gameOverData s' (Some true) /\ 20 <= enemiesKilled s).
  { destruct (Z.leb_spec 20 (enemiesKilled s)); cbn [snd]; [|discriminate].
    intros X M. unfold levelComplete in X. cbn [gameData s'] in X. rewrite M in X.
    destruct (gd_level (gameData s)) as [l|];
      [destruct (negb (Qeq_bool l 0) && JS.Qltb l 2); [discriminate|]|];
      injection X as <-; now split. }
  destruct (match hp with Some h => Qle_bool h 0 | None => false end) eqn:D.
  - cbn [snd]. unfold gameOver. intros [= <-]. exists s', None.
    repeat split; try discriminate.
    intros _. destruct hp as [h|]; [|discriminate].
    exists h. split; [reflexivity | now apply Qle_bool_iff].
  - destruct (gd_mode (gameData s)) eqn:M.
    + intros X. destruct (Hwin X eq_refl) as [-> Hk]. exists s', (Some true).
      repeat split; try assumption. intros X'. now elim X'.
    + destruct (_ <? _); discriminate.
Qed.

(** The score is the kills.  Through any hits and frames of a game the
    score is 100 times the enemies killed; a hit counts as a kill exactly
    when its damage reaches the health of the enemy; and the data handed to
    the game-over scene carry that score and those kills, with [victory]
    only in campaign mode with 20 kills or more, and without it only for a
    dead player. *)
Theorem score_is_a_hundred_per_kill :
  forall (data : option GameData) (ops : list Op),
    let s := run ops (init data) in
    score s = 100 * enemiesKilled s /\
    (forall damage enemy,
       enemiesKilled (fst (fst (handleProjectileEnemyHit damage enemy s)))
       = enemiesKilled s + (if Qle_bool (Enemy.health enemy) damage then 1 else 0) /\
       snd (handleProjectileEnemyHit damage enemy s) = Qle_bool (Enemy.health enemy) damage) /\
    (forall delta playerHealth over,
       snd (update delta playerHealth s) = Some (GameOver over) ->
       GameOverScene.score over = inject_Z (100 * enemiesKilled s) /\
       GameOverScene.enemiesKilled over = Some (inject_Z (enemiesKilled s)) /\
       GameOverScene.mode over = modeName (gd_mode (gameData s)) /\
       (GameOverScene.victory over = Some true ->
        GameOverScene.mode over = "campaign" /\ 20 <= enemiesKilled s /\
        (2000 <= GameOverScene.score over)%Q) /\
       (GameOverScene.victory over <> Some true ->
        exists h, playerHealth = Some h /\ (h <= 0)%Q)).
Proof.
  intros data ops s.
  assert (Hb : balanced s).
  { unfold s, run.
    assert (H0 : balanced (init data)) by (unfold balanced; cbn; lia).
    revert H0. generalize (init data).
    induction ops as [|o ops IH]; intros s0 H0; [exact H0|].
    simpl. apply IH. now apply balanced_step. }
  destruct Hb as (Hs & Hk & Hw). split; [exact Hs|]. split.
  - intros damage enemy. unfold handleProjectileEnemyHit, Enemy.takeDamage.
    cbn [Enemy.set_stateTimer Enemy.set_state Enemy.set_health Enemy.health].
    assert (E : Qle_bool (JS.Math_max 0 (Enemy.health enemy - damage)) 0
                = Qle_bool (Enemy.health enemy) damage).
    { unfold JS.Math_max. apply eq_true_iff_eq. rewrite !Qle_bool_iff. split; intros X.
      - pose proof (Q.le_max_r 0 (Enemy.health enemy - damage)). lra.
      - apply Q.max_lub; lra. }
    rewrite E. destruct (Qle_bool (Enemy.health enemy) damage); cbn; split; first [lia | reflexivity].
  - intros delta hp over Hover.
    destruct (update_GameOver _ _ _ _ Hover) as (s' & v & -> & Es & Ek & Eg & Hwin & Hlose).
    destruct (gameOverData_fields s' v) as (F1 & F2 & F3 & F4); [congruence|].
    rewrite Ek, Eg in *. rewrite F1, F2, F3, F4.
    split; [reflexivity|]. split; [reflexivity|]. split; [reflexivity|].
    split; [|exact Hlose].
    intros V. destruct (Hwin V) as [M K]. rewrite M. split; [reflexivity|].
    split; [exact K|]. change 2000%Q with (inject_Z 2000). rewrite <- Zle_Qle. lia.
Qed.

End GameSceneFacts.
(** ** PerformanceMonitor *)

Module PerformanceMonitorFacts.
Import PerformanceMonitor.

Lemma within_checkPerformance now m :
  (within (quality m) -> within (quality (fst (checkPerformance now m)))) /\
  (well_within (quality m) -> well_within (quality (fst (checkPerformance now m)))).
Proof.
  unfold checkPerformance.
  destruct (_ || _); [tauto|].
  destruct (Qle_bool (getAverageFPS m) BAD_FPS).
  { cbn [fst quality]. unfold within, well_within. cbn [maxParticles maxEnemies parallaxUpdateRate].
    split; intros ((? & ?) & (? & ?) & (? & ?)); bounds. }
  destruct (Qle_bool (getAverageFPS m) POOR_FPS).
  { cbn [fst quality]. unfold within, well_within. cbn [maxParticles maxEnemies parallaxUpdateRate].
    split; intros ((? & ?) & (? & ?) & (? & ?)); bounds. }
  destruct (Qle_bool GOOD_FPS (getAverageFPS m)); [|tauto].
  destruct (Qle_bool PERFECT_FPS (getAverageFPS m)); [|tauto].
  cbn [fst quality]. unfold within, well_within. cbn [maxParticles maxEnemies parallaxUpdateRate].
  split; intros ((? & ?) & (? & ?) & (? & ?)); bounds.
Qed.

Lemma length_trackFPS actualFps m :
  (length (fpsHistory m) <= historySize)%nat ->
  (length (fpsHistory (trackFPS actualFps m)) <= historySize)%nat /\
  (length (fpsHistory (trackFPS actualFps m)) <= S (length (fpsHistory m)))%nat.
Proof.
  intros Hl. unfold trackFPS. cbn [fpsHistory].
  destruct (Nat.ltb_spec historySize (length (fpsHistory m ++ [Math_round actualFps]))) as [E|E].
  - rewrite length_app in E. cbn [length] in E.
    destruct (fpsHistory m ++ [Math_round actualFps]) as [|x l] eqn:X.
    + destruct (fpsHistory m); discriminate.
    + assert (L : length (x :: l) = S (length (fpsHistory m)))
        by (rewrite <- X, length_app; cbn; lia).
      cbn [List.tl length] in *. lia.
  - rewrite length_app in *. cbn [length] in *. lia.
Qed.

Lemma fpsHistory_checkPerformance now m :
  fpsHistory (fst (checkPerformance now m)) = fpsHistory m.
Proof.
  unfold checkPerformance. destruct (_ || _); [reflexivity|].
  destruct (Qle_bool _ BAD_FPS); [reflexivity|].
  destruct (Qle_bool _ POOR_FPS); [reflexivity|].
  now destruct (Qle_bool GOOD_FPS _).
Qed.

Lemma tidy_step m o :
  (tidy m -> tidy (step m o)) /\
  (automatic o -> well_within (quality m) -> well_within (quality (step m o))).
Proof.
  destruct o as [fps now|settings|now|]; cbn [step automatic].
  - unfold onUpdate. split.
    + intros [Hl Hq]. split.
      * rewrite fpsHistory_checkPerformance. now apply length_trackFPS.
      * now apply within_checkPerformance.
    + intros _ Hq. now apply within_checkPerformance.
  - split; [|intros []]. intros [Hl Hq]. split; [exact Hl|].
    destruct Hq as ((? & ?) & (? & ?) & (? & ?)).
    unfold setQualitySettings, within. cbn [fst quality maxParticles maxEnemies parallaxUpdateRate].
    destruct (s_maxParticles settings), (s_maxEnemies settings),
      (s_parallaxUpdateRate settings); bounds.
  - unfold forcePerformanceCheck. split.
    + intros [Hl Hq]. split.
      * now rewrite fpsHistory_checkPerformance.
      * now apply within_checkPerformance.
    + intros _ Hq. now apply within_checkPerformance.
  - split.
    + intros [Hl _]. split; [exact Hl|]. unfold within. cbn. repeat split; lra.
    + intros _ _. unfold well_within. cbn. repeat split; lra.
Qed.

(** The quality settings stay in range.  Whatever frame rates the monitor
    sees and whatever settings it is given, the history holds at most 10
    samples, [maxParticles] stays within 5..200, [maxEnemies] within 5..60
    and [parallaxUpdateRate] within 0.1..1; left to itself (no manual
    settings) it keeps them within 10..100, 12..40 and 0.2..1. *)
Theorem quality_settings_stay_in_range :
  forall ops : list Op,
    let q := quality (run ops new) in
    (List.length (fpsHistory (run ops new)) <= 10)%nat /\
    (5 <= maxParticles q /\ maxParticles q <= 200)%Q /\
    (5 <= maxEnemies q /\ maxEnemies q <= 60)%Q /\
    ((1 # 10) <= parallaxUpdateRate q /\ parallaxUpdateRate q <= 1)%Q /\
    (Forall automatic ops ->
     (10 <= maxParticles q /\ maxParticles q <= 100)%Q /\
     (12 <= maxEnemies q /\ maxEnemies q <= 40)%Q /\
     ((2 # 10) <= parallaxUpdateRate q /\ parallaxUpdateRate q <= 1)%Q).
Proof.
  intros ops q. unfold q, run.
  assert (H0 : tidy new) by (split; [cbn; lia | unfold within; cbn; repeat split; lra]).
  assert (W0 : well_within (quality new)) by (unfold well_within; cbn; repeat split; lra).
  assert (G : forall m, tidy m -> tidy (fold_left step ops m)).
  { clear. induction ops as [|o ops IH]; intros m Hm; [exact Hm|].
    cbn [fold_left]. apply IH. now apply tidy_step. }
  assert (N : forall m, Forall automatic ops -> well_within (quality m) ->
                        well_within (quality (fold_left step ops m))).
  { clear. induction ops as [|o ops IH]; intros m Ha Hm; [exact Hm|].
    inversion Ha; subst. cbn [fold_left]. apply IH; [assumption|].
    now apply tidy_step. }
  destruct (G new H0) as [Hl (A & B & C)].
  split; [exact Hl|]. split; [exact A|]. split; [exact B|]. split; [exact C|].
  intros Ha. exact (N new Ha W0).
Qed.

(** *** Cooldown *)

Lemma onUpdate_cooling fps now m :
  (now - lastAdjustment m < ADJUSTMENT_COOLDOWN)%Q ->
  snd (onUpdate fps now m) = None /\
  quality (fst (onUpdate fps now m)) = quality m /\
  lastAdjustment (fst (onUpdate fps now m)) = lastAdjustment m.
Proof.
  intros Hc. unfold onUpdate, checkPerformance.
  change (lastAdjustment (trackFPS fps m)) with (lastAdjustment m).
  assert (E : JS.Qltb (now - lastAdjustment m) ADJUSTMENT_COOLDOWN = true)
    by (apply VitalsFacts.Qltb_true; exact Hc).
  rewrite E, orb_true_r. now repeat split.
Qed.

Lemma onUpdate_short fps now m :
  (length (fpsHistory m) < 9)%nat ->
  snd (onUpdate fps now m) = None /\
  quality (fst (onUpdate fps now m)) = quality m /\
  length (fpsHistory (fst (onUpdate fps now m))) = S (length (fpsHistory m)).
Proof.
  intros Hl. unfold onUpdate, checkPerformance.
  assert (L : length (fpsHistory (trackFPS fps m)) = S (length (fpsHistory m))).
  { unfold trackFPS. cbn [fpsHistory].
    assert (La : length (fpsHistory m ++ [Math_round fps]) = S (length (fpsHistory m)))
      by (rewrite length_app; cbn; lia).
    destruct (Nat.ltb_spec historySize (length (fpsHistory m ++ [Math_round fps]))) as [E|E];
      [unfold historySize in E; lia | exact La]. }
  rewrite L.
  destruct (Nat.ltb_spec (S (length (fpsHistory m))) historySize) as [E|E];
    [|unfold historySize in E; lia].
  cbn [orb fst snd]. repeat split. exact L.
Qed.

(** The monitor does not adjust in a hurry.  A new monitor changes nothing
    and emits nothing during its first 9 frames, whatever the frame rate;
    and after a frame on which it degraded the quality (an update event
    was emitted at time [now]), the frames on the clock before
    [now + 3000] change no setting and emit no event. *)
Theorem adjustments_wait_for_history_and_cooldown :
  forall (m : Monitor) (fps now : Q) (emitted : Quality) (frames : list Op),
    snd (onUpdate fps now m) = Some emitted ->
    Forall (before (now + 3000)) frames ->
    emitted = quality (fst (onUpdate fps now m)) /\
    quality (run frames (fst (onUpdate fps now m))) = emitted /\
    (forall fps' now',
       (now' < now + 3000)%Q ->
       snd (onUpdate fps' now' (run frames (fst (onUpdate fps now m)))) = None) /\
    (forall (early : list (Q * Q)) fps' now',
       (List.length early < 9)%nat ->
       let young := run (map (fun f => Update (fst f) (snd f)) early) new in
       quality young = defaults /\ snd (onUpdate fps' now' young) = None).
Proof.
  intros m fps now emitted frames He Hf.
  assert (Hm : emitted = quality (fst (onUpdate fps now m)) /\
               lastAdjustment (fst (onUpdate fps now m)) = now).
  { revert He. unfold onUpdate, checkPerformance. destruct (_ || _); [discriminate|].
    destruct (Qle_bool _ BAD_FPS); [now intros [= <-]|].
    destruct (Qle_bool _ POOR_FPS); [now intros [= <-]|].
    destruct (Qle_bool GOOD_FPS _); discriminate. }
  destruct Hm as [Hq Hl]. split; [exact Hq|].
  assert (G : forall m1, lastAdjustment m1 = now ->
                quality (run frames m1) = quality m1 /\
                lastAdjustment (run frames m1) = now).
  { clear -Hf. induction Hf as [|o frames Ho _ IH]; intros m1 H1; [now split|].
    destruct o as [fps' now'| | |]; simpl in Ho; try contradiction.
    cbn [run fold_left step]. change (fold_left step frames ?x) with (run frames x).
    destruct (onUpdate_cooling fps' now' m1) as (_ & Q1 & L1);
      [rewrite H1; unfold ADJUSTMENT_COOLDOWN; lra|].
    destruct (IH (fst (onUpdate fps' now' m1))) as [Q2 L2]; [congruence|].
    split; congruence. }
  destruct (G _ Hl) as [G1 G2]. split; [congruence|]. split.
  - intros fps' now' Hn. apply onUpdate_cooling. rewrite G2.
    unfold ADJUSTMENT_COOLDOWN. lra.
  - intros early fps' now' Hlen young.
    assert (Y : forall m0,
              (length (fpsHistory m0) + length early < 9)%nat ->
              quality (run (map (fun f => Update (fst f) (snd f)) early) m0) = quality m0 /\
              (length (fpsHistory (run (map (fun f => Update (fst f) (snd f)) early) m0))
               = length (fpsHistory m0) + length early)%nat).
    { clear. induction early as [|[f t] early IH]; intros m0 Hl; [cbn; split; [reflexivity | lia]|].
      cbn [map run fold_left step fst snd length] in *.
      change (fold_left step ?l ?x) with (run l x).
      destruct (onUpdate_short f t m0) as (_ & Q1 & L1); [lia|].
      destruct (IH (fst (onUpdate f t m0))) as [Q2 L2]; [lia|].
      split; [congruence | lia]. }
    destruct (Y new) as [Y1 Y2]; [cbn; lia|].
    split; [exact Y1|]. apply onUpdate_short. fold young in Y2. rewrite Y2. cbn. lia.
Qed.

Lemma adjustments_wait_for_history_and_cooldown_witness :
  let warm := map (fun t => Update 25 (inject_Z t)) [0; 16; 32; 48; 64; 80; 96; 112; 128] in
  let m := run warm new in
  snd (onUpdate 25 4000 m) = Some (mkQuality 45 22 false (8 # 10)) /\
  quality (run [Update 20 4016; Update 20 6999] (fst (onUpdate 25 4000 m)))
  = mkQuality 45 22 false (8 # 10).
Proof.
  intros warm m.
  assert (E : snd (onUpdate 25 4000 m) = Some (mkQuality 45 22 false (8 # 10)))
    by reflexivity.
  split; [exact E|].
  destruct (adjustments_wait_for_history_and_cooldown m 25 4000
              (mkQuality 45 22 false (8 # 10)) [Update 20 4016; Update 20 6999] E)
    as (_ & H & _).
  - repeat constructor; simpl; lra.
  - exact H.
Defined.

End PerformanceMonitorFacts.

(** ** levenshteinDistance *)

Module ValidateAssetsFacts.
Import ValidateAssets.

Lemma fold_seq_inv {A} (P : nat -> A -> Prop) (f : A -> nat -> A) : forall len start m,
  P start m ->
  (forall k m', (start <= k < start + len)%nat -> P k m' -> P (S k) (f m' k)) ->
  P (start + len)%nat (fold_left f (seq start len) m).
Proof.
  induction len as [|len IH]; intros start m H0 Hs; cbn [seq fold_left].
  - now rewrite Nat.add_0_r.
  - replace (start + S len)%nat with (S start + len)%nat by lia.
    apply IH; [apply Hs; [lia | exact H0]|].
    intros k m' Hk. apply Hs. lia.
Qed.

Lemma write_spec a b matrix j i v :
  shape a b matrix -> (j <= length b)%nat -> (i <= length a)%nat ->
  shape a b (write matrix j i v) /\
  read (write matrix j i v) j i = v /\
  (forall j' i', (j', i') <> (j, i) -> read (write matrix j i v) j' i' = read matrix j' i').
Proof.
  intros [Hl Hr] Hj Hi. unfold write.
  destruct (matrix !! j) as [row|] eqn:R;
    [|apply lookup_ge_None in R; lia].
  pose proof (Hr j row R) as Hlen.
  split; [|split].
  - split; [now rewrite length_insert|].
    intros j' row' H'. destruct (decide (j = j')) as [<-|Hne].
    + rewrite list_lookup_insert_eq in H' by (apply lookup_lt_Some in R; exact R).
      injection H' as <-. now rewrite length_insert.
    + rewrite list_lookup_insert_ne in H' by exact Hne. now apply (Hr j').
  - unfold read. rewrite list_lookup_insert_eq by (apply lookup_lt_Some in R; exact R).
    rewrite list_lookup_insert_eq by lia. reflexivity.
  - intros j' i' Hne. unfold read. destruct (decide (j = j')) as [<-|Hj'].
    + rewrite list_lookup_insert_eq by (apply lookup_lt_Some in R; exact R). rewrite R.
      rewrite list_lookup_insert_ne by congruence. reflexivity.
    + now rewrite list_lookup_insert_ne by exact Hj'.
Qed.

(** *** The recursion *)

Lemma edit_distance_nil_r a : edit_distance a [] = Z.of_nat (length a).
Proof. now destruct a. Qed.

Lemma edit_distance_cons x a y b :
  edit_distance (x :: a) (y :: b)
  = Z.min (edit_distance a (y :: b) + 1)
          (Z.min (edit_distance (x :: a) b + 1)
                 (edit_distance a b + (if Ascii.eqb x y then 0 else 1))).
Proof. reflexivity. Qed.

Lemma edit_distance_nonneg a : forall b, 0 <= edit_distance a b.
Proof.
  induction a as [|x a IHa]; intros b; [cbn; lia|].
  induction b as [|y b IHb]; [rewrite edit_distance_nil_r; lia|].
  rewrite edit_distance_cons. pose proof (IHa (y :: b)). pose proof (IHa b).
  destruct (Ascii.eqb x y); lia.
Qed.

Lemma edit_distance_refl a : edit_distance a a = 0.
Proof.
  induction a as [|x a IH]; [reflexivity|].
  rewrite edit_distance_cons, IH, Ascii.eqb_refl.
  pose proof (edit_distance_nonneg a (x :: a)). pose proof (edit_distance_nonneg (x :: a) a).
  lia.
Qed.

Lemma edit_distance_sym a : forall b, edit_distance a b = edit_distance b a.
Proof.
  induction a as [|x a IHa]; intros b; [now rewrite edit_distance_nil_r|].
  induction b as [|y b IHb]; [now rewrite edit_distance_nil_r|].
  rewrite !edit_distance_cons, IHb, (IHa (y :: b)), (IHa b), (Ascii.eqb_sym x y). lia.
Qed.

Lemma edit_distance_lower a : forall b,
  Z.abs (Z.of_nat (length a) - Z.of_nat (length b)) <= edit_distance a b.
Proof.
  induction a as [|x a IHa]; intros b; [cbn [edit_distance length]; lia|].
  induction b as [|y b IHb]; [rewrite edit_distance_nil_r; cbn [length]; lia|].
  rewrite edit_distance_cons. specialize (IHa (y :: b)) as H1. specialize (IHa b) as H2.
  cbn [length] in *. destruct (Ascii.eqb x y); lia.
Qed.

Lemma edit_distance_upper a : forall b,
  edit_distance a b <= Z.max (Z.of_nat (length a)) (Z.of_nat (length b)).
Proof.
  induction a as [|x a IHa]; intros b; [cbn [edit_distance length]; lia|].
  destruct b as [|y b]; [rewrite edit_distance_nil_r; lia|].
  rewrite edit_distance_cons. specialize (IHa b). cbn [length] in *.
  destruct (Ascii.eqb x y); lia.
Qed.

Lemma edit_distance_zero a : forall b, edit_distance a b = 0 -> a = b.
Proof.
  induction a as [|x a IHa]; intros b H.
  - cbn in H. destruct b; [reflexivity | discriminate].
  - destruct b as [|y b]; [rewrite edit_distance_nil_r in H; discriminate|].
    rewrite edit_distance_cons in H.
    pose proof (edit_distance_nonneg a (y :: b)). pose proof (edit_distance_nonneg (x :: a) b).
    pose proof (edit_distance_nonneg a b).
    destruct (Ascii.eqb_spec x y) as [->|Hne]; [|lia].
    f_equal. apply IHa. lia.
Qed.

(** *** The matrix *)

Lemma cell_row0 a b i : (i <= length a)%nat -> cell a b 0 i = Z.of_nat i.
Proof.
  intros Hi. unfold cell. change (rev (take 0 b)) with (@nil ascii).
  rewrite edit_distance_nil_r. now rewrite length_rev, length_take_le.
Qed.

Lemma cell_col0 a b j : (j <= length b)%nat -> cell a b j 0 = Z.of_nat j.
Proof.
  intros Hj. unfold cell. change (rev (take 0 a)) with (@nil ascii).
  cbn [edit_distance]. now rewrite length_rev, length_take_le.
Qed.

Lemma rev_take_S {A} (l : list A) i x :
  l !! i = Some x -> rev (take (S i) l) = x :: rev (take i l).
Proof.
  intros H. rewrite (take_S_r l i x H), rev_app_distr. reflexivity.
Qed.

Lemma cell_step a b j i :
  (1 <= j <= length b)%nat -> (1 <= i <= length a)%nat ->
  cell a b j i
  = Z.min (cell a b j (i - 1) + 1)
          (Z.min (cell a b (j - 1) i + 1)
                 (cell a b (j - 1) (i - 1) + indicator (a !! (i - 1)%nat) (b !! (j - 1)%nat))).
Proof.
  intros Hj Hi. destruct j as [|j]; [lia|]. destruct i as [|i]; [lia|].
  cbn [Nat.sub]. rewrite !Nat.sub_0_r.
  destruct (a !! i) as [x|] eqn:Ha; [|apply lookup_ge_None in Ha; lia].
  destruct (b !! j) as [y|] eqn:Hb; [|apply lookup_ge_None in Hb; lia].
  unfold cell. rewrite (rev_take_S a i x Ha), (rev_take_S b j y Hb).
  apply edit_distance_cons.
Qed.

Lemma shape_new a b :
  shape a b (replicate (length b + 1) (replicate (length a + 1) None)).
Proof.
  split; [rewrite length_replicate; lia|].
  intros j row H. apply lookup_replicate in H. destruct H as [-> _].
  rewrite length_replicate. lia.
Qed.

Lemma first_loops a b :
  filled a b 1 1
    (fold_left (fun matrix j => write matrix j 0 (Z.of_nat j)) (seq 0 (length b + 1))
       (fold_left (fun matrix i => write matrix 0 i (Z.of_nat i)) (seq 0 (length a + 1))
          (replicate (length b + 1) (replicate (length a + 1) None)))).
Proof.
  set (m0 := replicate _ _).
  pose proof (fold_seq_inv
                (fun k m => shape a b m /\
                            forall i, (i < k)%nat -> read m 0 i = Z.of_nat i)
                (fun matrix i => write matrix 0 i (Z.of_nat i))
                (length a + 1) 0 m0) as H1.
  cbn beta in H1. destruct H1 as [S1 R1].
  { split; [apply shape_new | intros i Hi; lia]. }
  { intros k m' Hk [Sm Rm].
    destruct (write_spec a b m' 0 k (Z.of_nat k) Sm) as (S' & W1 & W2); [lia | lia |].
    split; [exact S'|]. intros i Hi. destruct (decide (i = k)) as [->|Hne]; [exact W1|].
    rewrite W2 by congruence. apply Rm. lia. }
  set (m1 := fold_left _ _ m0) in *.
  pose proof (fold_seq_inv
                (fun k m => shape a b m /\
                            (forall i, (i <= length a)%nat -> read m 0 i = Z.of_nat i) /\
                            forall j, (j < k)%nat -> read m j 0 = Z.of_nat j)
                (fun matrix j => write matrix j 0 (Z.of_nat j))
                (length b + 1) 0 m1) as H2.
  cbn beta in H2. destruct H2 as (S2 & R2 & C2).
  { split; [exact S1|]. split; [intros i Hi; apply R1; lia | intros j Hj; lia]. }
  { intros k m' Hk (Sm & Rm & Cm).
    destruct (write_spec a b m' k 0 (Z.of_nat k) Sm) as (S' & W1 & W2); [lia | lia |].
    split; [exact S'|]. split.
    - intros i Hi. destruct (decide ((0, i) = (k, 0))%nat) as [E|Hne].
      + injection E as <- ->. exact W1.
      + rewrite W2 by exact Hne. now apply Rm.
    - intros j Hj. destruct (decide (j = k)) as [->|Hne]; [exact W1|].
      rewrite W2 by congruence. apply Cm. lia. }
  split; [exact S2|]. intros j i Hj Hi Hk.
  assert (D : j = 0%nat \/ i = 0%nat) by (unfold known in Hk; lia).
  destruct D as [-> | ->].
  - rewrite cell_row0 by exact Hi. now apply R2.
  - rewrite cell_col0 by exact Hj. apply C2. lia.
Qed.

Lemma inner_step a b J I matrix :
  (1 <= J <= length b)%nat -> (1 <= I <= length a)%nat ->
  filled a b J I matrix ->
  filled a b J (S I)
    (write matrix J I
       (Z.min (read matrix J (I - 1) + 1)
              (Z.min (read matrix (J - 1) I + 1)
                     (read matrix (J - 1) (I - 1)
                      + indicator (a !! (I - 1)%nat) (b !! (J - 1)%nat))))).
Proof.
  intros HJ HI [Sm Fm].
  destruct (write_spec a b matrix J I
              (Z.min (read matrix J (I - 1) + 1)
                     (Z.min (read matrix (J - 1) I + 1)
                            (read matrix (J - 1) (I - 1)
                             + indicator (a !! (I - 1)%nat) (b !! (J - 1)%nat)))) Sm)
    as (S' & W1 & W2); [lia | lia |].
  split; [exact S'|]. intros j i Hj Hi Hk.
  destruct (decide ((j, i) = (J, I))) as [E|Hne].
  - injection E as -> ->. rewrite W1, (cell_step a b J I HJ HI).
    rewrite !Fm; [reflexivity | | | | | | | | |]; unfold known; lia.
  - rewrite W2 by exact Hne. apply Fm; [exact Hj | exact Hi |].
    unfold known in *. assert (~ (j = J /\ i = I)) by (intros [-> ->]; now apply Hne). lia.
Qed.

Lemma main_loops a b matrix :
  filled a b 1 1 matrix ->
  filled a b (1 + length b) 1
    (fold_left
       (fun matrix j =>
          fold_left
            (fun matrix i =>
               let indicator := indicator (a !! (i - 1)%nat) (b !! (j - 1)%nat) in
               write matrix j i
                     (Z.min (read matrix j (i - 1) + 1)
                            (Z.min (read matrix (j - 1) i + 1)
                                   (read matrix (j - 1) (i - 1) + indicator))))
            (seq 1 (length a)) matrix)
       (seq 1 (length b)) matrix).
Proof.
  intros H0.
  apply (fold_seq_inv (fun J m => filled a b J 1 m)); [exact H0|].
  intros J m HJ Hm.
  pose proof (fold_seq_inv (fun I m' => filled a b J I m')
                (fun matrix i =>
                   let indicator := indicator (a !! (i - 1)%nat) (b !! (J - 1)%nat) in
                   write matrix J i
                         (Z.min (read matrix J (i - 1) + 1)
                                (Z.min (read matrix (J - 1) i + 1)
                                       (read matrix (J - 1) (i - 1) + indicator))))
                (length a) 1 m Hm) as Hin.
  cbn beta zeta in Hin.
  assert (Hfull : filled a b J (1 + length a) (fold_left
            (fun matrix i =>
               write matrix J i
                     (Z.min (read matrix J (i - 1) + 1)
                            (Z.min (read matrix (J - 1) i + 1)
                                   (read matrix (J - 1) (i - 1)
                                    + indicator (a !! (i - 1)%nat) (b !! (J - 1)%nat)))))
            (seq 1 (length a)) m)).
  { apply Hin. intros I m' HI Hm'. apply inner_step; [lia | lia | exact Hm']. }
  destruct Hfull as [Sf Ff]. split; [exact Sf|].
  intros j i Hj Hi Hk. apply Ff; [exact Hj | exact Hi |]. unfold known in *. lia.
Qed.

Lemma levenshteinDistance_edit_distance a b :
  levenshteinDistance a b
  = edit_distance (rev (list_ascii_of_string a)) (rev (list_ascii_of_string b)).
Proof.
  unfold levenshteinDistance.
  set (la := list_ascii_of_string a). set (lb := list_ascii_of_string b).
  pose proof (main_loops la lb _ (first_loops la lb)) as [_ F].
  cbn zeta in F. rewrite F; [| lia | lia | unfold known; lia].
  unfold cell. now rewrite !firstn_all.
Qed.

Lemma length_list_ascii_of_string s :
  length (list_ascii_of_string s) = String.length s.
Proof. induction s as [|c s IH]; [reflexivity|]. cbn. now rewrite IH. Qed.

(** [levenshteinDistance] computes the edit distance, and is a distance.
    The matrix it fills holds, at row [j] and column [i], the edit distance
    of the first [i] characters of [a] and the first [j] of [b], so that the
    result is the edit distance of the two strings (by its recursion on
    their last characters); it is 0 exactly for equal strings, the same in
    both directions, at least the difference of the lengths and at most the
    greater length. *)
Theorem levenshteinDistance_is_a_distance :
  forall a b : string,
    levenshteinDistance a b
    = edit_distance (rev (list_ascii_of_string a)) (rev (list_ascii_of_string b)) /\
    levenshteinDistance a a = 0 /\
    (levenshteinDistance a b = 0 -> a = b) /\
    levenshteinDistance a b = levenshteinDistance b a /\
    Z.abs (Z.of_nat (String.length a) - Z.of_nat (String.length b))
    <= levenshteinDistance a b
    <= Z.max (Z.of_nat (String.length a)) (Z.of_nat (String.length b)).
Proof.
  intros a b. rewrite !levenshteinDistance_edit_distance.
  split; [reflexivity|]. split; [apply edit_distance_refl|]. split; [|split].
  - intros H. apply edit_distance_zero in H.
    apply (f_equal (@rev ascii)) in H. rewrite !rev_involutive in H.
    rewrite <- (string_of_list_ascii_of_string a), <- (string_of_list_ascii_of_string b).
    now rewrite H.
  - apply edit_distance_sym.
  - rewrite <- !length_list_ascii_of_string.
    rewrite <- (length_rev (list_ascii_of_string a)), <- (length_rev (list_ascii_of_string b)).
    split; [apply edit_distance_lower | apply edit_distance_upper].
Qed.

End ValidateAssetsFacts.
